(** * AHC022 solver: a shallow embedding of [main.py]

    The Python program designs an [L x L] toroidal temperature field, smooths
    it by simulated annealing and then recovers a hidden permutation of the
    landing sites from noisy measurements.

    Python integers are [Z], Python lists are [list], a raised exception is a
    [Raise] of the [result] type.  The three sources of input that the code
    reaches through the standard library are explicit: the [random] module is
    an [entropy] read through a call counter, the wall clock and the float
    temperature schedule are the numbers of loop rounds they allow, and the
    judge is the sequence of its replies.  Floats are not modelled: averages
    and costs that the code computes in floats are exact rationals here. *)

From Stdlib Require Import ZArith Lia QArith Qabs Sorted.
From stdpp Require Import base list numbers.

Local Open Scope Z_scope.

(** ** Exceptions and the two monads *)

Inductive exn : Type :=
  | IndexError
  | ValueError
  | ZeroDivisionError
  | SystemExit.

Inductive result (A : Type) : Type :=
  | Ok (a : A)
  | Raise (e : exn).

Arguments Ok {A} a.
Arguments Raise {A} e.

Definition rbind {A B : Type} (m : result A) (k : A → result B) : result B :=
  match m with
  | Ok a => k a
  | Raise e => Raise e
  end.

Notation "x <- m ;; k" := (rbind m (fun x => k))
  (at level 100, m at next level, right associativity).

(** Code that also reads the random module or talks to the judge threads a
    state [St] through. *)
Definition state (St A : Type) : Type := St → result (A * St).

Definition sret {St A : Type} (a : A) : state St A := fun s => Ok (a, s).

Definition sbind {St A B : Type} (m : state St A) (k : A → state St B)
  : state St B :=
  fun s => match m s with
           | Ok (a, s') => k a s'
           | Raise e => Raise e
           end.

Definition lift {St A : Type} (r : result A) : state St A :=
  fun s => match r with
           | Ok a => Ok (a, s)
           | Raise e => Raise e
           end.

Notation "x <~ m ;; k" := (sbind m (fun x => k))
  (at level 100, m at next level, right associativity).

(** ** Python lists and integers *)

Module Py.

(** [l[i]] accepts [-len(l) <= i < len(l)]; negative indices count from the
    end, anything else raises [IndexError]. *)
Definition norm_index (len : nat) (i : Z) : result nat :=
  if (0 <=? i) && (i <? Z.of_nat len) then Ok (Z.to_nat i)
  else if (- Z.of_nat len <=? i) && (i <? 0) then Ok (Z.to_nat (Z.of_nat len + i))
  else Raise IndexError.

Definition getitem {A : Type} (l : list A) (i : Z) : result A :=
  n <- norm_index (length l) i ;;
  match l !! n with
  | Some a => Ok a
  | None => Raise IndexError
  end.

Definition setitem {A : Type} (l : list A) (i : Z) (v : A) : result (list A) :=
  n <- norm_index (length l) i ;;
  Ok (<[n := v]> l).

(** [range(n)] and [range(a, b)]. *)
Definition range (n : Z) : list Z := seqZ 0 n.
Definition range2 (a b : Z) : list Z := seqZ a (b - a).

(** [enumerate(l)] *)
Definition enumerate {A : Type} (l : list A) : list (Z * A) :=
  zip (seqZ 0 (Z.of_nat (length l))) l.

(** [a // b] and [a % b] on integers: floor division, the remainder has the
    sign of the divisor, a zero divisor raises. *)
Definition floordiv (a b : Z) : result Z :=
  if b =? 0 then Raise ZeroDivisionError else Ok (a / b).

Definition modulo (a b : Z) : result Z :=
  if b =? 0 then Raise ZeroDivisionError else Ok (a mod b).

(** [for x in l: s = body(x, s)], without and with state. *)
Fixpoint for_each {A X : Type} (l : list A) (body : A → X → result X) (s : X)
  : result X :=
  match l with
  | [] => Ok s
  | a :: l' => s' <- body a s ;; for_each l' body s'
  end.

Fixpoint sfor_each {St A X : Type} (l : list A) (body : A → X → state St X)
  (s : X) : state St X :=
  match l with
  | [] => sret s
  | a :: l' => s' <~ body a s ;; sfor_each l' body s'
  end.

(** A loop whose body runs [n] times. *)
Fixpoint repeatM {St X : Type} (n : nat) (body : X → state St X) (s : X)
  : state St X :=
  match n with
  | O => sret s
  | S n' => s' <~ body s ;; repeatM n' body s'
  end.

(** [(y, x) in l] for a list of integer pairs, [i in l] for integers. *)
Definition mem (p : Z * Z) (l : list (Z * Z)) : bool := bool_decide (p ∈ l).
Definition memZ (i : Z) (l : list Z) : bool := bool_decide (i ∈ l).

(** [sorted(l, key=...)] and [l.sort(key=...)]: ascending and stable. *)
Fixpoint insert_by {A : Type} (key : A → Z) (a : A) (l : list A) : list A :=
  match l with
  | [] => [a]
  | b :: l' => if key a <=? key b then a :: b :: l' else b :: insert_by key a l'
  end.

Definition sorted {A : Type} (key : A → Z) (l : list A) : list A :=
  foldr (insert_by key) [] l.

(** [collections.deque]: [popleft] and [pop] raise on an empty deque. *)
Definition popleft {A : Type} (d : list A) : result (A * list A) :=
  match d with
  | [] => Raise IndexError
  | a :: d' => Ok (a, d')
  end.

Definition pop {A : Type} (d : list A) : result (A * list A) :=
  match reverse d with
  | [] => Raise IndexError
  | a :: r => Ok (a, reverse r)
  end.

End Py.

(** ** The random module

    The [k]-th call to the module reads position [k] of the entropy.  An
    integer draw maps a raw number onto the requested interval, which every
    value of the interval is the image of; the outcome of the Metropolis
    comparison [random.uniform(0, 1) < math.exp(-delta / T)] and the value of
    [int(random.gauss(mu, sigma))] are read as they come. *)

Module Random.

Record entropy : Type := {
  raw : nat → nat;
  coin : nat → bool;
  gauss : nat → Z
}.

(** [random.randint(a, b)]: an empty interval raises [ValueError]. *)
Definition randint (E : entropy) (a b : Z) : state nat Z :=
  fun k => if b <? a then Raise ValueError
           else Ok (a + Z.of_nat (raw E k) mod (b - a + 1), S k).

(** [random.choice(l)]: an empty list raises [IndexError]. *)
Definition choice {A : Type} (E : entropy) (l : list A) : state nat A :=
  fun k => match l !! (raw E k mod length l)%nat with
           | Some a => Ok (a, S k)
           | None => Raise IndexError
           end.

Definition metropolis (E : entropy) : state nat bool :=
  fun k => Ok (coin E k, S k).

Definition gauss_int (E : entropy) : state nat Z :=
  fun k => Ok (gauss E k, S k).

End Random.

(** ** Positions and the temperature field *)

Module Pos.
Record t : Type := mk { y : Z; x : Z }.
End Pos.

Abbreviation field := (list (list Z)).

Definition get2 {A : Type} (t : list (list A)) (i j : Z) : result A :=
  row <- Py.getitem t i ;;
  Py.getitem row j.

Definition set2 {A : Type} (t : list (list A)) (i j : Z) (v : A)
  : result (list (list A)) :=
  row <- Py.getitem t i ;;
  row' <- Py.setitem row j v ;;
  Py.setitem t i row'.

(** [[[v] * n for _ in range(n)]] *)
Definition square_matrix {A : Type} (n : Z) (v : A) : list (list A) :=
  (fun _ => replicate (Z.to_nat n) v) <$> Py.range n.

(** [BaseTemperature.__init__]: the all-zero field. *)
Definition zero_field (L : Z) : field := square_matrix L 0.

(** The last loop of both annealed designers: every cell still at 0 takes the
    average. *)
Definition fill_zero (L avg : Z) (temperature : field) : result field :=
  Py.for_each (Py.range L) (fun i temperature =>
    Py.for_each (Py.range L) (fun j temperature =>
      v <- get2 temperature i j ;;
      if v =? 0 then set2 temperature i j avg else Ok temperature)
    temperature) temperature.

(** ** OptimizeTemperature *)

Module OptimizeTemperature.
Section Methods.
Context (E : Random.entropy).
Context (L : Z).

Definition _calc_placement_cost (temperature : field) : result Z :=
  Py.for_each (Py.range L) (fun i cost =>
    Py.for_each (Py.range L) (fun j cost =>
      a <- get2 temperature i j ;;
      i1 <- Py.modulo (i + 1) L ;;
      b <- get2 temperature i1 j ;;
      let cost := cost + (a - b) ^ 2 in
      c <- get2 temperature i j ;;
      j1 <- Py.modulo (j + 1) L ;;
      d <- get2 temperature i j1 ;;
      Ok (cost + (c - d) ^ 2)) cost) 0.

Definition permit_pos (prohibit_pos : list (Z * Z)) : list (Z * Z) :=
  filter (fun p => p ∉ prohibit_pos) (i ← Py.range L; j ← Py.range L; [(i, j)]).

(** One round of the [for _ in range(random.randint(1, 20))] loop. *)
Definition perturb (permit : list (Z * Z)) (rand : Z) (new_temperature : field)
  : state nat field :=
  p <~ Random.choice E permit ;;
  let '(i, j) := p in
  old <~ lift (get2 new_temperature i j) ;;
  d <~ Random.randint E (- rand) rand ;;
  new_temperature <~ lift (set2 new_temperature i j (old + d)) ;;
  v <~ lift (get2 new_temperature i j) ;;
  lift (set2 new_temperature i j (Z.max 0 (Z.min 1000 v))).

(** One round of the [while T > T_end] loop. *)
Definition anneal (permit : list (Z * Z)) (rand : Z) (best : field * Z)
  : state nat (field * Z) :=
  let '(best_temperature, best_cost) := best in
  n <~ Random.randint E 1 20 ;;
  new_temperature <~ Py.repeatM (Z.to_nat n) (perturb permit rand) best_temperature ;;
  neighbour_cost <~ lift (_calc_placement_cost new_temperature) ;;
  let delta := neighbour_cost - best_cost in
  if delta <? 0 then sret (new_temperature, neighbour_cost)
  else
    accept <~ Random.metropolis E ;;
    if (accept : bool) then sret (new_temperature, neighbour_cost)
    else sret (best_temperature, best_cost).

(** [optimize].  [runs] is the number of times the test
    [time.time() - start_time <= time_limit] succeeds before it fails, and
    [levels] the number of rounds of [while T > T_end], which starts again
    from [T_start] in every run: the clock, [time_limit], [T_start],
    [T_end] and [alpha] enter the result through these two numbers and
    through the Metropolis outcomes only. *)
Definition optimize (current_temperature : field)
  (prohibit_pos : list (Z * Z)) (rand : Z) (runs levels : nat)
  : state nat field :=
  let best_temperature := current_temperature in
  best_cost <~ lift (_calc_placement_cost current_temperature) ;;
  let permit := permit_pos prohibit_pos in
  if (length permit =? 0)%nat then sret best_temperature
  else
    best <~ Py.repeatM runs (Py.repeatM levels (anneal permit rand))
              (best_temperature, best_cost) ;;
    sret (fst best).

End Methods.
End OptimizeTemperature.

(** Both callers anneal with [T_start=100], [T_end=0.1], [alpha=0.1]: in
    doubles [T] takes the values 100, 10.0 and 1.0, and [0.1 > 0.1] ends the
    loop. *)
Definition levels_100_01_01 : nat := 3.

(** ** OnePointTemperature (variant A) *)

Module OnePointTemperature.

Definition around : list (Z * Z) :=
  filter (fun p => p ≠ (0, 0))
    (y ← Py.range2 (-1) 2; x ← Py.range2 (-1) 2; [(y, x)]).

Definition around2 : list (Z * Z) :=
  filter (fun p => (p ∉ around) ∧ p ≠ (0, 0))
    (y ← Py.range2 (-2) 3; x ← Py.range2 (-2) 3; [(y, x)]).

Definition around3 : list (Z * Z) :=
  filter (fun p => (p ∉ around ++ around2) ∧ p ≠ (0, 0))
    (y ← Py.range2 (-3) 4; x ← Py.range2 (-3) 4; [(y, x)]).

Section Methods.
Context (E : Random.entropy).
Context (L N S : Z) (landing_pos : list Pos.t).

Definition interval : Z := 2.

(** The loop over one ring of offsets; [run] has it three times. *)
Definition ring (prohibit_pos : list (Z * Z)) (pos : Pos.t)
  (offsets : list (Z * Z)) (avg_round : Z) (temperature : field)
  : result field :=
  Py.for_each offsets (fun d temperature =>
    let '(dy, dx) := d in
    y <- Py.modulo (Pos.y pos + dy) L ;;
    x <- Py.modulo (Pos.x pos + dx) L ;;
    v <- get2 temperature y x ;;
    if v =? 0 then set2 temperature y x avg_round
    else if negb (v =? 0) && negb (Py.mem (y, x) prohibit_pos) then
      set2 temperature y x ((v + avg_round) / 2)
    else Ok temperature) temperature.

(** The body of [for i in range(self.N)]. *)
Definition place (prohibit_pos : list (Z * Z)) (avg : Z)
  (center_distance : list (Pos.t * Z)) (i : Z) (temperature : field)
  : result field :=
  entry <- Py.getitem center_distance i ;;
  let pos := fst entry in
  temperature <- set2 temperature (Pos.y pos) (Pos.x pos) (interval * (i + 1)) ;;
  let center_avg := 2 * (i + 1) in
  let avg_round1 := (3 * center_avg + avg) / 4 in
  let avg_round2 := (center_avg + avg) / 2 in
  let avg_round3 := (center_avg + 3 * avg) / 4 in
  temperature <- ring prohibit_pos pos around avg_round1 temperature ;;
  temperature <- ring prohibit_pos pos around2 avg_round2 temperature ;;
  ring prohibit_pos pos around3 avg_round3 temperature.

Definition prohibit_pos : list (Z * Z) :=
  (fun pos => (Pos.y pos, Pos.x pos)) <$> landing_pos.

Definition center_distance : list (Pos.t * Z) :=
  let center := Pos.mk (L / 2) (L / 2) in
  Py.sorted snd
    ((fun pos => (pos, Z.abs (Pos.y pos - Pos.y center)
                       + Z.abs (Pos.x pos - Pos.x center))) <$> landing_pos).

(** [run] up to the call of the optimizer. *)
Definition design : result field :=
  a <- Py.floordiv ((interval + N * interval) * N) 2 ;;
  avg <- Py.floordiv a N ;;
  temperature <- Py.for_each (Py.range N)
                   (place prohibit_pos avg center_distance) (zero_field L) ;;
  fill_zero L avg temperature.

Definition rand : Z := N / 20 - 2.

Definition run (runs : nat) : state nat field :=
  temperature <~ lift design ;;
  OptimizeTemperature.optimize E L temperature prohibit_pos rand
    runs levels_100_01_01.

End Methods.
End OnePointTemperature.

(** ** SingularTemperature (variant B) and SingularTemperature2 (variant C) *)

(** The cell both variants put the hotspot on. *)
Definition centroid (N : Z) (landing_pos : list Pos.t) : result (Z * Z) :=
  y <- Py.floordiv (foldr Z.add 0 (Pos.y <$> landing_pos)) N ;;
  x <- Py.floordiv (foldr Z.add 0 (Pos.x <$> landing_pos)) N ;;
  Ok (y, x).

(** [for i, pos in enumerate(self.landing_pos): distance[i] = f(i, pos)] on
    [distance = [[] for _ in range(self.N)]]: [None] is a slot still [[]]. *)
Definition fill_slots {A : Type} (N : Z) (landing_pos : list Pos.t)
  (f : Z → Pos.t → A) : result (list (option A)) :=
  Py.for_each (Py.enumerate landing_pos)
    (fun e distance => Py.setitem distance (fst e) (Some (f (fst e) (snd e))))
    (replicate (Z.to_nat N) None).

(** Reading a component of a slot raises on a slot still [[]]. *)
Fixpoint filled {A : Type} (distance : list (option A)) : result (list A) :=
  match distance with
  | [] => Ok []
  | None :: _ => Raise IndexError
  | Some a :: rest => l <- filled rest ;; Ok (a :: l)
  end.

Module SingularTemperature.
Section Methods.
Context (L N S : Z) (landing_pos : list Pos.t).

(** An entry [[i_out, [dy, dx], [d]]] of [distance]. *)
Definition entry : Type := Z * (Z * Z) * Z.

Definition run : result (field * list entry) :=
  c <- centroid N landing_pos ;;
  let '(y, x) := c in
  temperature <- set2 (zero_field L) y x (Z.min 1000 (10 * S)) ;;
  distance <- fill_slots N landing_pos (fun i_out pos =>
                (i_out, (y - Pos.y pos, x - Pos.x pos),
                 Z.abs (y - Pos.y pos) + Z.abs (x - Pos.x pos))) ;;
  distance <- filled distance ;;
  Ok (temperature, Py.sorted snd distance).

End Methods.
End SingularTemperature.

Module SingularTemperature2.
Section Methods.
Context (L N S : Z) (landing_pos : list Pos.t).

(** An entry [[[dy, dx], [dy2, dx2]]] of [distance]. *)
Definition entry : Type := (Z * Z) * (Z * Z).

Definition run : result (field * list (option entry)) :=
  c <- centroid N landing_pos ;;
  let '(y, x) := c in
  temperature <- set2 (zero_field L) y x (Z.min 1000 (10 * S)) ;;
  y1 <- Py.modulo (y + 1) L ;;
  temperature <- set2 temperature y1 x (Z.min 1000 (10 * S)) ;;
  distance <- fill_slots N landing_pos (fun i pos =>
                ((y - Pos.y pos, x - Pos.x pos),
                 (y1 - Pos.y pos, x - Pos.x pos))) ;;
  Ok (temperature, distance).

End Methods.
End SingularTemperature2.

(** ** AroundTemperature (variant D) *)

Definition square_offsets (r : Z) : list (Z * Z) :=
  y ← Py.range2 (- r) (r + 1); x ← Py.range2 (- r) (r + 1); [(y, x)].

(** The constructors of [AroundTemperature] and [AroundSolver] choose
    [(self.Around, self.direction)] by the same statements. *)
Definition around_init (S N : Z) : Z * list (Z * Z) :=
  if S <? 625 then
    let init := (3, square_offsets 1) in
    if (289 <=? S) && (N =? 100) then (5, square_offsets 2) else init
  else (5, square_offsets 2).

Module AroundTemperature.
Section Methods.
Context (E : Random.entropy).
Context (L N S : Z) (landing_pos : list Pos.t).

Definition Around : Z := fst (around_init S N).
Definition direction : list (Z * Z) := snd (around_init S N).

Definition clamp (v : Z) : Z := Z.min 1000 (Z.max 0 v).

(** What the loop over the sites updates. *)
Record vars : Type := {
  temperature : field;
  avg : Z;
  num : Z;
  prohibit_pos : list (Z * Z);
  landing_deque : list Pos.t
}.

(** [int(random.gauss(mu, sigma))]: the branch on [S * N <= 26460] changes
    [sigma] only. *)
Definition draw : state nat Z :=
  if S * N <=? 26460 then Random.gauss_int E else Random.gauss_int E.

(** The body of [for dy, dx in self.direction]. *)
Definition seed (pos : Pos.t) (d : Z * Z) (v : vars) : state nat vars :=
  let '(dy, dx) := d in
  y <~ lift (Py.modulo (Pos.y pos + dy) L) ;;
  x <~ lift (Py.modulo (Pos.x pos + dx) L) ;;
  let prohibit_pos := prohibit_pos v ++ [(y, x)] in
  old <~ lift (get2 (temperature v) y x) ;;
  if old =? 0 then
    g <~ draw ;;
    temperature <~ lift (set2 (temperature v) y x (clamp g)) ;;
    new <~ lift (get2 temperature y x) ;;
    sret {| temperature := temperature; avg := avg v + new; num := num v + 1;
            prohibit_pos := prohibit_pos; landing_deque := landing_deque v |}
  else
    sret {| temperature := temperature v; avg := avg v; num := num v;
            prohibit_pos := prohibit_pos; landing_deque := landing_deque v |}.

(** The body of [for i in range(self.N)]. *)
Definition place (center_temps : list Z) (i : Z) (v : vars) : state nat vars :=
  center_temp <~ lift (Py.getitem center_temps i) ;;
  popped <~ lift (if i mod 2 =? 0 then Py.popleft (landing_deque v)
                  else Py.pop (landing_deque v)) ;;
  let '(pos, landing_deque) := popped in
  temperature <~ lift (set2 (temperature v) (Pos.y pos) (Pos.x pos) center_temp) ;;
  new <~ lift (get2 temperature (Pos.y pos) (Pos.x pos)) ;;
  Py.sfor_each direction (seed pos)
    {| temperature := temperature; avg := avg v + new; num := num v + 1;
       prohibit_pos := prohibit_pos v; landing_deque := landing_deque |}.

(** [center_temps], before it is sorted. *)
Definition center_draws : state nat (list Z) :=
  Py.sfor_each (Py.range N)
    (fun _ temps => g <~ Random.gauss_int E ;; sret (temps ++ [clamp g])) [].

(** [run] up to the call of the optimizer: the field and [prohibit_pos]. *)
Definition design : state nat (field * list (Z * Z)) :=
  center_temps <~ center_draws ;;
  let center_temps := Py.sorted id center_temps in
  v <~ Py.sfor_each (Py.range N) (place center_temps)
         {| temperature := zero_field L; avg := 0; num := 0;
            prohibit_pos := (fun pos => (Pos.y pos, Pos.x pos)) <$> landing_pos;
            landing_deque := landing_pos |} ;;
  avg <~ lift (Py.floordiv (avg v) (num v)) ;;
  temperature <~ lift (fill_zero L avg (temperature v)) ;;
  sret (temperature, remove_dups (prohibit_pos v)).

(** [vector[i].append(...)] for every offset of the site [i]. *)
Definition template (temperature : field) (i : Z) (pos : Pos.t)
  (vector : list (list Z)) : result (list (list Z)) :=
  Py.for_each direction (fun d vector =>
    let '(dy, dx) := d in
    row <- Py.getitem vector i ;;
    y <- Py.modulo (Pos.y pos + dy) L ;;
    x <- Py.modulo (Pos.x pos + dx) L ;;
    v <- get2 temperature y x ;;
    Py.setitem vector i (row ++ [v])) vector.

Definition run (runs : nat) : state nat (field * list (list Z)) :=
  d <~ design ;;
  let '(temperature, prohibit_pos) := d in
  temperature <~ OptimizeTemperature.optimize E L temperature prohibit_pos 3
                   runs levels_100_01_01 ;;
  vector <~ lift (Py.for_each (Py.enumerate landing_pos)
               (fun e vector => template temperature (fst e) (snd e) vector)
               (replicate (Z.to_nat N) [])) ;;
  sret (temperature, vector).

End Methods.
End AroundTemperature.

(** ** The judge

    The state is the list of the queries printed so far; the reply to the
    [k]-th query is [reply k], and a reply of [-1] ends the program. *)

Module Judge.

Definition query : Type := Z * Z * Z.

Definition measure (reply : nat → Z) (i y x : Z) : state (list query) Z :=
  fun asked =>
    let v := reply (length asked) in
    if v =? -1 then Raise SystemExit else Ok (v, asked ++ [(i, y, x)]).

(** [sum([self.judge.measure(i, y, x) for _ in range(n)]) / n] *)
Definition average (reply : nat → Z) (i y x n : Z) : state (list query) Q :=
  total <~ Py.sfor_each (Py.range n)
             (fun _ total => v <~ measure reply i y x ;; sret (total + v)) 0 ;;
  if n =? 0 then lift (Raise ZeroDivisionError)
  else sret (inject_Z total / inject_Z n)%Q.

End Judge.

(** ** The solvers

    [linear_sum_assignment] is SciPy's: it is a parameter, [true] asks for a
    maximum.  [BaseSolver._hungarian_method] keeps its column indices. *)

Abbreviation matrix := (list (list Q)).

Definition _hungarian_method (linear_sum_assignment : matrix → bool → list Z)
  (cost_matrix : matrix) (maximize : bool) : list Z :=
  linear_sum_assignment cost_matrix maximize.

(** The last statement of both threshold decoders:
    [estimate[-1] = [i for i in range(self.N) if i not in visited_index][0]] *)
Definition force_last (N : Z) (estimate visited_index : list Z) : result (list Z) :=
  rest <- Py.getitem (filter (fun i => i ∉ visited_index) (Py.range N)) 0 ;;
  Py.setitem estimate (-1) rest.

Module OnePointSolver.
Section Methods.
Context (linear_sum_assignment : matrix → bool → list Z).
Context (reply : nat → Z).
Context (L N S : Z) (landing_pos : list Pos.t).

(** [_predict] up to the call of the Hungarian method. *)
Definition cost_matrix (temperature : field) : state (list Judge.query) matrix :=
  let measure_count := 5 in
  Py.sfor_each (Py.range (N - 1)) (fun i_in cost_matrix =>
    measured_value <~ Judge.average reply i_in 0 0 measure_count ;;
    lift (Py.for_each (Py.enumerate landing_pos) (fun e cost_matrix =>
      let '(i_out, pos) := e in
      t <- get2 temperature (Pos.y pos) (Pos.x pos) ;;
      set2 cost_matrix i_in i_out (Qabs (inject_Z t - measured_value)))
      cost_matrix))
    (square_matrix N 0%Q).

Definition _predict (temperature : field) : state (list Judge.query) (list Z) :=
  cost_matrix <~ cost_matrix temperature ;;
  sret (_hungarian_method linear_sum_assignment cost_matrix false).

End Methods.
End OnePointSolver.

Module SingularSolver.
Section Methods.
Context (reply : nat → Z).
Context (L N S : Z) (landing_pos : list Pos.t).

Definition threshold : Z := Z.min 999 (5 * S).

(** The loop [for i_out, [dy, dx], _ in distance], left at the first claim. *)
Fixpoint probe (i_in : Z) (distance : list SingularTemperature.entry)
  (vars : list Z * list Z) : state (list Judge.query) (list Z * list Z) :=
  match distance with
  | [] => sret vars
  | (i_out, (dy, dx), _) :: rest =>
      let '(estimate, visited_index) := vars in
      if Py.memZ i_out visited_index then probe i_in rest vars
      else
        v <~ Judge.measure reply i_in dy dx ;;
        if threshold <? v then
          let visited_index := visited_index ++ [i_out] in
          estimate <~ lift (Py.setitem estimate i_in i_out) ;;
          sret (estimate, visited_index)
        else probe i_in rest vars
  end.

(** The loop over the hidden indices: [(estimate, visited_index)]. *)
Definition rounds (distance : list SingularTemperature.entry)
  : state (list Judge.query) (list Z * list Z) :=
  Py.sfor_each (Py.range (N - 1)) (fun i_in vars => probe i_in distance vars)
    (replicate (Z.to_nat N) 0, []).

Definition _predict (temperature : field)
  (distance : list SingularTemperature.entry)
  : state (list Judge.query) (list Z) :=
  vars <~ rounds distance ;;
  lift (force_last N (fst vars) (snd vars)).

End Methods.
End SingularSolver.

Module SingularSolver2.
Section Methods.
Context (linear_sum_assignment : matrix → bool → list Z).
Context (reply : nat → Z).
Context (L N S : Z) (landing_pos : list Pos.t).

(** Unpacking [[[dy, dx], [dy2, dx2]]] from a slot still [[]] raises. *)
Definition unpack (slot : option SingularTemperature2.entry)
  : result SingularTemperature2.entry :=
  match slot with
  | Some e => Ok e
  | None => Raise ValueError
  end.

(** The branch [self.N <= 71] up to the call of the Hungarian method. *)
Definition cost_matrix (distance : list (option SingularTemperature2.entry))
  : state (list Judge.query) matrix :=
  Py.sfor_each (Py.range (N - 1)) (fun i_in cost_matrix =>
    Py.sfor_each (Py.enumerate distance) (fun e cost_matrix =>
      d <~ lift (unpack (snd e)) ;;
      let '((dy, dx), (dy2, dx2)) := d in
      let i_out := fst e in
      old <~ lift (get2 cost_matrix i_in i_out) ;;
      m <~ Judge.measure reply i_in dy dx ;;
      m2 <~ Judge.measure reply i_in dy2 dx2 ;;
      lift (set2 cost_matrix i_in i_out (old + inject_Z (m + m2))%Q))
      cost_matrix)
    (square_matrix N 0%Q).

(** The inner loop of the other branch.  [threshold = 5.3 * self.S] is a
    float; a sum [m] of two integer readings exceeds it exactly when
    [53 * S < 10 * m]. *)
Fixpoint probe (i_in : Z)
  (distance : list (Z * option SingularTemperature2.entry))
  (vars : list Z * list Z) : state (list Judge.query) (list Z * list Z) :=
  match distance with
  | [] => sret vars
  | (i_out, slot) :: rest =>
      d <~ lift (unpack slot) ;;
      let '((dy, dx), (dy2, dx2)) := d in
      let '(estimate, visited_index) := vars in
      if Py.memZ i_out visited_index then probe i_in rest vars
      else
        m <~ Judge.measure reply i_in dy dx ;;
        m2 <~ Judge.measure reply i_in dy2 dx2 ;;
        if 53 * S <? 10 * (m + m2) then
          estimate <~ lift (Py.setitem estimate i_in i_out) ;;
          sret (estimate, visited_index ++ [i_out])
        else probe i_in rest vars
  end.

Definition rounds (distance : list (option SingularTemperature2.entry))
  : state (list Judge.query) (list Z * list Z) :=
  Py.sfor_each (Py.range (N - 1))
    (fun i_in vars => probe i_in (Py.enumerate distance) vars)
    (replicate (Z.to_nat N) 0, []).

Definition _predict (temperature : field)
  (distance : list (option SingularTemperature2.entry))
  : state (list Judge.query) (list Z) :=
  if N <=? 71 then
    cost_matrix <~ cost_matrix distance ;;
    sret (_hungarian_method linear_sum_assignment cost_matrix true)
  else
    vars <~ rounds distance ;;
    lift (force_last N (fst vars) (snd vars)).

End Methods.
End SingularSolver2.

Module AroundSolver.
Section Methods.
Context (linear_sum_assignment : matrix → bool → list Z).
Context (reply : nat → Z).
Context (L N S : Z) (landing_pos : list Pos.t).

Definition Around : Z := fst (around_init S N).
Definition direction : list (Z * Z) := snd (around_init S N).

Definition measure_count : result Z :=
  a <- Py.floordiv 10000 N ;;
  Py.floordiv a (Around ^ 2).

Definition cost_matrix (vector : list (list Z))
  : state (list Judge.query) matrix :=
  measure_count <~ lift measure_count ;;
  Py.sfor_each (Py.range N) (fun i_in cost_matrix =>
    measure_vector <~ Py.sfor_each direction (fun d measure_vector =>
         a <~ Judge.average reply i_in (fst d) (snd d) measure_count ;;
         sret (measure_vector ++ [a])) [] ;;
    lift (Py.for_each (Py.enumerate landing_pos) (fun e cost_matrix =>
      let i_out := fst e in
      cost <- Py.for_each (Py.range (Z.of_nat (length measure_vector)))
                (fun i cost =>
                   v <- get2 vector i_out i ;;
                   a <- Py.getitem measure_vector i ;;
                   Ok (cost + (inject_Z v - a) ^ 2)%Q) 0%Q ;;
      set2 cost_matrix i_in i_out cost) cost_matrix))
    (square_matrix N 0%Q).

Definition _predict (temperature : field) (vector : list (list Z))
  : state (list Judge.query) (list Z) :=
  cost_matrix <~ cost_matrix vector ;;
  sret (_hungarian_method linear_sum_assignment cost_matrix false).

End Methods.
End AroundSolver.

(** ** main: the choice of the solver class *)

Inductive solver_class : Type :=
  | OnePoint
  | Singular
  | Singular2
  | Around.

Definition main_solver (S N : Z) : solver_class :=
  if S =? 1 then OnePoint
  else if (1 <? S) && (S <? 169) then Singular
  else if (169 <=? S) && (S <? 289) then Singular2
  else if ((289 <=? S) && (S <? 400)) && (N <=? 71) then Singular2
  else Around.

(** ** Vocabulary of the statements *)

(** A field, or a matrix, of [L] rows of [L] cells. *)
Definition shape {A : Type} (L : Z) (t : list (list A)) : Prop :=
  Z.of_nat (length t) = L ∧ Forall (fun row => Z.of_nat (length row) = L) t.

(** The value of the cell [(i, j)] of the grid, for [0 <= i, j < L]. *)
Definition cell (t : field) (i j : Z) : Z :=
  default 0 (row ← t !! Z.to_nat i; row !! Z.to_nat j).

Definition sumZ (f : Z → Z) (l : list Z) : Z :=
  foldr (fun a acc => f a + acc) 0 l.

(** The smoothness cost in the words of the specification: over all cells,
    the squared difference with the toroidal down neighbour plus the squared
    difference with the toroidal right neighbour. *)
Definition smoothness (L : Z) (t : field) : Z :=
  sumZ (fun i => sumZ (fun j =>
      (cell t i j - cell t ((i + 1) mod L) j) ^ 2
    + (cell t i j - cell t i ((j + 1) mod L)) ^ 2) (Py.range L)) (Py.range L).

Definition constant_field (L : Z) (t : field) : Prop :=
  ∀ i j i' j', 0 <= i < L → 0 <= j < L → 0 <= i' < L → 0 <= j' < L →
    cell t i j = cell t i' j'.

(** Every cell holds a value of [0..hi]; of [0..1000]. *)
Definition cells_within (hi : Z) (t : field) : Prop :=
  Forall (Forall (fun v => 0 <= v <= hi)) t.

Definition in_range (t : field) : Prop := cells_within 1000 t.

(** The input of an episode: a grid, and [N] landing sites on it. *)
Definition episode (L N : Z) (landing_pos : list Pos.t) : Prop :=
  0 < L ∧ 0 < N ∧ Z.of_nat (length landing_pos) = N ∧
  Forall (fun pos => 0 <= Pos.y pos < L ∧ 0 <= Pos.x pos < L) landing_pos.

(** A property of fields that no write of a value of [0..1000] into a cell
    of [permit] breaks. *)
Definition stable (permit : list (Z * Z)) (P : field → Prop) : Prop :=
  ∀ t i j v t', P t → (i, j) ∈ permit → 0 <= v <= 1000 →
    set2 t i j v = Ok t' → P t'.

(** The invariant of the loops that write the field. *)
Definition grid (L hi : Z) (t : field) : Prop := shape L t ∧ cells_within hi t.

(** The invariant of the loop over the sites of variant D, before the round
    of index [i]. *)
Definition around_inv (L N i : Z) (v : AroundTemperature.vars) : Prop :=
  grid L 1000 (AroundTemperature.temperature v)
  ∧ 0 <= AroundTemperature.avg v <= 1000 * AroundTemperature.num v
  ∧ i <= AroundTemperature.num v
  ∧ Z.of_nat (length (AroundTemperature.landing_deque v)) = N - i
  ∧ Forall (fun pos => 0 <= Pos.y pos < L ∧ 0 <= Pos.x pos < L)
      (AroundTemperature.landing_deque v).

(** ** The decision table of the specification

    The strategy selector in the words of the specification, to compare
    [main] and the constructors with. *)

Inductive decoder : Type :=
  | OptimalAssignment
  | GreedyThreshold.

Definition spec_variant (S N : Z) : solver_class :=
  if decide (S = 1) then OnePoint
  else if decide (1 < S < 169) then Singular
  else if decide (169 <= S < 289 ∨ (289 <= S < 400 ∧ N <= 71)) then Singular2
  else Around.

Definition spec_decoder (S N : Z) : decoder :=
  match spec_variant S N with
  | OnePoint => OptimalAssignment
  | Singular => GreedyThreshold
  | Singular2 => if decide (N <= 71) then OptimalAssignment else GreedyThreshold
  | Around => OptimalAssignment
  end.

Definition spec_neighbourhood (S N : Z) : Z :=
  if decide (625 <= S ∨ (289 <= S ∧ N = 100)) then 5 else 3.

Definition spec_repeat_count (S N : Z) : Z :=
  10000 / N / (spec_neighbourhood S N * spec_neighbourhood S N).

(** What [_predict] of the class that [main] selects does: it hands a score
    matrix to the Hungarian method, or it runs the threshold rounds and
    forces the last estimate. *)
Definition runs_decoder (linear_sum_assignment : matrix → bool → list Z)
  (reply : nat → Z) (S N : Z) (landing_pos : list Pos.t) (d : decoder) : Prop :=
  match main_solver S N, d with
  | OnePoint, OptimalAssignment =>
      ∀ temperature,
        OnePointSolver._predict linear_sum_assignment reply N landing_pos temperature
        = (cost_matrix <~ OnePointSolver.cost_matrix reply N landing_pos temperature ;;
           sret (linear_sum_assignment cost_matrix false))
  | Singular, GreedyThreshold =>
      ∀ temperature distance,
        SingularSolver._predict reply N S temperature distance
        = (vars <~ SingularSolver.rounds reply N S distance ;;
           lift (force_last N (fst vars) (snd vars)))
  | Singular2, OptimalAssignment =>
      ∀ temperature distance,
        SingularSolver2._predict linear_sum_assignment reply N S temperature distance
        = (cost_matrix <~ SingularSolver2.cost_matrix reply N distance ;;
           sret (linear_sum_assignment cost_matrix true))
  | Singular2, GreedyThreshold =>
      ∀ temperature distance,
        SingularSolver2._predict linear_sum_assignment reply N S temperature distance
        = (vars <~ SingularSolver2.rounds reply N S distance ;;
           lift (force_last N (fst vars) (snd vars)))
  | Around, OptimalAssignment =>
      ∀ temperature vector,
        AroundSolver._predict linear_sum_assignment reply N S landing_pos
          temperature vector
        = (cost_matrix <~ AroundSolver.cost_matrix reply N S landing_pos vector ;;
           sret (linear_sum_assignment cost_matrix false))
  | _, _ => False
  end.

(** ** Vocabulary of the statements on the decoders *)

(** The hidden index of a query. *)
Definition hidden_index (q : Judge.query) : Z := fst (fst q).

(** The total score of an estimate: the sum, over the rows [i] of the score
    matrix, of [cost_matrix[i][estimate[i]]]. *)
Fixpoint score (cost_matrix : matrix) (estimate : list Z) : Q :=
  match cost_matrix, estimate with
  | row :: cost_matrix', j :: estimate' =>
      (default 0 (row !! Z.to_nat j) + score cost_matrix' estimate')%Q
  | _, _ => 0%Q
  end.

(** A total bijection between the hidden indices and the sites [0..N-1]. *)
Definition assignment (N : Z) (estimate : list Z) : Prop :=
  estimate ≡ₚ Py.range N.

(** What SciPy documents of [linear_sum_assignment] on a square matrix: the
    column indices are an assignment of minimum, or maximum, total score. *)
Definition optimal (maximize : bool) (N : Z) (cost_matrix : matrix)
  (estimate : list Z) : Prop :=
  assignment N estimate
  ∧ ∀ p, assignment N p →
      if maximize then (score cost_matrix p <= score cost_matrix estimate)%Q
      else (score cost_matrix estimate <= score cost_matrix p)%Q.

(** The last hidden index takes the one column that the others leave. *)
Definition takes_leftover (N : Z) (estimate : list Z) : Prop :=
  ∃ j, estimate !! Z.to_nat (N - 1) = Some j
       ∧ (j ∉ take (Z.to_nat (N - 1)) estimate)
       ∧ ∀ j', 0 <= j' < N → j' ∉ take (Z.to_nat (N - 1)) estimate → j' = j.

(** The invariant of the loops that fill a score matrix: its last row is
    untouched, and no query names the last hidden index. *)
Definition last_row_free (N : Z) (cost_matrix : matrix)
  (asked : list Judge.query) : Prop :=
  length cost_matrix = Z.to_nat N
  ∧ cost_matrix !! Z.to_nat (N - 1) = Some (replicate (Z.to_nat N) 0%Q)
  ∧ Forall (fun q => 0 <= hidden_index q <= N - 2) asked.

(** ** One round of a threshold decoder, as the specification words it

    A candidate is a site with the offsets to measure at.  In a round the
    unclaimed candidates are probed in the order of their list; the first
    one whose readings sum above the threshold is written into the estimate
    and joins the claimed sites, and the round ends there. *)

Definition candidate : Type := Z * list (Z * Z).

Definition queries_of (i_in : Z) (c : candidate) : list Judge.query :=
  (fun o => (i_in, fst o, snd o)) <$> snd c.

(** The sum of the replies to [n] queries printed after [asked]. *)
Definition reading (reply : nat → Z) (asked : list Judge.query) (n : nat) : Z :=
  foldr Z.add 0 ((fun k => reply (length asked + k)%nat) <$> seq 0 n).

Inductive round (reply : nat → Z) (exceeds : Z → bool) (i_in : Z)
  : list candidate → list Z * list Z → list Judge.query
    → list Z * list Z → list Judge.query → Prop :=
  | round_none vars asked :
      round reply exceeds i_in [] vars asked vars asked
  | round_claim c rest estimate visited_index asked estimate' :
      exceeds (reading reply asked (length (snd c))) = true →
      Py.setitem estimate i_in (fst c) = Ok estimate' →
      round reply exceeds i_in (c :: rest) (estimate, visited_index) asked
        (estimate', visited_index ++ [fst c]) (asked ++ queries_of i_in c)
  | round_next c rest vars asked vars' asked' :
      exceeds (reading reply asked (length (snd c))) = false →
      round reply exceeds i_in rest vars (asked ++ queries_of i_in c) vars' asked' →
      round reply exceeds i_in (c :: rest) vars asked vars' asked'.

(** The candidates of both variants, and those not yet claimed. *)
Definition candidate_B (e : SingularTemperature.entry) : candidate :=
  (fst (fst e), [snd (fst e)]).

Definition candidate_C (e : Z * SingularTemperature2.entry) : candidate :=
  (fst e, [fst (snd e); snd (snd e)]).

Definition unclaimed (visited_index : list Z) (l : list candidate)
  : list candidate :=
  filter (fun c => fst c ∉ visited_index) l.

(** The Manhattan length of an offset. *)
Definition manhattan (o : Z * Z) : Z := Z.abs (fst o) + Z.abs (snd o).

(** A judge that always replies 0, and one whose replies are 700 to the
    first query, 710 to the sixth and 0 to the others. *)
Definition reply_zero : nat → Z := fun _ => 0.

Definition reply_low : nat → Z :=
  fun k => if (k =? 0)%nat then 700 else if (k =? 5)%nat then 710 else 0.

(** 72 distinct sites on a 20 x 20 grid, and a judge whose first two replies
    are 0 and whose later replies are 1000. *)
Definition sites72 : list Pos.t :=
  (fun k => Pos.mk (k / 9 * 2) (k mod 9 * 2)) <$> Py.range 72.

Definition reply_late : nat → Z := fun k => if (k <? 2)%nat then 0 else 1000.

(** ** Concrete inputs *)

(** The three sites of the scenario of the specification, on a 10 x 10 grid. *)
Definition sites3 : list Pos.t := [Pos.mk 2 2; Pos.mk 7 7; Pos.mk 5 1].

(** 501 distinct sites: the first cells of a 23 x 23 grid, row by row. *)
Definition sites501 : list Pos.t :=
  (fun k => Pos.mk (k / 23) (k mod 23)) <$> Py.range 501.

(** A random module whose raw draws are all 0 and whose Metropolis tests all
    succeed. *)
Definition E_zero : Random.entropy :=
  {| Random.raw := fun _ => 0%nat;
     Random.coin := fun _ => true;
     Random.gauss := fun _ => 500 |}.

(** A random module that, at every level, draws one perturbation, of the
    first permitted cell, by [+1] when [rand = 5]; the Metropolis test of the
    first level succeeds, the later ones fail. *)
Definition E_uphill : Random.entropy :=
  {| Random.raw := fun k => if (k mod 4 =? 2)%nat then 6%nat else 0%nat;
     Random.coin := fun k => (k =? 3)%nat;
     Random.gauss := fun _ => 500 |}.

(** A 2 x 2 field, and the list of all the cells of its grid. *)
Definition field22 : field := [[1; 2]; [3; 4]].

Definition cells22 : list (Z * Z) := [(0, 0); (0, 1); (1, 0); (1, 1)].

(** A 3 x 3 score matrix whose last row is zero, and a solver that answers
    with its minimum assignment. *)
Definition scores3 : matrix := [[3; 1; 2]; [1; 3; 2]; [0; 0; 0]]%Q.

Definition solver3 : matrix → bool → list Z := fun _ _ => [1; 0; 2].

(** ** solve and main

    [main], once it has read [L], [N], [S] and the sites from its input,
    constructs the solver of the class it selects and calls its [solve].
    The four [solve] methods are the four branches below.  The field that
    [solve] hands to [Judge.set_temperature], the queries printed after it
    and the estimate handed to [Judge.answer] are the outcome of the run; the
    random module starts at its first draw and the judge at its first
    reply. *)

Record outcome : Type := {
  published : field;
  asked : list Judge.query;
  answered : list Z
}.

Section Main.
Context (E : Random.entropy).
Context (linear_sum_assignment : matrix → bool → list Z).
Context (reply : nat → Z).
Context (runs : nat).
Context (L N S : Z) (landing_pos : list Pos.t).

Definition solve (solver : solver_class) : result outcome :=
  match solver with
  | OnePoint =>
      r <- OnePointTemperature.run E L N landing_pos runs 0%nat ;;
      let temperature := fst r in
      p <- OnePointSolver._predict linear_sum_assignment reply N landing_pos
             temperature [] ;;
      Ok {| published := temperature; asked := snd p; answered := fst p |}
  | Singular =>
      r <- SingularTemperature.run L N S landing_pos ;;
      let '(temperature, distance) := r in
      p <- SingularSolver._predict reply N S temperature distance [] ;;
      Ok {| published := temperature; asked := snd p; answered := fst p |}
  | Singular2 =>
      r <- SingularTemperature2.run L N S landing_pos ;;
      let '(temperature, distance) := r in
      p <- SingularSolver2._predict linear_sum_assignment reply N S
             temperature distance [] ;;
      Ok {| published := temperature; asked := snd p; answered := fst p |}
  | Around =>
      r <- AroundTemperature.run E L N S landing_pos runs 0%nat ;;
      let '(temperature, vector) := fst r in
      p <- AroundSolver._predict linear_sum_assignment reply N S landing_pos
             temperature vector [] ;;
      Ok {| published := temperature; asked := snd p; answered := fst p |}
  end.

Definition main : result outcome := solve (main_solver S N).

End Main.

(** The field that [solve] hands to [Judge.set_temperature]: what [run], the
    first statement of every [solve], returns; none when [run] raises, which
    ends [solve] before that call. *)
Definition set_temperature_argument (E : Random.entropy) (runs : nat)
  (L N S : Z) (landing_pos : list Pos.t) (solver : solver_class)
  : option field :=
  match solver with
  | OnePoint =>
      match OnePointTemperature.run E L N landing_pos runs 0%nat with
      | Ok r => Some (fst r)
      | Raise _ => None
      end
  | Singular =>
      match SingularTemperature.run L N S landing_pos with
      | Ok r => Some (fst r)
      | Raise _ => None
      end
  | Singular2 =>
      match SingularTemperature2.run L N S landing_pos with
      | Ok r => Some (fst r)
      | Raise _ => None
      end
  | Around =>
      match AroundTemperature.run E L N S landing_pos runs 0%nat with
      | Ok r => Some (fst (fst r))
      | Raise _ => None
      end
  end.

(** ** Vocabulary of the statements on the runs *)

(** The place of the [i]-th element [a] of [l] in the stable ascending sort
    of [l] by [key]: the number of elements of a smaller key, plus the
    number of elements of the same key that come before it in [l]. *)
Definition stable_rank {A : Type} (key : A → Z) (l : list A) (i : nat) (a : A)
  : nat :=
  Nat.add (length (filter (fun b => key b < key a) l))
          (length (filter (fun b => key b = key a) (take i l))).

(** The Manhattan distance of a site from the cell [(L // 2, L // 2)]. *)
Definition centre_distance (L : Z) (pos : Pos.t) : Z :=
  Z.abs (Pos.y pos - L / 2) + Z.abs (Pos.x pos - L / 2).

(** The queries of [n] measurements of every offset of [offsets] for the
    hidden index [i]. *)
Definition block (n : nat) (offsets : list (Z * Z)) (i : Z) : list Judge.query :=
  d ← offsets; replicate n (i, fst d, snd d).

(** Between two states of the judge the queries [qs] were printed, and no
    reply read for them was [-1]. *)
Definition told (reply : nat → Z) (before qs after : list Judge.query) : Prop :=
  after = before ++ qs
  ∧ ∀ k, (length before ≤ k < length after)%nat → reply k ≠ -1.

(** Every entry is the index of a site. *)
Definition valid_sites (N : Z) (l : list Z) : Prop :=
  Forall (fun j => 0 <= j < N) l.

(** The cell that a measurement of the site [pos] at the offset [d] reads. *)
Definition target (L : Z) (pos : Pos.t) (d : Z * Z) : Z * Z :=
  ((Pos.y pos + fst d) mod L, (Pos.x pos + snd d) mod L).

(** Variant A ranks the sites by their distance from the centre of the
    grid: the sites of the ranks below [upto] hold the levels of their
    ranks, [2 * (r + 1)] for the rank [r] counted from 0. *)
Definition ranked_levels (L : Z) (landing_pos : list Pos.t) (upto : Z)
  (t : field) : Prop :=
  ∀ (r : nat) pos d,
    OnePointTemperature.center_distance L landing_pos !! r = Some (pos, d) →
    Z.of_nat r < upto →
    cell t (Pos.y pos) (Pos.x pos) = 2 * (Z.of_nat r + 1).

(** The cells of [cells] that hold a value other than 0 in [t] hold the same
    value in [t']. *)
Definition keeps (L : Z) (cells : list (Z * Z)) (t t' : field) : Prop :=
  ∀ a b, (a, b) ∈ cells → 0 <= a < L → 0 <= b < L → cell t a b ≠ 0 →
    cell t' a b = cell t a b.

(** The exact temperatures of the neighbourhood of a site, in the order of
    the offsets. *)
Definition readings (L : Z) (temperature : field) (offsets : list (Z * Z))
  (pos : Pos.t) : list Z :=
  (fun d => cell temperature (fst (target L pos d)) (snd (target L pos d)))
  <$> offsets.

(** The reading of a judge without noise: the hidden index [i] stands for
    the site [hidden[i]], and a query at the offset [(dy, dx)] reads the cell
    that the offset leads to from that site. *)
Definition exact_reply (L : Z) (temperature : field) (landing_pos : list Pos.t)
  (hidden : list Z) (q : Judge.query) : Z :=
  let '(i, dy, dx) := q in
  match hidden !! Z.to_nat i with
  | Some a =>
      match landing_pos !! Z.to_nat a with
      | Some pos =>
          cell temperature ((Pos.y pos + dy) mod L) ((Pos.x pos + dx) mod L)
      | None => 0
      end
  | None => 0
  end.

(** Every reply read for the queries [asked] was the reading without
    noise. *)
Definition exact (reply : nat → Z) (L : Z) (temperature : field)
  (landing_pos : list Pos.t) (hidden : list Z) (asked : list Judge.query)
  : Prop :=
  ∀ k q, asked !! k = Some q →
    reply k = exact_reply L temperature landing_pos hidden q.

(** A random module whose raw draws are those of [E_uphill] and whose
    Metropolis tests all fail. *)
Definition E_cold : Random.entropy :=
  {| Random.raw := Random.raw E_uphill;
     Random.coin := fun _ => false;
     Random.gauss := fun _ => 500 |}.

(** ** More concrete inputs *)

(** 40 distinct sites on a 16 x 16 grid. *)
Definition sites40 : list Pos.t :=
  (fun k => Pos.mk (k / 8 * 2) (k mod 8 * 2)) <$> Py.range 40.

(** The three sites hidden behind the indices 0, 1, 2 in this order. *)
Definition hidden3 : list Z := [1; 2; 0].

(** Variant B on the three sites with [S = 144]: the field, with its hotspot
    on the cell [(4, 3)], the table, and the exact replies to the five
    queries of the decoder when the sites are hidden as [hidden3]. *)
Definition hot_field3 : field :=
  <[4%nat := <[3%nat := 1000]> (replicate 10 0)]> (replicate 10 (replicate 10 0)).

Definition table3 : list SingularTemperature.entry :=
  [(0, (2, 1), 3); (2, (-1, 2), 3); (1, (-3, -4), 7)].

Definition asked3 : list Judge.query :=
  [(0, 2, 1); (0, -1, 2); (0, -3, -4); (1, 2, 1); (1, -1, 2)].

Definition reply_exact3 : nat → Z :=
  fun k => if (k =? 2)%nat then 1000 else if (k =? 4)%nat then 1000 else 0.

(** The table of variant C on the three sites. *)
Definition entries3 : list SingularTemperature2.entry :=
  [((2, 1), (3, 1)); ((-3, -4), (-2, -4)); ((-1, 2), (0, 2))].

(** A judge whose replies are all 1000. *)
Definition reply_hot : nat → Z := fun _ => 1000.

(** What a run returns, for the runs that return. *)
Definition returned {A : Type} (d : A) (r : result A) : A :=
  match r with
  | Ok a => a
  | Raise _ => d
  end.

(** * Proofs *)

(** ** The Python primitives *)

Lemma elem_of_range (n i : Z) : i ∈ Py.range n ↔ 0 <= i < n.
Proof. unfold Py.range. rewrite elem_of_seqZ. lia. Qed.

Lemma norm_index_nonneg (len : nat) (i : Z) :
  0 <= i < Z.of_nat len → Py.norm_index len i = Ok (Z.to_nat i).
Proof.
  intros H. unfold Py.norm_index.
  destruct (Z.leb_spec 0 i), (Z.ltb_spec i (Z.of_nat len)); simpl; try lia; done.
Qed.

Lemma getitem_nonneg {A : Type} (l : list A) (i : Z) (a : A) :
  0 <= i → l !! Z.to_nat i = Some a → Py.getitem l i = Ok a.
Proof.
  intros Hi Hl. unfold Py.getitem.
  rewrite norm_index_nonneg; [simpl; by rewrite Hl|].
  apply lookup_lt_Some in Hl. lia.
Qed.

Lemma setitem_nonneg {A : Type} (l : list A) (i : Z) (v : A) :
  0 <= i < Z.of_nat (length l) → Py.setitem l i v = Ok (<[Z.to_nat i := v]> l).
Proof.
  intros Hi. unfold Py.setitem. by rewrite norm_index_nonneg.
Qed.

Lemma modulo_pos (a b : Z) : 0 < b → Py.modulo a b = Ok (a mod b).
Proof.
  intros Hb. unfold Py.modulo. destruct (Z.eqb_spec b 0); [lia | done].
Qed.

(** A loop that adds [f a] to its accumulator for every [a] sums [f]. *)
Lemma for_each_sum (f : Z → Z) (l : list Z) (body : Z → Z → result Z) :
  (∀ a acc, a ∈ l → body a acc = Ok (acc + f a)) →
  ∀ acc, Py.for_each l body acc = Ok (acc + sumZ f l).
Proof.
  induction l as [|a l IH]; intros Hbody acc; simpl.
  - f_equal. lia.
  - rewrite Hbody by left. simpl. rewrite IH.
    + f_equal. lia.
    + intros a' acc' Ha'. apply Hbody. by right.
Qed.

Lemma sumZ_nonneg (f : Z → Z) (l : list Z) :
  (∀ a, a ∈ l → 0 <= f a) → 0 <= sumZ f l.
Proof.
  induction l as [|a l IH]; intros Hf; simpl; [lia|].
  assert (0 <= f a) by (apply Hf; left).
  assert (0 <= sumZ f l) by (apply IH; intros; apply Hf; by right).
  lia.
Qed.

Lemma sumZ_zero (f : Z → Z) (l : list Z) :
  (∀ a, a ∈ l → 0 <= f a) →
  sumZ f l = 0 ↔ ∀ a, a ∈ l → f a = 0.
Proof.
  induction l as [|a l IH]; intros Hf; simpl.
  - split; [|done]. intros _ a Ha. by apply elem_of_nil in Ha.
  - assert (0 <= f a) by (apply Hf; left).
    assert (Hl : ∀ a, a ∈ l → 0 <= f a) by (intros; apply Hf; by right).
    pose proof (sumZ_nonneg f l Hl). specialize (IH Hl). split.
    + intros Hsum a' Ha'. apply elem_of_cons in Ha' as [->|Ha']; [lia|].
      apply IH; [lia | done].
    + intros Hall. rewrite (Hall a) by left.
      rewrite (proj2 IH); [lia|]. intros; apply Hall; by right.
Qed.

(** ** Fields *)

Lemma shape_row {A : Type} (L : Z) (t : list (list A)) (i : Z) :
  shape L t → 0 <= i < L →
  ∃ row, t !! Z.to_nat i = Some row ∧ Z.of_nat (length row) = L.
Proof.
  intros [Hlen Hrows] Hi.
  destruct (lookup_lt_is_Some_2 t (Z.to_nat i)) as [row Hrow]; [lia|].
  exists row. split; [done|].
  rewrite Forall_forall in Hrows. apply Hrows.
  apply list_elem_of_In, list_elem_of_lookup. eauto.
Qed.

Lemma get2_cell (L : Z) (t : field) (i j : Z) :
  shape L t → 0 <= i < L → 0 <= j < L → get2 t i j = Ok (cell t i j).
Proof.
  intros Hs Hi Hj.
  destruct (shape_row L t i Hs Hi) as (row & Hrow & Hlen).
  destruct (lookup_lt_is_Some_2 row (Z.to_nat j)) as [v Hv]; [lia|].
  unfold get2, cell. rewrite (getitem_nonneg t i row) by (done || lia). simpl.
  rewrite (getitem_nonneg row j v) by (done || lia).
  by rewrite Hrow; simpl; rewrite Hv.
Qed.

(** ** The placement cost *)

Lemma calc_placement_cost_eq (L : Z) (t : field) :
  shape L t → OptimizeTemperature._calc_placement_cost L t = Ok (smoothness L t).
Proof.
  intros Hs. unfold OptimizeTemperature._calc_placement_cost, smoothness.
  rewrite (for_each_sum (fun i => sumZ (fun j =>
      (cell t i j - cell t ((i + 1) mod L) j) ^ 2
    + (cell t i j - cell t i ((j + 1) mod L)) ^ 2) (Py.range L))); [done|].
  intros i acc Hi%elem_of_range.
  apply for_each_sum. intros j acc' Hj%elem_of_range.
  assert (0 <= (i + 1) mod L < L) by (apply Z.mod_pos_bound; lia).
  assert (0 <= (j + 1) mod L < L) by (apply Z.mod_pos_bound; lia).
  rewrite !modulo_pos by lia.
  repeat (rewrite (get2_cell L) by done; simpl).
  f_equal. lia.
Qed.

Lemma smoothness_nonneg (L : Z) (t : field) : 0 <= smoothness L t.
Proof.
  unfold smoothness. apply sumZ_nonneg. intros i _.
  apply sumZ_nonneg. intros j _. nia.
Qed.

(** A zero cost says that every cell equals its two neighbours. *)
Lemma smoothness_zero_neighbours (L : Z) (t : field) :
  smoothness L t = 0 ↔
  ∀ i j, 0 <= i < L → 0 <= j < L →
    cell t i j = cell t ((i + 1) mod L) j ∧ cell t i j = cell t i ((j + 1) mod L).
Proof.
  unfold smoothness.
  rewrite sumZ_zero by (intros; apply sumZ_nonneg; intros; nia).
  split.
  - intros Hz i j Hi Hj.
    specialize (Hz i (proj2 (elem_of_range L i) Hi)). simpl in Hz.
    rewrite sumZ_zero in Hz by (intros; nia).
    specialize (Hz j (proj2 (elem_of_range L j) Hj)). simpl in Hz. nia.
  - intros Hn i Hi%elem_of_range. apply sumZ_zero; [intros; nia|].
    intros j Hj%elem_of_range. destruct (Hn i j Hi Hj) as [<- <-]. lia.
Qed.

Lemma neighbours_constant (L : Z) (t : field) :
  (∀ i j, 0 <= i < L → 0 <= j < L →
    cell t i j = cell t ((i + 1) mod L) j ∧ cell t i j = cell t i ((j + 1) mod L)) →
  constant_field L t.
Proof.
  intros Hn.
  assert (Hcol : ∀ i j, 0 <= i < L → 0 <= j → j < L → cell t i j = cell t i 0).
  { intros i j Hi Hj. revert j Hj. apply (natlike_ind (fun j => j < L → _)).
    - done.
    - intros j Hj IH Hlt. rewrite <- IH by lia.
      destruct (Hn i j) as [_ ->]; [lia..|].
      by rewrite Z.mod_small by lia. }
  assert (Hrow : ∀ i, 0 <= i → i < L → cell t i 0 = cell t 0 0).
  { apply (natlike_ind (fun i => i < L → _)).
    - done.
    - intros i Hi IH Hlt. rewrite <- IH by lia.
      destruct (Hn i 0) as [-> _]; [lia..|].
      by rewrite Z.mod_small by lia. }
  intros i j i' j' Hi Hj Hi' Hj'.
  rewrite (Hcol i j), (Hcol i' j'), (Hrow i), (Hrow i') by lia. done.
Qed.

(** C5: on an [L x L] field [_calc_placement_cost] returns the sum, over all
    cells, of the squared difference with the toroidal down neighbour and the
    squared difference with the toroidal right neighbour; the cost is not
    negative, and it is 0 exactly when the field is constant. *)
Theorem calc_placement_cost_spec (L : Z) (t : field) :
  shape L t →
  OptimizeTemperature._calc_placement_cost L t = Ok (smoothness L t)
  ∧ 0 <= smoothness L t
  ∧ (smoothness L t = 0 ↔ constant_field L t).
Proof.
  intros Hs. split; [by apply calc_placement_cost_eq|].
  split; [apply smoothness_nonneg|].
  rewrite smoothness_zero_neighbours. split; [apply neighbours_constant|].
  intros Hc i j Hi Hj.
  assert (0 <= (i + 1) mod L < L) by (apply Z.mod_pos_bound; lia).
  assert (0 <= (j + 1) mod L < L) by (apply Z.mod_pos_bound; lia).
  split; apply Hc; lia.
Qed.

(** ** Loops: what every round keeps, the loop keeps *)

Lemma for_each_ok {A X : Type} (P : X → Prop) (l : list A)
  (body : A → X → result X) :
  (∀ a x x', a ∈ l → P x → body a x = Ok x' → P x') →
  ∀ x x', P x → Py.for_each l body x = Ok x' → P x'.
Proof.
  induction l as [|a l IH]; intros Hbody x x' HP; simpl.
  - by intros [= <-].
  - destruct (body a x) as [x1|] eqn:E1; simpl; [|done].
    apply IH; [|by eapply Hbody; [left|..]].
    intros a' y y' Ha'. apply Hbody. by right.
Qed.

Lemma for_each_total {A X : Type} (P : X → Prop) (l : list A)
  (body : A → X → result X) :
  (∀ a x, a ∈ l → P x → ∃ x', body a x = Ok x' ∧ P x') →
  ∀ x, P x → ∃ x', Py.for_each l body x = Ok x' ∧ P x'.
Proof.
  induction l as [|a l IH]; intros Hbody x HP; simpl.
  - eauto.
  - destruct (Hbody a x) as (x1 & -> & HP1); [left|done|]. simpl.
    apply IH; [|done]. intros a' y Ha'. apply Hbody. by right.
Qed.

Lemma sfor_each_ok {St A X : Type} (P : X → Prop) (l : list A)
  (body : A → X → state St X) :
  (∀ a x s x' s', a ∈ l → P x → body a x s = Ok (x', s') → P x') →
  ∀ x s x' s', P x → Py.sfor_each l body x s = Ok (x', s') → P x'.
Proof.
  induction l as [|a l IH]; intros Hbody x s x' s' HP; simpl.
  - by intros [= <- <-].
  - unfold sbind. destruct (body a x s) as [[x1 s1]|] eqn:E1; [|done].
    apply IH; [|by eapply Hbody; [left|..]].
    intros a' y t y' t' Ha'. apply Hbody. by right.
Qed.

Lemma sfor_each_total {St A X : Type} (P : X → Prop) (l : list A)
  (body : A → X → state St X) :
  (∀ a x s, a ∈ l → P x → ∃ x' s', body a x s = Ok (x', s') ∧ P x') →
  ∀ x s, P x → ∃ x' s', Py.sfor_each l body x s = Ok (x', s') ∧ P x'.
Proof.
  induction l as [|a l IH]; intros Hbody x s HP; simpl.
  - unfold sret. eauto.
  - unfold sbind. destruct (Hbody a x s) as (x1 & s1 & -> & HP1); [left|done|].
    apply IH; [|done]. intros a' y t Ha'. apply Hbody. by right.
Qed.

Lemma repeatM_ok {St X : Type} (P : X → Prop) (body : X → state St X) (n : nat) :
  (∀ x s x' s', P x → body x s = Ok (x', s') → P x') →
  ∀ x s x' s', P x → Py.repeatM n body x s = Ok (x', s') → P x'.
Proof.
  intros Hbody. induction n as [|n IH]; intros x s x' s' HP; simpl.
  - by intros [= <- <-].
  - unfold sbind. destruct (body x s) as [[x1 s1]|] eqn:E1; [|done].
    apply IH. by eapply Hbody.
Qed.

Lemma repeatM_total {St X : Type} (P : X → Prop) (body : X → state St X) (n : nat) :
  (∀ x s, P x → ∃ x' s', body x s = Ok (x', s') ∧ P x') →
  ∀ x s, P x → ∃ x' s', Py.repeatM n body x s = Ok (x', s') ∧ P x'.
Proof.
  intros Hbody. induction n as [|n IH]; intros x s HP; simpl.
  - unfold sret. eauto.
  - unfold sbind. destruct (Hbody x s HP) as (x1 & s1 & -> & HP1). by apply IH.
Qed.

(** ** Writing one cell *)

Lemma norm_index_lt (len : nat) (i : Z) (n : nat) :
  Py.norm_index len i = Ok n → (n < len)%nat.
Proof.
  unfold Py.norm_index.
  destruct (Z.leb_spec 0 i), (Z.ltb_spec i (Z.of_nat len)); simpl;
    try (intros [= <-]; lia);
    destruct (Z.leb_spec (- Z.of_nat len) i), (Z.ltb_spec i 0); simpl;
    try done; intros [= <-]; lia.
Qed.

Lemma norm_index_nonneg_inv (len : nat) (i : Z) (n : nat) :
  0 <= i → Py.norm_index len i = Ok n → n = Z.to_nat i ∧ i < Z.of_nat len.
Proof.
  intros Hi. unfold Py.norm_index.
  destruct (Z.leb_spec 0 i); [|lia].
  destruct (Z.ltb_spec i (Z.of_nat len)); simpl; [by intros [= <-]|].
  destruct (Z.ltb_spec i 0); [lia|]. by rewrite andb_false_r.
Qed.

Lemma set2_ok {A : Type} (t : list (list A)) (i j : Z) (v : A) (t' : list (list A)) :
  set2 t i j v = Ok t' →
  ∃ ni nj row,
    Py.norm_index (length t) i = Ok ni ∧ t !! ni = Some row ∧
    Py.norm_index (length row) j = Ok nj ∧
    t' = <[ni := <[nj := v]> row]> t.
Proof.
  unfold set2, Py.getitem, Py.setitem.
  destruct (Py.norm_index (length t) i) as [ni|] eqn:Ei; simpl; [|done].
  destruct (t !! ni) as [row|] eqn:Erow; simpl; [|done].
  destruct (Py.norm_index (length row) j) as [nj|] eqn:Ej; simpl; [|done].
  intros [= <-]. by exists ni, nj, row.
Qed.

Lemma set2_in_grid {A : Type} (L : Z) (t : list (list A)) (i j : Z) (v : A) :
  shape L t → 0 <= i < L → 0 <= j < L →
  ∃ t', set2 t i j v = Ok t' ∧ shape L t'.
Proof.
  intros Hs Hi Hj. destruct (shape_row L t i Hs Hi) as (row & Hrow & Hlen).
  destruct Hs as [Hl Hrows].
  exists (<[Z.to_nat i := <[Z.to_nat j := v]> row]> t). split.
  - unfold set2. rewrite (getitem_nonneg t i row) by (done || lia). simpl.
    rewrite setitem_nonneg by lia. simpl. by rewrite setitem_nonneg by lia.
  - split; [by rewrite length_insert|].
    apply Forall_insert; [done|]. by rewrite length_insert.
Qed.

Lemma set2_shape {A : Type} (L : Z) (t : list (list A)) (i j : Z) (v : A)
  (t' : list (list A)) :
  shape L t → set2 t i j v = Ok t' → shape L t'.
Proof.
  intros [Hl Hrows] (ni & nj & row & _ & Hrow & _ & ->)%set2_ok.
  split; [by rewrite length_insert|].
  apply Forall_insert; [done|]. rewrite length_insert.
  by apply (Forall_lookup_1 _ _ _ _ Hrows Hrow).
Qed.

Lemma set2_within (hi : Z) (t : field) (i j v : Z) (t' : field) :
  cells_within hi t → 0 <= v <= hi → set2 t i j v = Ok t' → cells_within hi t'.
Proof.
  intros Ht Hv (ni & nj & row & _ & Hrow & _ & ->)%set2_ok.
  apply Forall_insert; [done|]. apply Forall_insert; [|done].
  by apply (Forall_lookup_1 _ _ _ _ Ht Hrow).
Qed.

Lemma set2_in_range (t : field) (i j v : Z) (t' : field) :
  in_range t → 0 <= v <= 1000 → set2 t i j v = Ok t' → in_range t'.
Proof. apply set2_within. Qed.

Lemma cell_within (L hi : Z) (t : field) (i j : Z) :
  shape L t → cells_within hi t → 0 <= i < L → 0 <= j < L →
  0 <= cell t i j <= hi.
Proof.
  intros Hs Ht Hi Hj. destruct (shape_row L t i Hs Hi) as (row & Hrow & Hlen).
  destruct (lookup_lt_is_Some_2 row (Z.to_nat j)) as [v Hv]; [lia|].
  unfold cell. rewrite Hrow. simpl. rewrite Hv. simpl.
  pose proof (Forall_lookup_1 _ _ _ _ Ht Hrow) as Hr.
  by apply (Forall_lookup_1 _ _ _ _ Hr Hv).
Qed.

Lemma cells_within_mono (hi hi' : Z) (t : field) :
  hi <= hi' → cells_within hi t → cells_within hi' t.
Proof.
  intros Hle. apply Forall_impl. intros row. apply Forall_impl. intros v. lia.
Qed.

Lemma square_matrix_shape {A : Type} (n : Z) (v : A) :
  0 <= n → shape n (square_matrix n v).
Proof.
  intros HL. unfold square_matrix, Py.range. split.
  - rewrite length_fmap, length_seqZ. lia.
  - apply Forall_fmap, Forall_forall. intros i _. simpl.
    rewrite length_replicate. lia.
Qed.

Lemma get2_total {A : Type} (L : Z) (t : list (list A)) (i j : Z) :
  shape L t → 0 <= i < L → 0 <= j < L → ∃ v, get2 t i j = Ok v.
Proof.
  intros Hs Hi Hj.
  destruct (shape_row L t i Hs Hi) as (row & Hrow & Hlen).
  destruct (lookup_lt_is_Some_2 row (Z.to_nat j)) as [v Hv]; [lia|].
  exists v. unfold get2. rewrite (getitem_nonneg t i row) by (done || lia). simpl.
  by rewrite (getitem_nonneg row j v) by (done || lia).
Qed.

Lemma zero_field_shape (L : Z) : 0 <= L → shape L (zero_field L).
Proof.
  intros HL. unfold zero_field, square_matrix, Py.range. split.
  - rewrite length_fmap, length_seqZ. lia.
  - apply Forall_fmap, Forall_forall. intros i _. simpl.
    rewrite length_replicate. lia.
Qed.

Lemma zero_field_within (L hi : Z) : 0 <= hi → cells_within hi (zero_field L).
Proof.
  intros Hhi. unfold zero_field, square_matrix.
  apply Forall_fmap, Forall_forall. intros i _. simpl.
  apply Forall_replicate. lia.
Qed.

Lemma set2_cell_same (t : field) (i j v : Z) (t' : field) :
  set2 t i j v = Ok t' → 0 <= i → 0 <= j → cell t' i j = v.
Proof.
  intros (ni & nj & row & Hi & Hrow & Hj & ->)%set2_ok Hi0 Hj0.
  pose proof (norm_index_lt _ _ _ Hi). pose proof (norm_index_lt _ _ _ Hj).
  apply norm_index_nonneg_inv in Hi as [-> _]; [|done].
  apply norm_index_nonneg_inv in Hj as [-> _]; [|done].
  unfold cell. rewrite list_lookup_insert_eq by done. simpl.
  by rewrite list_lookup_insert_eq by done.
Qed.

Lemma set2_cell_other (t : field) (i j v : Z) (t' : field) (i' j' : Z) :
  set2 t i j v = Ok t' → 0 <= i → 0 <= j → 0 <= i' → 0 <= j' →
  (i', j') ≠ (i, j) → cell t' i' j' = cell t i' j'.
Proof.
  intros (ni & nj & row & Hi & Hrow & Hj & ->)%set2_ok Hi0 Hj0 Hi'0 Hj'0 Hne.
  pose proof (norm_index_lt _ _ _ Hi).
  apply norm_index_nonneg_inv in Hi as [-> _]; [|done].
  apply norm_index_nonneg_inv in Hj as [-> _]; [|done].
  unfold cell. destruct (decide (Z.to_nat i' = Z.to_nat i)) as [Heq|Hni].
  - rewrite Heq, list_lookup_insert_eq, Hrow by done. simpl.
    rewrite list_lookup_insert_ne; [done|].
    intros Hj. apply Hne. f_equal; lia.
  - by rewrite list_lookup_insert_ne.
Qed.

(** ** The optimizer *)

Lemma elem_of_permit_pos (L : Z) (prohibit_pos : list (Z * Z)) (i j : Z) :
  (i, j) ∈ OptimizeTemperature.permit_pos L prohibit_pos ↔
  0 <= i < L ∧ 0 <= j < L ∧ (i, j) ∉ prohibit_pos.
Proof.
  unfold OptimizeTemperature.permit_pos.
  rewrite list_elem_of_filter, list_elem_of_bind. split.
  - intros (Hn & i' & (j' & Hin & Hj%elem_of_range)%list_elem_of_bind & Hi%elem_of_range).
    apply list_elem_of_singleton in Hin as [= -> ->]. done.
  - intros (Hi & Hj & Hn). split; [done|]. exists i. rewrite elem_of_range.
    split; [|done]. apply list_elem_of_bind. exists j.
    rewrite elem_of_range, list_elem_of_singleton. done.
Qed.

(** A perturbation writes one value of [0..1000] into one permitted cell. *)
Lemma perturb_ok (E : Random.entropy) (permit : list (Z * Z))
  (rand : Z) (t : field) (k : nat) (t' : field) (k' : nat) :
  OptimizeTemperature.perturb E permit rand t k = Ok (t', k') →
  ∃ i j v, (i, j) ∈ permit ∧ 0 <= v <= 1000 ∧ set2 t i j v = Ok t'.
Proof.
  unfold OptimizeTemperature.perturb, sbind, Random.choice.
  destruct (permit !! _) as [[i j]|] eqn:Ep; [|done].
  unfold lift at 1. destruct (get2 t i j) as [old|] eqn:Eold; [|done].
  unfold Random.randint. destruct (rand <? - rand); [done|].
  unfold lift at 1.
  destruct (set2 t i j _) as [t1|] eqn:E1; [|done].
  unfold lift at 1. destruct (get2 t1 i j) as [v|] eqn:Ev; [|done].
  unfold lift. destruct (set2 t1 i j _) as [t2|] eqn:E2; [|done].
  intros [= <- <-]. exists i, j, (Z.max 0 (Z.min 1000 v)).
  split; [by eapply list_elem_of_lookup_2|]. split; [lia|].
  apply set2_ok in E1 as (ni & nj & row & Hi & Hrow & Hj & ->).
  pose proof (norm_index_lt _ _ _ Hi). pose proof (norm_index_lt _ _ _ Hj).
  revert E2. unfold set2, Py.getitem, Py.setitem.
  rewrite !length_insert, Hi. simpl.
  rewrite list_lookup_insert_eq, Hrow by done. simpl.
  rewrite length_insert, Hj. simpl. intros [= <-].
  by rewrite !list_insert_insert_eq.
Qed.

Lemma anneal_stable (E : Random.entropy) (L : Z) (permit : list (Z * Z))
  (P : field → Prop) (rand : Z) (best : field * Z) (k : nat)
  (best' : field * Z) (k' : nat) :
  stable permit P → P (fst best) →
  OptimizeTemperature.anneal E L permit rand best k = Ok (best', k') →
  P (fst best').
Proof.
  intros HP Hbest. destruct best as [t c]. simpl in Hbest.
  unfold OptimizeTemperature.anneal, sbind.
  destruct (Random.randint E 1 20 k) as [[n k1]|]; [|done].
  destruct (Py.repeatM _ _ t k1) as [[new k2]|] eqn:Erep; [|done].
  assert (P new) as Hnew.
  { revert Erep. apply (repeatM_ok P); [|done].
    intros x s x' s' Hx (i & j & v & Hin & Hv & Hset)%perturb_ok. by eapply HP. }
  unfold lift.
  destruct (OptimizeTemperature._calc_placement_cost L new) as [c'|]; [|done].
  destruct (c' - c <? 0); [by intros [= <- <-]|].
  unfold Random.metropolis.
  destruct (Random.coin E k2); by intros [= <- <-].
Qed.

(** What every perturbation keeps, [optimize] keeps. *)
Lemma optimize_stable (E : Random.entropy) (L : Z) (P : field → Prop)
  (t : field) (prohibit_pos : list (Z * Z)) (rand : Z) (runs levels : nat)
  (k : nat) (out : field) (k' : nat) :
  stable (OptimizeTemperature.permit_pos L prohibit_pos) P → P t →
  OptimizeTemperature.optimize E L t prohibit_pos rand runs levels k = Ok (out, k') →
  P out.
Proof.
  intros HP Ht. unfold OptimizeTemperature.optimize, sbind, lift.
  destruct (OptimizeTemperature._calc_placement_cost L t) as [c|]; [|done].
  destruct (_ =? _)%nat; [by intros [= <- <-]|].
  destruct (Py.repeatM runs _ _ k) as [[best k1]|] eqn:Eruns; [|done].
  intros [= <- <-]. revert Eruns.
  apply (repeatM_ok (fun best => P (fst best))); [|done].
  intros x s x' s' Hx. apply (repeatM_ok (fun best => P (fst best))); [|done].
  intros y u y' u' Hy. by apply anneal_stable.
Qed.

Lemma stable_in_range (permit : list (Z * Z)) : stable permit in_range.
Proof. intros t i j v t' Ht _ Hv. by apply set2_in_range. Qed.

Lemma stable_shape (permit : list (Z * Z)) (L : Z) : stable permit (shape L).
Proof. intros t i j v t' Ht _ _. by apply set2_shape. Qed.

(** The cells of [prohibit_pos] keep the value they have in [t0]. *)
Lemma stable_frame (L : Z) (prohibit_pos : list (Z * Z)) (t0 : field) :
  stable (OptimizeTemperature.permit_pos L prohibit_pos)
    (fun t => ∀ i j, (i, j) ∈ prohibit_pos → 0 <= i < L → 0 <= j < L →
                cell t i j = cell t0 i j).
Proof.
  intros t i j v t' Ht (Hi & Hj & Hnot)%elem_of_permit_pos _ Hset i' j' Hin Hi' Hj'.
  rewrite <- (Ht i' j') by done.
  apply (set2_cell_other t i j v); [done|lia..|].
  intros [= -> ->]. done.
Qed.

(** *** The optimizer returns *)

Lemma perturb_total (E : Random.entropy) (L : Z) (prohibit_pos : list (Z * Z))
  (rand : Z) (t : field) (k : nat) :
  shape L t → OptimizeTemperature.permit_pos L prohibit_pos ≠ [] → 0 <= rand →
  ∃ t' k', OptimizeTemperature.perturb E
             (OptimizeTemperature.permit_pos L prohibit_pos) rand t k = Ok (t', k')
           ∧ shape L t'.
Proof.
  intros Hs Hne Hrand.
  set (permit := OptimizeTemperature.permit_pos L prohibit_pos) in *.
  unfold OptimizeTemperature.perturb, sbind, Random.choice.
  destruct (lookup_lt_is_Some_2 permit (Random.raw E k mod length permit)%nat)
    as [[i j] Hp].
  { apply Nat.mod_upper_bound. destruct permit; [done|simpl; lia]. }
  rewrite Hp.
  assert ((i, j) ∈ permit) as (Hi & Hj & _)%elem_of_permit_pos
    by (by eapply list_elem_of_lookup_2).
  rewrite (get2_cell L) by done. simpl.
  unfold Random.randint. destruct (Z.ltb_spec rand (- rand)); [lia|].
  destruct (set2_in_grid L t i j
              (cell t i j + (- rand + Z.of_nat (Random.raw E (S k)) mod (rand - - rand + 1)))
              Hs Hi Hj) as (t1 & -> & Hs1).
  simpl. rewrite (get2_cell L) by done. simpl.
  destruct (set2_in_grid L t1 i j (Z.max 0 (Z.min 1000 (cell t1 i j))) Hs1 Hi Hj)
    as (t2 & -> & Hs2).
  simpl. eauto.
Qed.

Lemma anneal_total (E : Random.entropy) (L : Z) (prohibit_pos : list (Z * Z))
  (rand : Z) (best : field * Z) (k : nat) :
  shape L (fst best) → OptimizeTemperature.permit_pos L prohibit_pos ≠ [] →
  0 <= rand →
  ∃ best' k', OptimizeTemperature.anneal E L
                (OptimizeTemperature.permit_pos L prohibit_pos) rand best k
              = Ok (best', k')
              ∧ shape L (fst best').
Proof.
  intros Hs Hne Hrand. destruct best as [t c]. simpl in Hs.
  unfold OptimizeTemperature.anneal, sbind.
  unfold Random.randint at 1. simpl.
  change (20 <? 1) with false. cbv iota.
  destruct (repeatM_total (shape L)
              (OptimizeTemperature.perturb E
                 (OptimizeTemperature.permit_pos L prohibit_pos) rand)
              (Z.to_nat (1 + Z.of_nat (Random.raw E k) mod (20 - 1 + 1)))
              (fun x s Hx => perturb_total E L prohibit_pos rand x s Hx Hne Hrand)
              t (S k) Hs) as (new & k2 & -> & Hnew).
  unfold lift. rewrite calc_placement_cost_eq by done.
  destruct (_ <? 0); [unfold sret; eauto|].
  unfold Random.metropolis. destruct (Random.coin E k2); unfold sret; eauto.
Qed.

Lemma optimize_total (E : Random.entropy) (L : Z) (t : field)
  (prohibit_pos : list (Z * Z)) (rand : Z) (runs levels : nat) (k : nat) :
  shape L t → 0 <= rand →
  ∃ out k', OptimizeTemperature.optimize E L t prohibit_pos rand runs levels k
            = Ok (out, k')
            ∧ shape L out.
Proof.
  intros Hs Hrand. unfold OptimizeTemperature.optimize, sbind, lift.
  rewrite calc_placement_cost_eq by done.
  destruct (OptimizeTemperature.permit_pos L prohibit_pos) as [|p permit] eqn:Ep;
    [simpl; unfold sret; eauto|].
  rewrite <- Ep. replace (length _ =? 0)%nat with false by (by rewrite Ep).
  assert (OptimizeTemperature.permit_pos L prohibit_pos ≠ []) as Hne
    by (by rewrite Ep).
  destruct (repeatM_total (fun best : field * Z => shape L (fst best))
              (Py.repeatM levels
                 (OptimizeTemperature.anneal E L
                    (OptimizeTemperature.permit_pos L prohibit_pos) rand)) runs)
    with (x := (t, smoothness L t)) (s := k) as (best & k1 & -> & Hbest); [|done|].
  - intros x s Hx. apply (repeatM_total (fun best : field * Z => shape L (fst best)));
      [|done].
    intros y u Hy. by apply anneal_total.
  - unfold sret. eauto.
Qed.

(** ** C7 and C8: the frame of the optimizer *)

(** C7: whatever the random draws, the clock and the schedule are, a field
    that [optimize] returns has, in every cell of [prohibit_pos], the value
    of the initial field: a perturbation only writes cells of [permit_pos],
    none of which is prohibited.  On an [L x L] field with a perturbation
    magnitude that is not negative, [optimize] does return. *)
Theorem optimize_keeps_prohibited (E : Random.entropy) (L : Z) (t : field)
  (prohibit_pos : list (Z * Z)) (rand : Z) (runs levels : nat) (k : nat) :
  shape L t →
  (∀ out k',
     OptimizeTemperature.optimize E L t prohibit_pos rand runs levels k = Ok (out, k') →
     ∀ i j, (i, j) ∈ prohibit_pos → 0 <= i < L → 0 <= j < L →
       cell out i j = cell t i j)
  ∧ (∀ new k1 new' k1',
       OptimizeTemperature.perturb E (OptimizeTemperature.permit_pos L prohibit_pos)
         rand new k1 = Ok (new', k1') →
       ∃ i j v, ((i, j) ∉ prohibit_pos) ∧ set2 new i j v = Ok new')
  ∧ (0 <= rand →
     ∃ out k',
       OptimizeTemperature.optimize E L t prohibit_pos rand runs levels k = Ok (out, k')).
Proof.
  intros Hs. split; [|split].
  - intros out k' Hopt.
    by apply (optimize_stable E L _ t prohibit_pos rand runs levels k out k'
                (stable_frame L prohibit_pos t)).
  - intros new k1 new' k1' (i & j & v & Hin & _ & Hset)%perturb_ok.
    apply elem_of_permit_pos in Hin as (_ & _ & Hnot). eauto.
  - intros Hrand.
    destruct (optimize_total E L t prohibit_pos rand runs levels k Hs Hrand)
      as (out & k' & Hopt & _). eauto.
Qed.

Lemma permit_pos_nil (L : Z) (prohibit_pos : list (Z * Z)) :
  (∀ i j, 0 <= i < L → 0 <= j < L → (i, j) ∈ prohibit_pos) →
  OptimizeTemperature.permit_pos L prohibit_pos = [].
Proof.
  intros Hall.
  destruct (OptimizeTemperature.permit_pos L prohibit_pos) as [|[i j] l] eqn:Ep;
    [done|].
  assert ((i, j) ∈ OptimizeTemperature.permit_pos L prohibit_pos)
    as (Hi & Hj & Hnot)%elem_of_permit_pos by (rewrite Ep; left).
  destruct Hnot. by apply Hall.
Qed.

Lemma optimize_no_permit (E : Random.entropy) (L : Z) (t : field)
  (prohibit_pos : list (Z * Z)) (rand : Z) (runs levels : nat) (k : nat) :
  shape L t → OptimizeTemperature.permit_pos L prohibit_pos = [] →
  OptimizeTemperature.optimize E L t prohibit_pos rand runs levels k = Ok (t, k).
Proof.
  intros Hs Hnil. unfold OptimizeTemperature.optimize, sbind, lift.
  rewrite calc_placement_cost_eq by done. by rewrite Hnil.
Qed.

(** C8: when every cell of the grid is prohibited, [optimize] returns the
    input field itself, whatever the clock and the schedule allow, without
    raising and without a single call to the random module. *)
Theorem optimize_nothing_permitted (E : Random.entropy) (L : Z) (t : field)
  (prohibit_pos : list (Z * Z)) (rand : Z) (runs levels : nat) (k : nat) :
  shape L t →
  (∀ i j, 0 <= i < L → 0 <= j < L → (i, j) ∈ prohibit_pos) →
  OptimizeTemperature.permit_pos L prohibit_pos = []
  ∧ OptimizeTemperature.optimize E L t prohibit_pos rand runs levels k = Ok (t, k).
Proof.
  intros Hs Hall. pose proof (permit_pos_nil L prohibit_pos Hall) as Hnil.
  split; [done|]. by apply optimize_no_permit.
Qed.

(** ** The designers *)

Lemma grid_set2 (L hi : Z) (t : field) (i j v : Z) :
  grid L hi t → 0 <= i < L → 0 <= j < L → 0 <= v <= hi →
  ∃ t', set2 t i j v = Ok t' ∧ grid L hi t'.
Proof.
  intros [Hs Hw] Hi Hj Hv.
  destruct (set2_in_grid L t i j v Hs Hi Hj) as (t' & Hset & Hs').
  exists t'. split; [done|]. split; [done|]. by eapply set2_within.
Qed.

Lemma fill_zero_total (L hi avg : Z) (t : field) :
  grid L hi t → 0 <= avg <= hi →
  ∃ t', fill_zero L avg t = Ok t' ∧ grid L hi t'.
Proof.
  intros Ht Havg. unfold fill_zero.
  apply (for_each_total (grid L hi)); [|done].
  intros i t1 Hi%elem_of_range Ht1.
  apply (for_each_total (grid L hi)); [|done].
  intros j t2 Hj%elem_of_range Ht2.
  rewrite (get2_cell L) by (done || apply Ht2). simpl.
  destruct (_ =? 0); [by apply grid_set2 | eauto].
Qed.

Lemma sorted_Permutation {A : Type} (key : A → Z) (l : list A) :
  Py.sorted key l ≡ₚ l.
Proof.
  unfold Py.sorted. induction l as [|a l IH]; simpl; [done|].
  rewrite <- IH at 2. generalize (foldr (Py.insert_by key) [] l). clear.
  intros l. induction l as [|b l IH]; simpl; [done|].
  destruct (key a <=? key b); [done|]. rewrite IH. apply Permutation_swap.
Qed.

Lemma ring_total (L hi : Z) (prohibit_pos : list (Z * Z)) (pos : Pos.t)
  (offsets : list (Z * Z)) (level : Z) (t : field) :
  0 < L → grid L hi t → 0 <= level <= hi →
  ∃ t', OnePointTemperature.ring L prohibit_pos pos offsets level t = Ok t'
        ∧ grid L hi t'.
Proof.
  intros HL Ht Hlevel. unfold OnePointTemperature.ring.
  apply (for_each_total (grid L hi)); [|done].
  intros [dy dx] t1 _ Ht1. rewrite !modulo_pos by done. simpl.
  assert (0 <= (Pos.y pos + dy) mod L < L) by (by apply Z.mod_pos_bound).
  assert (0 <= (Pos.x pos + dx) mod L < L) by (by apply Z.mod_pos_bound).
  rewrite (get2_cell L) by (done || apply Ht1). simpl.
  pose proof (cell_within L hi t1 _ _ (proj1 Ht1) (proj2 Ht1) H H0) as Hc.
  destruct (_ =? 0); simpl; [by apply grid_set2|].
  destruct (negb _); [|eauto]. apply grid_set2; try done.
  split; [apply Z.div_pos; lia|]. apply Z.div_le_upper_bound; lia.
Qed.

Lemma landing_in_grid (L N : Z) (landing_pos : list Pos.t) (pos : Pos.t) :
  episode L N landing_pos → pos ∈ landing_pos →
  0 <= Pos.y pos < L ∧ 0 <= Pos.x pos < L.
Proof.
  intros (_ & _ & _ & Hall) Hin. rewrite Forall_forall in Hall.
  by apply Hall, list_elem_of_In.
Qed.

Lemma one_point_place_total (L N : Z) (landing_pos : list Pos.t) (avg i : Z)
  (t : field) :
  episode L N landing_pos → 0 <= avg <= 2 * N → 0 <= i < N → grid L (2 * N) t →
  ∃ t', OnePointTemperature.place L (OnePointTemperature.prohibit_pos landing_pos)
          avg (OnePointTemperature.center_distance L landing_pos) i t = Ok t'
        ∧ grid L (2 * N) t'.
Proof.
  intros Hep Havg Hi Ht. pose proof Hep as (HL & HN & Hlen & _).
  unfold OnePointTemperature.place.
  assert (length (OnePointTemperature.center_distance L landing_pos)
          = length landing_pos) as Hcd.
  { unfold OnePointTemperature.center_distance.
    by rewrite sorted_Permutation, length_fmap. }
  destruct (lookup_lt_is_Some_2
              (OnePointTemperature.center_distance L landing_pos) (Z.to_nat i))
    as [[pos d] Hentry]; [lia|].
  rewrite (getitem_nonneg _ i (pos, d)) by (done || lia). simpl.
  assert (pos ∈ landing_pos) as Hpos.
  { apply list_elem_of_lookup_2 in Hentry.
    unfold OnePointTemperature.center_distance in Hentry.
    rewrite sorted_Permutation in Hentry.
    apply list_elem_of_fmap in Hentry as (p & [= -> _] & Hp). done. }
  destruct (landing_in_grid L N landing_pos pos Hep Hpos) as [Hy Hx].
  unfold OnePointTemperature.interval.
  destruct (grid_set2 L (2 * N) t (Pos.y pos) (Pos.x pos) (2 * (i + 1)))
    as (t1 & -> & Ht1); [done..|lia|]. simpl.
  destruct (ring_total L (2 * N) (OnePointTemperature.prohibit_pos landing_pos)
              pos OnePointTemperature.around ((3 * (2 * (i + 1)) + avg) / 4) t1)
    as (t2 & -> & Ht2); [done..| |].
  { split; [apply Z.div_pos; lia|]. apply Z.div_le_upper_bound; lia. }
  simpl.
  destruct (ring_total L (2 * N) (OnePointTemperature.prohibit_pos landing_pos)
              pos OnePointTemperature.around2 ((2 * (i + 1) + avg) / 2) t2)
    as (t3 & -> & Ht3); [done..| |].
  { split; [apply Z.div_pos; lia|]. apply Z.div_le_upper_bound; lia. }
  simpl. apply ring_total; [done..|].
  split; [apply Z.div_pos; lia|]. apply Z.div_le_upper_bound; lia.
Qed.

(** Variant A up to the optimizer: the field exists, and its cells hold
    values of [0..2N]. *)
Lemma one_point_design_total (L N : Z) (landing_pos : list Pos.t) :
  episode L N landing_pos →
  ∃ t, OnePointTemperature.design L N landing_pos = Ok t ∧ grid L (2 * N) t.
Proof.
  intros Hep. pose proof Hep as (HL & HN & Hlen & _).
  unfold OnePointTemperature.design, Py.floordiv, OnePointTemperature.interval.
  simpl. destruct (Z.eqb_spec N 0); [lia|]. simpl.
  assert ((2 + N * 2) * N / 2 / N = N + 1) as ->.
  { replace ((2 + N * 2) * N) with ((N + 1) * N * 2) by lia.
    rewrite Z.div_mul by lia. by rewrite Z.div_mul by lia. }
  destruct (for_each_total (grid L (2 * N)) (Py.range N)
              (OnePointTemperature.place L
                 (OnePointTemperature.prohibit_pos landing_pos) (N + 1)
                 (OnePointTemperature.center_distance L landing_pos)))
    with (x := zero_field L) as (t & -> & Ht).
  - intros i t Hi%elem_of_range Ht.
    apply (one_point_place_total L N); (done || lia).
  - split; [apply zero_field_shape | apply zero_field_within]; lia.
  - simpl. apply fill_zero_total; [done | lia].
Qed.

(** *** Variants B and C *)

Lemma sum_bounds (L : Z) (l : list Z) :
  Forall (fun v => 0 <= v < L) l →
  0 <= foldr Z.add 0 l <= Z.of_nat (length l) * (L - 1).
Proof.
  induction 1 as [|v l Hv _ IH]; simpl; lia.
Qed.

Lemma centroid_total (L N : Z) (landing_pos : list Pos.t) :
  episode L N landing_pos →
  ∃ y x, centroid N landing_pos = Ok (y, x) ∧ 0 <= y < L ∧ 0 <= x < L.
Proof.
  intros (HL & HN & Hlen & Hall). unfold centroid, Py.floordiv.
  destruct (Z.eqb_spec N 0); [lia|]. simpl.
  assert (∀ f : Pos.t → Z,
            (∀ pos, 0 <= Pos.y pos < L ∧ 0 <= Pos.x pos < L → 0 <= f pos < L) →
            0 <= foldr Z.add 0 (f <$> landing_pos) / N < L) as Hdiv.
  { intros f Hf.
    destruct (sum_bounds L (f <$> landing_pos)) as [H0 H1].
    { apply Forall_fmap. revert Hall. apply Forall_impl. intros p. apply Hf. }
    rewrite length_fmap, Hlen in H1.
    split; [apply Z.div_pos; lia|].
    apply Z.div_lt_upper_bound; nia. }
  eexists _, _. split; [done|]. split; apply Hdiv; tauto.
Qed.

Lemma fill_slots_app {A : Type} (g : Z * Pos.t → A) (l : list Pos.t) :
  ∀ (m : Z) (pre post : list (option A)),
    Z.of_nat (length pre) = m → (length l ≤ length post)%nat →
    Py.for_each (zip (seqZ m (Z.of_nat (length l))) l)
      (fun e distance => Py.setitem distance (fst e) (Some (g e))) (pre ++ post)
    = Ok (pre ++ (Some <$> (g <$> zip (seqZ m (Z.of_nat (length l))) l))
              ++ drop (length l) post).
Proof.
  induction l as [|a l IH]; intros m pre post Hm Hlen.
  - simpl. by rewrite drop_0.
  - destruct post as [|p post]; [simpl in Hlen; lia|].
    rewrite seqZ_cons by (simpl; lia).
    replace (Z.pred (Z.of_nat (length (a :: l)))) with (Z.of_nat (length l))
      by (simpl; lia).
    simpl. rewrite setitem_nonneg by (rewrite length_app; simpl; lia). simpl.
    replace (Z.to_nat m) with (length pre + 0)%nat by lia.
    rewrite insert_app_r. simpl.
    rewrite (cons_middle _ pre post), app_assoc.
    rewrite (IH (Z.succ m) (pre ++ [Some (g (m, a))]) post).
    + by rewrite <- app_assoc.
    + rewrite length_app. simpl. lia.
    + simpl in Hlen. lia.
Qed.

Lemma fill_slots_total {A : Type} (N : Z) (landing_pos : list Pos.t)
  (f : Z → Pos.t → A) :
  Z.of_nat (length landing_pos) = N →
  fill_slots N landing_pos f
  = Ok (Some <$> ((fun e => f (fst e) (snd e)) <$> Py.enumerate landing_pos)).
Proof.
  intros HN. unfold fill_slots, Py.enumerate.
  change (replicate (Z.to_nat N) None)
    with ([] ++ replicate (Z.to_nat N) (@None A)).
  rewrite (fill_slots_app (fun e => f (fst e) (snd e)) landing_pos 0 []
             (replicate (Z.to_nat N) None)); [| done | rewrite length_replicate; lia].
  simpl. rewrite drop_replicate.
  replace (Z.to_nat N - length landing_pos)%nat with 0%nat by lia.
  simpl. by rewrite app_nil_r.
Qed.

Lemma filled_Some {A : Type} (l : list A) : filled (Some <$> l) = Ok l.
Proof.
  induction l as [|a l IH]; [done|].
  rewrite fmap_cons. cbn [filled]. by rewrite IH.
Qed.

Lemma singular_run_total (L N S : Z) (landing_pos : list Pos.t) :
  episode L N landing_pos → 0 <= S →
  ∃ t y x,
    centroid N landing_pos = Ok (y, x) ∧
    SingularTemperature.run L N S landing_pos
    = Ok (t, Py.sorted snd
               ((fun e => (fst e, (y - Pos.y (snd e), x - Pos.x (snd e)),
                           Z.abs (y - Pos.y (snd e)) + Z.abs (x - Pos.x (snd e))))
                <$> Py.enumerate landing_pos))
    ∧ grid L 1000 t.
Proof.
  intros Hep HS. pose proof Hep as (HL & HN & Hlen & _).
  destruct (centroid_total L N landing_pos Hep) as (y & x & Hc & Hy & Hx).
  unfold SingularTemperature.run. rewrite Hc. simpl.
  destruct (grid_set2 L 1000 (zero_field L) y x (Z.min 1000 (10 * S)))
    as (t & -> & Ht); [|done..|lia|].
  { split; [apply zero_field_shape | apply zero_field_within]; lia. }
  simpl. rewrite fill_slots_total by done. simpl.
  rewrite filled_Some. simpl. exists t, y, x. done.
Qed.

Lemma singular2_run_total (L N S : Z) (landing_pos : list Pos.t) :
  episode L N landing_pos → 0 <= S →
  ∃ t y x,
    centroid N landing_pos = Ok (y, x) ∧
    SingularTemperature2.run L N S landing_pos
    = Ok (t, Some <$> ((fun e => ((y - Pos.y (snd e), x - Pos.x (snd e)),
                                  ((y + 1) mod L - Pos.y (snd e), x - Pos.x (snd e))))
                       <$> Py.enumerate landing_pos))
    ∧ grid L 1000 t.
Proof.
  intros Hep HS. pose proof Hep as (HL & HN & Hlen & _).
  destruct (centroid_total L N landing_pos Hep) as (y & x & Hc & Hy & Hx).
  unfold SingularTemperature2.run. rewrite Hc. simpl.
  destruct (grid_set2 L 1000 (zero_field L) y x (Z.min 1000 (10 * S)))
    as (t & -> & Ht); [|done..|lia|].
  { split; [apply zero_field_shape | apply zero_field_within]; lia. }
  simpl. rewrite modulo_pos by done. simpl.
  destruct (grid_set2 L 1000 t ((y + 1) mod L) x (Z.min 1000 (10 * S)))
    as (t' & -> & Ht'); [done| by apply Z.mod_pos_bound |done|lia|].
  simpl. rewrite fill_slots_total by done. simpl. exists t', y, x. done.
Qed.

(** *** Variant D *)

Lemma range_to_nat (n : Z) : Py.range n = seqZ 0 (Z.of_nat (Z.to_nat n)).
Proof.
  unfold Py.range. destruct (Z.le_gt_cases 0 n).
  - by rewrite Z2Nat.id.
  - rewrite !seqZ_nil by lia. done.
Qed.

(** A loop over [range(n)] whose invariant depends on the index. *)
Lemma sfor_each_range_total {St X : Type} (P : Z → X → Prop) (n : Z)
  (body : Z → X → state St X) :
  (∀ i x s, 0 <= i < n → P i x → ∃ x' s', body i x s = Ok (x', s') ∧ P (i + 1) x') →
  ∀ x s, P 0 x →
    ∃ x' s', Py.sfor_each (Py.range n) body x s = Ok (x', s') ∧ P (Z.max 0 n) x'.
Proof.
  intros Hbody x s HP. rewrite range_to_nat.
  assert (∀ (k : nat) m x s, 0 <= m → m + Z.of_nat k = Z.max 0 n → P m x →
            ∃ x' s', Py.sfor_each (seqZ m (Z.of_nat k)) body x s = Ok (x', s')
                     ∧ P (Z.max 0 n) x') as Hgen.
  { clear x s HP. induction k as [|k IH]; intros m x s Hm Hk HP.
    - simpl. unfold sret. replace (Z.max 0 n) with m by lia. eauto.
    - rewrite seqZ_cons by lia.
      replace (Z.pred (Z.of_nat (S k))) with (Z.of_nat k) by lia.
      simpl. unfold sbind.
      destruct (Hbody m x s) as (x1 & s1 & -> & HP1); [lia|done|].
      apply IH; [lia|lia|]. by replace (Z.succ m) with (m + 1) by lia. }
  apply Hgen; [lia|lia|done].
Qed.

Lemma popleft_total {A : Type} (d : list A) :
  d ≠ [] →
  ∃ a d', Py.popleft d = Ok (a, d') ∧ a ∈ d ∧ length d = S (length d')
          ∧ ∀ b, b ∈ d' → b ∈ d.
Proof.
  destruct d as [|a d]; [done|]. intros _. exists a, d. simpl.
  split; [done|]. split; [left|]. split; [done|]. intros b Hb. by right.
Qed.

Lemma pop_total {A : Type} (d : list A) :
  d ≠ [] →
  ∃ a d', Py.pop d = Ok (a, d') ∧ a ∈ d ∧ length d = S (length d')
          ∧ ∀ b, b ∈ d' → b ∈ d.
Proof.
  intros Hd. unfold Py.pop. destruct (reverse d) as [|a r] eqn:Er.
  - destruct Hd. apply (f_equal length) in Er. rewrite length_reverse in Er.
    by destruct d.
  - exists a, (reverse r). split; [done|].
    assert (∀ b, b ∈ a :: r → b ∈ d) as Hin
      by (intros b; rewrite <- Er; apply elem_of_reverse).
    split; [apply Hin; left|]. split.
    + rewrite length_reverse, <- (length_reverse d), Er. done.
    + intros b Hb. rewrite elem_of_reverse in Hb. apply Hin. by right.
Qed.

Lemma clamp_bounds (g : Z) : 0 <= AroundTemperature.clamp g <= 1000.
Proof. unfold AroundTemperature.clamp. lia. Qed.

Lemma center_draws_total (E : Random.entropy) (N : Z) (k : nat) :
  ∃ temps k', AroundTemperature.center_draws E N k = Ok (temps, k')
              ∧ Z.of_nat (length temps) = Z.max 0 N
              ∧ Forall (fun c => 0 <= c <= 1000) temps.
Proof.
  unfold AroundTemperature.center_draws.
  apply (sfor_each_range_total
           (fun i temps => Z.of_nat (length temps) = i
                           ∧ Forall (fun c => 0 <= c <= 1000) temps)); [|done].
  intros i temps s Hi [Hlen Hall]. unfold sbind, Random.gauss_int, sret.
  eexists _, _. split; [done|]. split.
  - rewrite length_app. simpl. lia.
  - apply Forall_app. split; [done|]. apply Forall_singleton, clamp_bounds.
Qed.

Lemma around_seed_total (E : Random.entropy) (L N S : Z) (pos : Pos.t)
  (d : Z * Z) (i : Z) (v : AroundTemperature.vars) (k : nat) :
  0 < L → around_inv L N i v →
  ∃ v' k', AroundTemperature.seed E L N S pos d v k = Ok (v', k')
           ∧ around_inv L N i v'.
Proof.
  intros HL (Hg & Havg & Hnum & Hlen & Hall). destruct d as [dy dx].
  unfold AroundTemperature.seed, sbind, lift. rewrite !modulo_pos by done.
  assert (0 <= (Pos.y pos + dy) mod L < L) as Hy by (by apply Z.mod_pos_bound).
  assert (0 <= (Pos.x pos + dx) mod L < L) as Hx by (by apply Z.mod_pos_bound).
  rewrite (get2_cell L) by (done || apply Hg).
  destruct (_ =? 0);
    [|unfold sret; eexists _, _; split; [done|];
      unfold around_inv; simpl; split_and!; try done; lia].
  assert (∃ g, AroundTemperature.draw E N S k = Ok (g, Datatypes.S k)) as [g ->].
  { unfold AroundTemperature.draw, Random.gauss_int.
    destruct (_ <=? _); eauto. }
  pose proof (clamp_bounds g) as Hc.
  destruct (grid_set2 L 1000 (AroundTemperature.temperature v) _ _
              (AroundTemperature.clamp g) Hg Hy Hx Hc) as (t' & Hset & Hg').
  rewrite Hset. rewrite (get2_cell L) by (done || apply Hg').
  unfold sret. eexists _, _. split; [done|].
  rewrite (set2_cell_same _ _ _ _ _ Hset) by lia.
  unfold around_inv; simpl; split_and!; try done; lia.
Qed.

Lemma around_place_total (E : Random.entropy) (L N S : Z)
  (center_temps : list Z) (i : Z) (v : AroundTemperature.vars) (k : nat) :
  0 < L → 0 <= i < N → Z.of_nat (length center_temps) = N →
  Forall (fun c => 0 <= c <= 1000) center_temps →
  around_inv L N i v →
  ∃ v' k', AroundTemperature.place E L N S center_temps i v k = Ok (v', k')
           ∧ around_inv L N (i + 1) v'.
Proof.
  intros HL Hi Hlen Hct (Hg & Havg & Hnum & Hdq & Hall).
  unfold AroundTemperature.place, sbind.
  destruct (lookup_lt_is_Some_2 center_temps (Z.to_nat i)) as [c Hc]; [lia|].
  rewrite (getitem_nonneg center_temps i c) by (done || lia). unfold lift at 1.
  pose proof (Forall_lookup_1 _ _ _ _ Hct Hc) as Hcb. simpl in Hcb.
  assert (AroundTemperature.landing_deque v ≠ []) as Hne.
  { intros Hnil. rewrite Hnil in Hdq. simpl in Hdq. lia. }
  assert (∃ pos d', (if i mod 2 =? 0
                      then Py.popleft (AroundTemperature.landing_deque v)
                      else Py.pop (AroundTemperature.landing_deque v)) = Ok (pos, d')
                    ∧ pos ∈ AroundTemperature.landing_deque v
                    ∧ length (AroundTemperature.landing_deque v) = Datatypes.S (length d')
                    ∧ ∀ b, b ∈ d' → b ∈ AroundTemperature.landing_deque v)
    as (pos & d' & -> & Hpos & Hlen' & Hsub).
  { destruct (_ =? 0); [by apply popleft_total | by apply pop_total]. }
  unfold lift at 1.
  rewrite Forall_forall in Hall.
  destruct (Hall pos) as [Hy Hx]; [by apply list_elem_of_In|].
  destruct (grid_set2 L 1000 (AroundTemperature.temperature v) _ _ c Hg Hy Hx Hcb)
    as (t' & Hset & Hg').
  rewrite Hset. unfold lift at 1. rewrite (get2_cell L) by (done || apply Hg').
  unfold lift. rewrite (set2_cell_same _ _ _ _ _ Hset) by lia.
  apply (sfor_each_total (around_inv L N (i + 1))).
  - intros d w s _ Hw. by apply around_seed_total.
  - unfold around_inv; simpl; split_and!; try done; try lia.
    apply Forall_forall. intros b Hb%list_elem_of_In. by apply Hall, list_elem_of_In, Hsub.
Qed.

(** Variant D up to the optimizer: the field exists and is in range, whatever
    the Gaussian draws are. *)
Lemma around_design_total (E : Random.entropy) (L N S : Z)
  (landing_pos : list Pos.t) (k : nat) :
  episode L N landing_pos →
  ∃ t prohibit_pos k',
    AroundTemperature.design E L N S landing_pos k = Ok (t, prohibit_pos, k')
    ∧ grid L 1000 t.
Proof.
  intros (HL & HN & Hlen & Hall). unfold AroundTemperature.design, sbind.
  destruct (center_draws_total E N k) as (temps & k1 & -> & Hlt & Hct).
  destruct (sfor_each_range_total (around_inv L N) N
              (AroundTemperature.place E L N S (Py.sorted id temps)))
    with (x := {| AroundTemperature.temperature := zero_field L;
                  AroundTemperature.avg := 0; AroundTemperature.num := 0;
                  AroundTemperature.prohibit_pos :=
                    (fun pos => (Pos.y pos, Pos.x pos)) <$> landing_pos;
                  AroundTemperature.landing_deque := landing_pos |}) (s := k1)
    as (v & k2 & -> & Hg & Havg & Hnum & _).
  - intros i w s Hi Hw. apply around_place_total; try done.
    + rewrite sorted_Permutation. lia.
    + by rewrite sorted_Permutation.
  - unfold around_inv; simpl; split_and!; try lia; try done.
    split; [apply zero_field_shape | apply zero_field_within]; lia.
  - unfold lift at 1, Py.floordiv.
    destruct (Z.eqb_spec (AroundTemperature.num v) 0); [lia|].
    destruct (fill_zero_total L 1000
                (AroundTemperature.avg v / AroundTemperature.num v)
                (AroundTemperature.temperature v) Hg) as (t & Hfill & Ht).
    { split; [apply Z.div_pos; lia|]. apply Z.div_le_upper_bound; lia. }
    unfold lift. rewrite Hfill. unfold sret. eauto.
Qed.

Lemma elem_of_enumerate {A : Type} (l : list A) (i : Z) (a : A) :
  (i, a) ∈ Py.enumerate l → 0 <= i < Z.of_nat (length l) ∧ l !! Z.to_nat i = Some a.
Proof.
  unfold Py.enumerate. intros [n Hn]%list_elem_of_lookup.
  apply lookup_zip_with_Some in Hn as (i' & a' & [= <- <-] & Hi & Ha).
  apply lookup_seqZ in Hi as [-> Hlt]. rewrite Z.add_0_l, Nat2Z.id. split; [lia|done].
Qed.

Lemma around_run_total (E : Random.entropy) (L N S : Z)
  (landing_pos : list Pos.t) (runs : nat) (k : nat) :
  episode L N landing_pos →
  ∃ t vector k',
    AroundTemperature.run E L N S landing_pos runs k = Ok (t, vector, k')
    ∧ grid L 1000 t.
Proof.
  intros Hep. pose proof Hep as (HL & HN & Hlen & Hall).
  unfold AroundTemperature.run, sbind.
  destruct (around_design_total E L N S landing_pos k Hep)
    as (t & prohibit_pos & k1 & -> & Hs & Hw).
  destruct (optimize_total E L t prohibit_pos 3 runs levels_100_01_01 k1 Hs)
    as (out & k2 & Hopt & Hs'); [lia|].
  rewrite Hopt.
  assert (in_range out) as Hout.
  { revert Hopt. apply optimize_stable; [apply stable_in_range | done]. }
  destruct (for_each_total (fun vector : list (list Z) => Z.of_nat (length vector) = N)
              (Py.enumerate landing_pos)
              (fun e vector => AroundTemperature.template L N S out (fst e) (snd e) vector))
    with (x := replicate (Z.to_nat N) ([] : list Z)) as (vector & Hvec & _).
  - intros [i pos] vector [Hi Hpos]%elem_of_enumerate Hv. simpl.
    unfold AroundTemperature.template.
    apply (for_each_total (fun vector : list (list Z) => Z.of_nat (length vector) = N));
      [|done].
    intros [dy dx] vec _ Hvec.
    destruct (lookup_lt_is_Some_2 vec (Z.to_nat i)) as [row Hrow]; [lia|].
    rewrite (getitem_nonneg vec i row) by (done || lia). simpl.
    rewrite !modulo_pos by done. simpl.
    rewrite (get2_cell L); [|done|by apply Z.mod_pos_bound..]. simpl.
    rewrite setitem_nonneg by lia. eexists. split; [done|].
    by rewrite length_insert.
  - rewrite length_replicate. lia.
  - unfold lift. rewrite Hvec. unfold sret. by eexists _, _, _.
Qed.

(** ** C6: the values of the field *)

Lemma cell_lookup (t : field) (i j v : Z) :
  cell t i j = v → v ≠ 0 →
  ∃ row, t !! Z.to_nat i = Some row ∧ row !! Z.to_nat j = Some v.
Proof.
  unfold cell. intros Hc Hv. destruct (t !! Z.to_nat i) as [row|]; simpl in Hc; [|done].
  exists row. split; [done|]. destruct (row !! Z.to_nat j); simpl in Hc; [|done].
  by subst.
Qed.

(** C6, as the specification states it, fails: with 501 sites variant A
    gives the site of the last rank the level [2 * 501]. *)
Lemma one_point_design_exceeds_1000 :
  ∃ t, OnePointTemperature.design 23 501 sites501 = Ok t
       ∧ cell t 0 22 = 1002 ∧ ¬ in_range t.
Proof.
  remember (OnePointTemperature.design 23 501 sites501) as r eqn:Hr.
  assert (match r with Ok t => cell t 0 22 | Raise _ => 0 end = 1002) as Hc
    by (subst r; vm_compute; reflexivity).
  destruct r as [t|]; [|done]. exists t. split; [done|]. split; [done|].
  intros Hrange.
  destruct (cell_lookup t 0 22 1002 Hc) as (row & Hrow & Hv); [done|].
  pose proof (Forall_lookup_1 _ _ _ _ Hrange Hrow) as Hr'.
  pose proof (Forall_lookup_1 _ _ _ _ Hr' Hv) as Hb. simpl in Hb. lia.
Qed.

(** C6, amended: on every episode each designer returns an [L x L] field
    whose cells all hold values of [0..1000] - variant A when there are at
    most 500 sites, its levels being [2 * rank] - and the optimizer keeps
    every field in that range: each perturbation writes one clamped value. *)
Theorem designed_fields_in_range (E : Random.entropy) (L N S : Z)
  (landing_pos : list Pos.t) (runs : nat) (k : nat) :
  episode L N landing_pos →
  (N <= 500 →
     (∃ t, OnePointTemperature.design L N landing_pos = Ok t
           ∧ shape L t ∧ in_range t)
     ∧ (∀ out k', OnePointTemperature.run E L N landing_pos runs k = Ok (out, k') →
                  in_range out)
     ∧ (40 <= N → ∃ out k',
          OnePointTemperature.run E L N landing_pos runs k = Ok (out, k')))
  ∧ (0 <= S → ∃ t distance,
       SingularTemperature.run L N S landing_pos = Ok (t, distance)
       ∧ shape L t ∧ in_range t)
  ∧ (0 <= S → ∃ t distance,
       SingularTemperature2.run L N S landing_pos = Ok (t, distance)
       ∧ shape L t ∧ in_range t)
  ∧ (∃ t vector k',
       AroundTemperature.run E L N S landing_pos runs k = Ok (t, vector, k')
       ∧ shape L t ∧ in_range t)
  ∧ (∀ t prohibit_pos rand levels out k',
       in_range t →
       OptimizeTemperature.optimize E L t prohibit_pos rand runs levels k = Ok (out, k') →
       in_range out)
  ∧ (∀ permit rand t t' k',
       OptimizeTemperature.perturb E permit rand t k = Ok (t', k') →
       (∃ i j v, 0 <= v <= 1000 ∧ set2 t i j v = Ok t')
       ∧ (in_range t → in_range t')).
Proof.
  intros Hep. split_and!.
  - intros HN.
    destruct (one_point_design_total L N landing_pos Hep) as (t & Hd & Hs & Hw).
    assert (in_range t) as Ht by (revert Hw; apply cells_within_mono; lia).
    split_and!.
    + eauto.
    + intros out k'. unfold OnePointTemperature.run, sbind, lift. rewrite Hd.
      apply optimize_stable; [apply stable_in_range | done].
    + intros H40. unfold OnePointTemperature.run, sbind, lift. rewrite Hd.
      destruct (optimize_total E L t (OnePointTemperature.prohibit_pos landing_pos)
                  (OnePointTemperature.rand N) runs levels_100_01_01 k Hs)
        as (out & k' & Hopt & _); [|eauto].
      unfold OnePointTemperature.rand.
      assert (2 <= N / 20) by (apply Z.div_le_lower_bound; lia). lia.
  - intros HS.
    destruct (singular_run_total L N S landing_pos Hep HS)
      as (t & y & x & _ & Hrun & Hs & Hw). eauto.
  - intros HS.
    destruct (singular2_run_total L N S landing_pos Hep HS)
      as (t & y & x & _ & Hrun & Hs & Hw). eauto.
  - destruct (around_run_total E L N S landing_pos runs k Hep)
      as (t & vector & k' & Hrun & Hs & Hw). by eexists _, _, _.
  - intros t prohibit_pos rand levels out k' Ht.
    apply optimize_stable; [apply stable_in_range | done].
  - intros permit rand t t' k' (i & j & v & _ & Hv & Hset)%perturb_ok.
    split; [eauto|]. intros Ht. by eapply set2_in_range.
Qed.

(** ** C10: the perturbation magnitude of variant A *)

Lemma perturb_negative_rand (E : Random.entropy) (L : Z)
  (prohibit_pos : list (Z * Z)) (rand : Z) (t : field) (k : nat) :
  shape L t → OptimizeTemperature.permit_pos L prohibit_pos ≠ [] → rand < 0 →
  OptimizeTemperature.perturb E (OptimizeTemperature.permit_pos L prohibit_pos)
    rand t k = Raise ValueError.
Proof.
  intros Hs Hne Hrand.
  set (permit := OptimizeTemperature.permit_pos L prohibit_pos) in *.
  unfold OptimizeTemperature.perturb, sbind, Random.choice.
  destruct (lookup_lt_is_Some_2 permit (Random.raw E k mod length permit)%nat)
    as [[i j] Hp].
  { apply Nat.mod_upper_bound. destruct permit; [done|simpl; lia]. }
  rewrite Hp.
  assert ((i, j) ∈ permit) as (Hi & Hj & _)%elem_of_permit_pos
    by (by eapply list_elem_of_lookup_2).
  rewrite (get2_cell L) by done. simpl.
  unfold Random.randint. by destruct (Z.ltb_spec rand (- rand)); [|lia].
Qed.

Lemma repeatM_raise {St X : Type} (body : X → state St X) (n : nat) (x : X)
  (s : St) (e : exn) :
  body x s = Raise e → Py.repeatM (S n) body x s = Raise e.
Proof. intros Hb. cbn [Py.repeatM]. unfold sbind. by rewrite Hb. Qed.

Lemma anneal_negative_rand (E : Random.entropy) (L : Z)
  (prohibit_pos : list (Z * Z)) (rand : Z) (best : field * Z) (k : nat) :
  shape L (fst best) → OptimizeTemperature.permit_pos L prohibit_pos ≠ [] →
  rand < 0 →
  OptimizeTemperature.anneal E L (OptimizeTemperature.permit_pos L prohibit_pos)
    rand best k = Raise ValueError.
Proof.
  intros Hs Hne Hrand. destruct best as [t c]. simpl in Hs.
  unfold OptimizeTemperature.anneal, sbind.
  unfold Random.randint at 1. change (20 <? 1) with false. cbv iota.
  assert (∃ n, Z.to_nat (1 + Z.of_nat (Random.raw E k) mod (20 - 1 + 1)) = Datatypes.S n)
    as [n ->].
  { exists (Z.to_nat (Z.of_nat (Random.raw E k) mod (20 - 1 + 1))).
    pose proof (Z.mod_pos_bound (Z.of_nat (Random.raw E k)) (20 - 1 + 1)). lia. }
  rewrite (repeatM_raise _ n t (Datatypes.S k) ValueError); [done|].
  by apply (perturb_negative_rand E L).
Qed.

Lemma optimize_negative_rand (E : Random.entropy) (L : Z) (t : field)
  (prohibit_pos : list (Z * Z)) (rand : Z) (runs levels : nat) (k : nat) :
  shape L t → OptimizeTemperature.permit_pos L prohibit_pos ≠ [] → rand < 0 →
  (0 < runs)%nat → (0 < levels)%nat →
  OptimizeTemperature.optimize E L t prohibit_pos rand runs levels k
  = Raise ValueError.
Proof.
  intros Hs Hne Hrand Hruns Hlevels.
  unfold OptimizeTemperature.optimize, sbind, lift.
  rewrite calc_placement_cost_eq by done.
  destruct (OptimizeTemperature.permit_pos L prohibit_pos) as [|p permit] eqn:Ep;
    [done|].
  rewrite <- Ep. replace (length _ =? 0)%nat with false by (by rewrite Ep).
  destruct runs as [|runs]; [lia|]. destruct levels as [|levels]; [lia|].
  rewrite (repeatM_raise _ runs (t, smoothness L t) k ValueError); [done|].
  apply repeatM_raise. apply anneal_negative_rand; [done | by rewrite Ep | done].
Qed.

Lemma permit_pos_not_nil (L : Z) (prohibit_pos : list (Z * Z)) :
  (∃ i j, 0 <= i < L ∧ 0 <= j < L ∧ (i, j) ∉ prohibit_pos) →
  OptimizeTemperature.permit_pos L prohibit_pos ≠ [].
Proof.
  intros (i & j & Hi & Hj & Hn) Hnil.
  assert ((i, j) ∈ OptimizeTemperature.permit_pos L prohibit_pos) as Hin
    by (by apply elem_of_permit_pos).
  rewrite Hnil in Hin. by apply elem_of_nil in Hin.
Qed.

(** C10, as stated, fails: on the 1 x 1 grid with its one site the magnitude
    is [-2], no cell is eligible, and [run] returns the field. *)
Lemma one_point_run_returns_with_negative_rand :
  OnePointTemperature.rand 1 = -2
  ∧ OnePointTemperature.run E_zero 1 1 [Pos.mk 0 0] 1%nat 0%nat = Ok ([[2]], 0%nat).
Proof. split; reflexivity. Qed.

(** C10, amended: variant A anneals with the magnitude [N // 20 - 2].  With
    at most 39 sites it is negative: every perturbation raises [ValueError],
    and so does [run] as soon as one cell is not a site and the clock grants
    a first annealing run; when every cell is a site, [run] returns the
    designed field.  From 40 sites on the magnitude is not negative, every
    perturbation of an [L x L] field returns, and so does [run]. *)
Theorem one_point_rand_sign (E : Random.entropy) (L N : Z)
  (landing_pos : list Pos.t) (runs : nat) (k : nat) :
  episode L N landing_pos →
  OnePointTemperature.rand N = N / 20 - 2
  ∧ (N <= 39 →
       OnePointTemperature.rand N < 0
       ∧ ((∃ i j, 0 <= i < L ∧ 0 <= j < L
                  ∧ (i, j) ∉ OnePointTemperature.prohibit_pos landing_pos) →
          (∀ t k1, shape L t →
             OptimizeTemperature.perturb E
               (OptimizeTemperature.permit_pos L
                  (OnePointTemperature.prohibit_pos landing_pos))
               (OnePointTemperature.rand N) t k1 = Raise ValueError)
          ∧ ((0 < runs)%nat →
             OnePointTemperature.run E L N landing_pos runs k = Raise ValueError))
       ∧ ((∀ i j, 0 <= i < L → 0 <= j < L →
             (i, j) ∈ OnePointTemperature.prohibit_pos landing_pos) →
          ∃ t, OnePointTemperature.design L N landing_pos = Ok t
               ∧ OnePointTemperature.run E L N landing_pos runs k = Ok (t, k)))
  ∧ (40 <= N →
       0 <= OnePointTemperature.rand N
       ∧ (∀ t k1, shape L t →
            OptimizeTemperature.permit_pos L
              (OnePointTemperature.prohibit_pos landing_pos) ≠ [] →
            ∃ t' k1',
              OptimizeTemperature.perturb E
                (OptimizeTemperature.permit_pos L
                   (OnePointTemperature.prohibit_pos landing_pos))
                (OnePointTemperature.rand N) t k1 = Ok (t', k1'))
       ∧ ∃ out k', OnePointTemperature.run E L N landing_pos runs k = Ok (out, k')).
Proof.
  intros Hep. split; [done|].
  destruct (one_point_design_total L N landing_pos Hep) as (t & Hd & Hs & Hw).
  split.
  - intros HN.
    assert (OnePointTemperature.rand N < 0) as Hrand.
    { unfold OnePointTemperature.rand.
      assert (N / 20 < 2) by (apply Z.div_lt_upper_bound; lia). lia. }
    split; [done|]. split.
    + intros Hex%permit_pos_not_nil. split.
      * intros t1 k1 Hs1. by apply (perturb_negative_rand E L).
      * intros Hruns. unfold OnePointTemperature.run, sbind, lift. rewrite Hd.
        apply optimize_negative_rand; try done. unfold levels_100_01_01. lia.
    + intros Hall%permit_pos_nil. exists t. split; [done|].
      unfold OnePointTemperature.run, sbind, lift. rewrite Hd.
      by apply optimize_no_permit.
  - intros HN.
    assert (0 <= OnePointTemperature.rand N) as Hrand.
    { unfold OnePointTemperature.rand.
      assert (2 <= N / 20) by (apply Z.div_le_lower_bound; lia). lia. }
    split; [done|]. split.
    + intros t1 k1 Hs1 Hne.
      destruct (perturb_total E L (OnePointTemperature.prohibit_pos landing_pos)
                  (OnePointTemperature.rand N) t1 k1 Hs1 Hne Hrand)
        as (t' & k1' & Hp & _). eauto.
    + unfold OnePointTemperature.run, sbind, lift. rewrite Hd.
      destruct (optimize_total E L t (OnePointTemperature.prohibit_pos landing_pos)
                  (OnePointTemperature.rand N) runs levels_100_01_01 k Hs Hrand)
        as (out & k' & Hopt & _). eauto.
Qed.

(** ** C1: the cost of the returned field *)

(** X22: what does hold: as long as no Metropolis test accepts a move that
    does not lower the cost, the returned field costs no more than the
    initial one. *)
Lemma optimize_cost_without_uphill (E : Random.entropy) (L : Z) (t : field)
  (prohibit_pos : list (Z * Z)) (rand : Z) (runs levels : nat) (k : nat)
  (out : field) (k' : nat) (c0 : Z) :
  (∀ n, Random.coin E n = false) →
  OptimizeTemperature._calc_placement_cost L t = Ok c0 →
  OptimizeTemperature.optimize E L t prohibit_pos rand runs levels k = Ok (out, k') →
  ∃ c, OptimizeTemperature._calc_placement_cost L out = Ok c ∧ c <= c0.
Proof.
  intros Hcoin Hc0. unfold OptimizeTemperature.optimize, sbind, lift.
  rewrite Hc0. destruct (_ =? _)%nat.
  { intros [= <- <-]. exists c0. split; [done|lia]. }
  destruct (Py.repeatM runs _ _ k) as [[best k1]|] eqn:Eruns; [|done].
  intros [= <- <-]. revert Eruns.
  set (P := fun best : field * Z =>
              OptimizeTemperature._calc_placement_cost L (fst best) = Ok (snd best)
              ∧ snd best <= c0).
  assert (P (t, c0)) as H0 by (split; simpl; [done|lia]).
  intros Eruns.
  assert (P best) as [Hbest Hle]; [|eauto].
  revert Eruns. apply (repeatM_ok P); [|done].
  intros x s x' s' Hx. apply (repeatM_ok P); [|done].
  clear -Hcoin. intros [bt bc] s [bt' bc'] s' [Hcost Hle]. simpl in *.
  unfold OptimizeTemperature.anneal, sbind.
  destruct (Random.randint E 1 20 s) as [[n k1]|]; [|done].
  destruct (Py.repeatM _ _ bt k1) as [[new k2]|]; [|done].
  unfold lift.
  destruct (OptimizeTemperature._calc_placement_cost L new) as [c'|] eqn:Ec';
    [|done].
  destruct (Z.ltb_spec (c' - bc) 0).
  - intros [= <- <-]. split; simpl; [done|lia].
  - unfold Random.metropolis. rewrite Hcoin. intros [= <- <-]. by split.
Qed.

(** C1 fails on this run: from the constant 2 x 2 field, of cost 0, the first
    level moves cell (0, 0) to 6, the Metropolis test accepts the move into
    [best_temperature], the two later levels reject theirs, and [optimize]
    returns a field of cost 4. *)
Theorem optimize_returns_costlier_field :
  OptimizeTemperature._calc_placement_cost 2 [[5; 5]; [5; 5]] = Ok 0
  ∧ OptimizeTemperature.optimize E_uphill 2 [[5; 5]; [5; 5]] [] 5 1%nat
      levels_100_01_01 0%nat
    = Ok ([[6; 5]; [5; 5]], 12%nat)
  ∧ OptimizeTemperature._calc_placement_cost 2 [[6; 5]; [5; 5]] = Ok 4.
Proof. split_and!; reflexivity. Qed.

(** ** C3: the strategy selector *)

Lemma main_solver_spec (S N : Z) : main_solver S N = spec_variant S N.
Proof.
  unfold main_solver, spec_variant.
  destruct (Z.eqb_spec S 1); [by rewrite decide_True|].
  rewrite decide_False by done.
  destruct (Z.ltb_spec 1 S), (Z.ltb_spec S 169), (Z.leb_spec 169 S),
    (Z.ltb_spec S 289), (Z.leb_spec 289 S), (Z.ltb_spec S 400),
    (Z.leb_spec N 71); simpl;
    repeat case_decide; try done; lia.
Qed.

Lemma around_init_spec (S N : Z) :
  around_init S N
  = (spec_neighbourhood S N, square_offsets ((spec_neighbourhood S N - 1) / 2)).
Proof.
  unfold around_init, spec_neighbourhood.
  destruct (Z.ltb_spec S 625), (Z.leb_spec 289 S), (Z.eqb_spec N 100); simpl;
    case_decide; try done; lia.
Qed.

(** C3: [main] chooses the solver class by the table of the specification;
    the class chosen decodes as the table says, variant C by the Hungarian
    method up to 71 sites and by thresholds above; variant D works on the
    5 x 5 neighbourhood when [S >= 625] or ([S >= 289] and [N = 100]), on the
    3 x 3 one otherwise, in the designer and in the solver alike, and repeats
    every measurement [10000 // N // Around ** 2] times. *)
Theorem strategy_selector (S N : Z) :
  main_solver S N = spec_variant S N
  ∧ (main_solver S N = OnePoint ↔ S = 1)
  ∧ (main_solver S N = Singular ↔ 1 < S < 169)
  ∧ (main_solver S N = Singular2 ↔ 169 <= S < 289 ∨ (289 <= S < 400 ∧ N <= 71))
  ∧ (main_solver S N = Around ↔
       ¬ (S = 1 ∨ 1 < S < 169 ∨ 169 <= S < 289 ∨ (289 <= S < 400 ∧ N <= 71)))
  ∧ (∀ linear_sum_assignment reply landing_pos,
       runs_decoder linear_sum_assignment reply S N landing_pos (spec_decoder S N))
  ∧ AroundSolver.Around N S = spec_neighbourhood S N
  ∧ AroundTemperature.Around N S = spec_neighbourhood S N
  ∧ AroundSolver.direction N S = AroundTemperature.direction N S
  ∧ AroundSolver.direction N S
    = square_offsets ((spec_neighbourhood S N - 1) / 2)
  ∧ Z.of_nat (length (AroundSolver.direction N S))
    = spec_neighbourhood S N * spec_neighbourhood S N
  ∧ (N ≠ 0 → AroundSolver.measure_count N S = Ok (spec_repeat_count S N))
  ∧ (N = 0 → AroundSolver.measure_count N S = Raise ZeroDivisionError).
Proof.
  split; [apply main_solver_spec|].
  rewrite main_solver_spec.
  assert (∀ c, spec_variant S N = c ↔
               match c with
               | OnePoint => S = 1
               | Singular => 1 < S < 169
               | Singular2 => 169 <= S < 289 ∨ (289 <= S < 400 ∧ N <= 71)
               | Around => ¬ (S = 1 ∨ 1 < S < 169 ∨ 169 <= S < 289
                              ∨ (289 <= S < 400 ∧ N <= 71))
               end) as Hv.
  { intros c. unfold spec_variant. repeat case_decide; destruct c; split;
      try done; try lia; tauto. }
  split; [apply (Hv OnePoint)|]. split; [apply (Hv Singular)|].
  split; [apply (Hv Singular2)|]. split; [apply (Hv Around)|].
  split.
  { intros lsa reply landing_pos. unfold runs_decoder, spec_decoder.
    rewrite main_solver_spec. destruct (spec_variant S N); try done.
    unfold SingularSolver2._predict. case_decide.
    - intros t d. by destruct (Z.leb_spec N 71); [|lia].
    - intros t d. by destruct (Z.leb_spec N 71); [lia|]. }
  unfold AroundSolver.Around, AroundTemperature.Around, AroundSolver.direction,
    AroundTemperature.direction, AroundSolver.measure_count, AroundSolver.Around.
  rewrite around_init_spec. simpl. split_and!; try done.
  - unfold spec_neighbourhood. by case_decide.
  - intros HN. unfold Py.floordiv, spec_repeat_count.
    destruct (Z.eqb_spec N 0); [done|]. simpl.
    replace (spec_neighbourhood S N ^ 2)
      with (spec_neighbourhood S N * spec_neighbourhood S N) by lia.
    unfold spec_neighbourhood. by case_decide.
  - intros ->. done.
Qed.

(** ** The judge and the score matrices *)

Lemma sfor_each_inv {St A X : Type} (P : X → St → Prop) (l : list A)
  (body : A → X → state St X) :
  (∀ a x s x' s', a ∈ l → P x s → body a x s = Ok (x', s') → P x' s') →
  ∀ x s x' s', P x s → Py.sfor_each l body x s = Ok (x', s') → P x' s'.
Proof.
  induction l as [|a l IH]; intros Hbody x s x' s' HP; simpl.
  - by intros [= <- <-].
  - unfold sbind. destruct (body a x s) as [[x1 s1]|] eqn:E1; [|done].
    apply IH; [|by eapply Hbody; [left|..]].
    intros a' y t y' t' Ha'. apply Hbody. by right.
Qed.

Lemma sfor_each_inv_total {St A X : Type} (P : X → St → Prop) (l : list A)
  (body : A → X → state St X) :
  (∀ a x s, a ∈ l → P x s → ∃ x' s', body a x s = Ok (x', s') ∧ P x' s') →
  ∀ x s, P x s → ∃ x' s', Py.sfor_each l body x s = Ok (x', s') ∧ P x' s'.
Proof.
  induction l as [|a l IH]; intros Hbody x s HP; simpl.
  - unfold sret. eauto.
  - unfold sbind. destruct (Hbody a x s) as (x1 & s1 & -> & HP1); [left|done|].
    apply IH; [|done]. intros a' y t Ha'. apply Hbody. by right.
Qed.

Lemma measure_ok (reply : nat → Z) (i y x : Z) (asked : list Judge.query)
  (v : Z) (asked' : list Judge.query) :
  Judge.measure reply i y x asked = Ok (v, asked') →
  v = reply (length asked) ∧ asked' = asked ++ [(i, y, x)].
Proof.
  unfold Judge.measure. destruct (_ =? -1); [done|]. by intros [= <- <-].
Qed.

Lemma measure_total (reply : nat → Z) (i y x : Z) (asked : list Judge.query) :
  (∀ k, reply k ≠ -1) →
  Judge.measure reply i y x asked = Ok (reply (length asked), asked ++ [(i, y, x)]).
Proof.
  intros Hr. unfold Judge.measure. by destruct (Z.eqb_spec (reply (length asked)) (-1));
    [destruct (Hr (length asked))|].
Qed.

(** The queries of an average all carry its hidden index. *)
Lemma average_ok (reply : nat → Z) (i y x n : Z) (P : Judge.query → Prop)
  (asked : list Judge.query) (a : Q) (asked' : list Judge.query) :
  P (i, y, x) → Forall P asked →
  Judge.average reply i y x n asked = Ok (a, asked') → Forall P asked'.
Proof.
  intros HP Hasked. unfold Judge.average, sbind.
  destruct (Py.sfor_each _ _ _ asked) as [[total asked1]|] eqn:Eloop; [|done].
  assert (Forall P asked1) as H1.
  { revert Eloop. apply (sfor_each_inv (fun _ asked => Forall P asked)); [|done].
    intros _ tot s tot' s' _ Hs. unfold sbind.
    destruct (Judge.measure reply i y x s) as [[v s1]|] eqn:Em; [|done].
    apply measure_ok in Em as [_ ->]. intros [= _ <-].
    apply Forall_app. split; [done|]. by apply Forall_singleton. }
  destruct (n =? 0); [done|]. by intros [= _ <-].
Qed.

Lemma average_total (reply : nat → Z) (i y x n : Z) (asked : list Judge.query) :
  (∀ k, reply k ≠ -1) → n ≠ 0 →
  ∃ a asked', Judge.average reply i y x n asked = Ok (a, asked').
Proof.
  intros Hr Hn. unfold Judge.average. unfold sbind at 1.
  destruct (sfor_each_total (fun _ : Z => True) (Py.range n)
              (fun _ total => v <~ Judge.measure reply i y x ;; sret (total + v)))
    with (x := 0) (s := asked) as (tot & asked1 & -> & _); [|done|].
  - intros _ tot s _ _. unfold sbind. rewrite measure_total by done.
    unfold sret. eauto.
  - destruct (Z.eqb_spec n 0); [done|]. unfold sret. eauto.
Qed.

(** A write into a row other than [n] leaves row [n] as it is. *)
Lemma set2_other_row {A : Type} (t : list (list A)) (i j : Z) (v : A)
  (t' : list (list A)) (n : nat) :
  set2 t i j v = Ok t' → 0 <= i → Z.to_nat i ≠ n →
  t' !! n = t !! n ∧ length t' = length t.
Proof.
  intros (ni & nj & row & Hi & Hrow & Hj & ->)%set2_ok Hi0 Hne.
  apply norm_index_nonneg_inv in Hi as [-> _]; [|done].
  by rewrite list_lookup_insert_ne, length_insert.
Qed.

Lemma square_matrix_length {A : Type} (n : Z) (v : A) :
  length (square_matrix n v) = Z.to_nat n.
Proof. unfold square_matrix, Py.range. by rewrite length_fmap, length_seqZ. Qed.

Lemma square_matrix_lookup {A : Type} (n : Z) (v : A) (i : nat) :
  (i < Z.to_nat n)%nat → square_matrix n v !! i = Some (replicate (Z.to_nat n) v).
Proof.
  intros Hi. unfold square_matrix, Py.range.
  rewrite list_lookup_fmap, lookup_seqZ_lt by lia. done.
Qed.


Lemma last_row_free_init (N : Z) : 0 < N → last_row_free N (square_matrix N 0%Q) [].
Proof.
  intros HN. split; [apply square_matrix_length|]. split; [|done].
  apply square_matrix_lookup. lia.
Qed.

(** A write into the row of a hidden index below [N - 1]. *)
Lemma last_row_free_set2 (N : Z) (cm : matrix) (asked : list Judge.query)
  (i_in i_out : Z) (v : Q) (cm' : matrix) :
  0 <= i_in < N - 1 → last_row_free N cm asked →
  set2 cm i_in i_out v = Ok cm' → last_row_free N cm' asked.
Proof.
  intros Hi (Hlen & Hrow & Hasked) Hset.
  destruct (set2_other_row cm i_in i_out v cm' (Z.to_nat (N - 1)) Hset)
    as [Hrow' Hlen']; [lia|lia|].
  split; [by rewrite Hlen'|]. split; [by rewrite Hrow'|done].
Qed.

Lemma one_point_cost_matrix_inv (reply : nat → Z) (N : Z)
  (landing_pos : list Pos.t) (temperature : field) (cm : matrix)
  (asked : list Judge.query) :
  0 < N →
  OnePointSolver.cost_matrix reply N landing_pos temperature [] = Ok (cm, asked) →
  last_row_free N cm asked.
Proof.
  intros HN. unfold OnePointSolver.cost_matrix.
  apply (sfor_each_inv (last_row_free N)); [|by apply last_row_free_init].
  intros i_in cm0 s cm1 s1 Hi%elem_of_range Hinv. unfold sbind.
  destruct (Judge.average reply i_in 0 0 5 s) as [[a s2]|] eqn:Ea; [|done].
  unfold lift. destruct (Py.for_each _ _ cm0) as [cm2|] eqn:Ef; [|done].
  intros [= <- <-].
  assert (last_row_free N cm0 s2) as Hinv2.
  { destruct Hinv as (Hlen & Hrow & Hasked). split; [done|]. split; [done|].
    revert Ea. apply average_ok; [|done]. unfold hidden_index. simpl. lia. }
  revert Ef. apply (for_each_ok (fun cm => last_row_free N cm s2)); [|done].
  intros [i_out pos] cm3 cm4 _ Hinv3.
  destruct (get2 temperature (Pos.y pos) (Pos.x pos)); simpl; [|done].
  by apply last_row_free_set2.
Qed.

Lemma singular2_cost_matrix_inv (reply : nat → Z) (N : Z)
  (distance : list (option SingularTemperature2.entry)) (cm : matrix)
  (asked : list Judge.query) :
  0 < N →
  SingularSolver2.cost_matrix reply N distance [] = Ok (cm, asked) →
  last_row_free N cm asked.
Proof.
  intros HN. unfold SingularSolver2.cost_matrix.
  apply (sfor_each_inv (last_row_free N)); [|by apply last_row_free_init].
  intros i_in cm0 s cm1 s1 Hi%elem_of_range Hinv.
  apply (sfor_each_inv (last_row_free N)); [|done].
  intros [i_out slot] cm2 s2 cm3 s3 _ Hinv2. unfold sbind, lift at 1.
  destruct (SingularSolver2.unpack _) as [[[dy dx] [dy2 dx2]]|]; [|done].
  unfold lift at 1. destruct (get2 cm2 i_in _) as [old|]; [|done].
  destruct (Judge.measure reply i_in dy dx s2) as [[m s4]|] eqn:Em; [|done].
  destruct (Judge.measure reply i_in dy2 dx2 s4) as [[m2 s5]|] eqn:Em2; [|done].
  apply measure_ok in Em as [_ ->]. apply measure_ok in Em2 as [_ ->].
  unfold lift. destruct (set2 cm2 i_in _ _) as [cm4|] eqn:Eset; [|done].
  intros [= <- <-].
  eapply (last_row_free_set2 N cm2); [|clear Eset|exact Eset]; [lia|].
  destruct Hinv2 as (Hlen & Hrow & Hasked). split; [done|]. split; [done|].
  rewrite !Forall_app. split_and!; [done|..];
    apply Forall_singleton; unfold hidden_index; simpl; lia.
Qed.

(** *** The score of an estimate when the last row is zero *)

Lemma lookup_zeros (width : nat) (j : nat) :
  default 0%Q (replicate width 0%Q !! j) = 0%Q.
Proof.
  destruct (replicate width 0%Q !! j) as [q|] eqn:Eq; [|done].
  by apply lookup_replicate in Eq as [-> _].
Qed.

Lemma score_nil_r (cm : matrix) : score cm [] = 0%Q.
Proof. by destruct cm. Qed.

Lemma score_last_row (width : nat) (cm : matrix) :
  ∀ (n : nat) (est : list Z),
    length cm = S n → cm !! n = Some (replicate width 0%Q) →
    (score cm est == score (take n cm) est)%Q.
Proof.
  induction cm as [|row cm IH]; intros n est Hlen Hrow; [done|].
  destruct n as [|n].
  - destruct cm; [|done]. injection Hrow as ->.
    destruct est as [|j est]; [done|]. simpl. rewrite lookup_zeros. reflexivity.
  - destruct est as [|j est]; [done|]. simpl.
    rewrite (IH n est); [reflexivity | by injection Hlen | done].
Qed.

Lemma optimal_other_rows (maximize : bool) (N : Z) (cm : matrix) (est : list Z)
  (asked : list Judge.query) :
  0 < N → last_row_free N cm asked → optimal maximize N cm est →
  optimal maximize N (take (Z.to_nat (N - 1)) cm) est.
Proof.
  intros HN (Hlen & Hrow & _) [Hest Hopt]. split; [done|]. intros p Hp.
  specialize (Hopt p Hp).
  assert (∀ e, (score cm e == score (take (Z.to_nat (N - 1)) cm) e)%Q) as Heq.
  { intros e. apply (score_last_row (Z.to_nat N)); [lia|done]. }
  destruct maximize; by rewrite <- !Heq.
Qed.

Lemma assignment_takes_leftover (N : Z) (est : list Z) :
  0 < N → assignment N est → takes_leftover N est.
Proof.
  intros HN Hest. unfold assignment in Hest.
  assert (length est = S (Z.to_nat (N - 1))) as Hlen.
  { rewrite Hest. unfold Py.range. rewrite length_seqZ. lia. }
  assert (NoDup est) as Hnd by (rewrite Hest; apply NoDup_seqZ).
  destruct (lookup_lt_is_Some_2 est (Z.to_nat (N - 1))) as [j Hj]; [lia|].
  exists j. split; [done|].
  pose proof (take_drop_middle est _ j Hj) as Hmid.
  rewrite (drop_ge est) in Hmid by lia.
  rewrite <- Hmid in Hnd. apply list.NoDup_app in Hnd as (_ & Hdisj & _).
  split.
  - intros Hin. apply (Hdisj j Hin). left.
  - intros j' Hj' Hnin.
    assert (j' ∈ est) as Hin by (rewrite Hest; by apply elem_of_range).
    rewrite <- Hmid in Hin. apply elem_of_app in Hin as [Hin|Hin]; [done|].
    by apply list_elem_of_singleton in Hin.
Qed.

(** *** The score matrices exist *)

Lemma one_point_cost_matrix_total (reply : nat → Z) (L N : Z)
  (landing_pos : list Pos.t) (temperature : field) (asked : list Judge.query) :
  episode L N landing_pos → shape L temperature → (∀ k, reply k ≠ -1) →
  ∃ cm asked',
    OnePointSolver.cost_matrix reply N landing_pos temperature asked = Ok (cm, asked')
    ∧ shape N cm.
Proof.
  intros Hep Hs Hr. pose proof Hep as (HL & HN & Hlen & _).
  unfold OnePointSolver.cost_matrix.
  apply (sfor_each_total (shape N)); [|apply square_matrix_shape; lia].
  intros i_in cm s Hi%elem_of_range Hcm. unfold sbind.
  destruct (average_total reply i_in 0 0 5 s Hr) as (a & s1 & ->); [done|].
  unfold lift.
  destruct (for_each_total (shape (A:=Q) N) (Py.enumerate landing_pos)
              (fun e cost_matrix =>
                 let '(i_out, pos) := e in
                 t <- get2 temperature (Pos.y pos) (Pos.x pos) ;;
                 set2 cost_matrix i_in i_out (Qabs (inject_Z t - a))))
    with (x := cm) as (cm' & -> & Hcm'); [|done|eauto].
  intros [i_out pos] cm1 [Hio Hpos]%elem_of_enumerate Hcm1.
  destruct (landing_in_grid L N landing_pos pos Hep) as [Hy Hx];
    [by eapply list_elem_of_lookup_2|].
  rewrite (get2_cell L) by done. simpl. apply set2_in_grid; [done|lia|lia].
Qed.

Lemma singular2_cost_matrix_total (reply : nat → Z) (N : Z)
  (distance : list (option SingularTemperature2.entry))
  (asked : list Judge.query) :
  Z.of_nat (length distance) = N → Forall is_Some distance →
  (∀ k, reply k ≠ -1) →
  ∃ cm asked',
    SingularSolver2.cost_matrix reply N distance asked = Ok (cm, asked')
    ∧ shape N cm.
Proof.
  intros Hlen Hsome Hr. unfold SingularSolver2.cost_matrix.
  apply (sfor_each_total (shape N)); [|apply square_matrix_shape; lia].
  intros i_in cm s Hi%elem_of_range Hcm.
  apply (sfor_each_total (shape N)); [|done].
  intros [i_out slot] cm1 s1 [Hio Hslot]%elem_of_enumerate Hcm1.
  unfold sbind, lift at 1.
  destruct (Forall_lookup_1 _ _ _ _ Hsome Hslot) as [[[dy dx] [dy2 dx2]] ->].
  simpl.
  destruct (get2_total N cm1 i_in i_out Hcm1) as [old Hold]; [lia|lia|].
  unfold lift at 1. rewrite Hold. rewrite !measure_total by done.
  destruct (set2_in_grid N cm1 i_in i_out
              (old + inject_Z (reply (length s1)
                               + reply (length (s1 ++ [(i_in, dy, dx)]))))%Q Hcm1)
    as (cm2 & Hset & Hcm2); [lia|lia|].
  unfold lift. rewrite Hset. eauto.
Qed.

(** ** C9: the last hidden index *)

(** C9: the score matrices of variant A and of variant C up to 71 sites are
    filled by queries on the hidden indices [0..N-2] only; their row [N-1]
    is still all zero when the Hungarian method receives them; hence an
    optimal assignment of the matrix is optimal on the rows [0..N-2], and
    gives the hidden index [N-1] the one column that these rows leave.  On
    an episode whose judge never replies [-1] both matrices are built. *)
Theorem last_hidden_index_unmeasured
  (linear_sum_assignment : matrix → bool → list Z) (reply : nat → Z)
  (L N S : Z) (landing_pos : list Pos.t) (temperature : field)
  (distance : list (option SingularTemperature2.entry)) :
  0 < N →
  (∀ cm asked,
     OnePointSolver.cost_matrix reply N landing_pos temperature [] = Ok (cm, asked) →
     OnePointSolver._predict linear_sum_assignment reply N landing_pos temperature []
     = Ok (linear_sum_assignment cm false, asked)
     ∧ Forall (fun q => 0 <= hidden_index q <= N - 2) asked
     ∧ cm !! Z.to_nat (N - 1) = Some (replicate (Z.to_nat N) 0%Q)
     ∧ (optimal false N cm (linear_sum_assignment cm false) →
        optimal false N (take (Z.to_nat (N - 1)) cm) (linear_sum_assignment cm false)
        ∧ takes_leftover N (linear_sum_assignment cm false)))
  ∧ (N <= 71 →
     ∀ cm asked,
       SingularSolver2.cost_matrix reply N distance [] = Ok (cm, asked) →
       SingularSolver2._predict linear_sum_assignment reply N S temperature distance []
       = Ok (linear_sum_assignment cm true, asked)
       ∧ Forall (fun q => 0 <= hidden_index q <= N - 2) asked
       ∧ cm !! Z.to_nat (N - 1) = Some (replicate (Z.to_nat N) 0%Q)
       ∧ (optimal true N cm (linear_sum_assignment cm true) →
          optimal true N (take (Z.to_nat (N - 1)) cm) (linear_sum_assignment cm true)
          ∧ takes_leftover N (linear_sum_assignment cm true)))
  ∧ (episode L N landing_pos → shape L temperature → (∀ k, reply k ≠ -1) →
     ∃ cm asked,
       OnePointSolver.cost_matrix reply N landing_pos temperature [] = Ok (cm, asked))
  ∧ (Z.of_nat (length distance) = N → Forall is_Some distance →
     (∀ k, reply k ≠ -1) →
     ∃ cm asked, SingularSolver2.cost_matrix reply N distance [] = Ok (cm, asked)).
Proof.
  intros HN. split_and!.
  - intros cm asked Hcm.
    pose proof (one_point_cost_matrix_inv _ _ _ _ _ _ HN Hcm) as Hinv.
    split; [unfold OnePointSolver._predict, sbind; by rewrite Hcm|].
    split; [apply Hinv|]. split; [apply Hinv|]. intros Hopt. split.
    + by eapply optimal_other_rows.
    + apply assignment_takes_leftover; [done | apply Hopt].
  - intros H71 cm asked Hcm.
    pose proof (singular2_cost_matrix_inv _ _ _ _ _ HN Hcm) as Hinv.
    split.
    { unfold SingularSolver2._predict. destruct (Z.leb_spec N 71); [|lia].
      unfold sbind. by rewrite Hcm. }
    split; [apply Hinv|]. split; [apply Hinv|]. intros Hopt. split.
    + by eapply optimal_other_rows.
    + apply assignment_takes_leftover; [done | apply Hopt].
  - intros Hep Hs Hr.
    destruct (one_point_cost_matrix_total reply L N landing_pos temperature []
                Hep Hs Hr) as (cm & asked & Hcm & _). eauto.
  - intros Hlen Hsome Hr.
    destruct (singular2_cost_matrix_total reply N distance [] Hlen Hsome Hr)
      as (cm & asked & Hcm & _). eauto.
Qed.

(** ** C2: the estimate of the threshold decoders *)

(** C2 fails on this run of variant B: three sites, [S = 144], hence the
    hotspot at 1000 and the threshold at 720, and the hidden index [i] at the
    site [i].  The two probes of the hotspot read 700 and 710, the four
    others 0: no round claims a site, the estimate keeps its initial zeros,
    and the forced last entry is the first unclaimed site, 0.  The estimate
    [0, 0, 0] is no bijection. *)
Theorem singular_predict_repeats_site :
  ∃ t distance,
    SingularTemperature.run 10 3 144 sites3 = Ok (t, distance)
    ∧ cell t 4 3 = 1000
    ∧ SingularSolver.threshold 144 = 720
    ∧ SingularSolver._predict reply_low 3 144 t distance []
      = Ok ([0; 0; 0],
            [(0, 2, 1); (0, -1, 2); (0, -3, -4);
             (1, 2, 1); (1, -1, 2); (1, -3, -4)])
    ∧ ¬ assignment 3 [0; 0; 0].
Proof.
  eexists _, _. split; [vm_compute; reflexivity|].
  split; [reflexivity|]. split; [reflexivity|].
  split; [vm_compute; reflexivity|].
  unfold assignment. intros Hperm.
  assert (1 ∈ [0; 0; 0]) as Hin by (rewrite Hperm; by apply elem_of_range).
  repeat (apply elem_of_cons in Hin as [Hin|Hin]; [done|]).
  by apply elem_of_nil in Hin.
Qed.

(** ** C4: the order of the probes *)

Lemma insert_by_Permutation {A : Type} (key : A → Z) (a : A) (l : list A) :
  Py.insert_by key a l ≡ₚ a :: l.
Proof.
  induction l as [|b l IH]; simpl; [done|].
  destruct (key a <=? key b); [done|]. rewrite IH. apply Permutation_swap.
Qed.

Lemma insert_by_sorted {A : Type} (key : A → Z) (a : A) (l : list A) :
  StronglySorted (fun u v => key u <= key v) l →
  StronglySorted (fun u v => key u <= key v) (Py.insert_by key a l).
Proof.
  induction 1 as [|b l Hl IH Hb]; simpl.
  - by repeat constructor.
  - destruct (Z.leb_spec (key a) (key b)).
    + constructor; [by constructor|]. constructor; [done|].
      revert Hb. apply Forall_impl. intros c. lia.
    + constructor; [done|]. rewrite insert_by_Permutation.
      constructor; [lia|done].
Qed.

Lemma sorted_sorted {A : Type} (key : A → Z) (l : list A) :
  StronglySorted (fun u v => key u <= key v) (Py.sorted key l).
Proof.
  unfold Py.sorted. induction l as [|a l IH]; simpl; [constructor|].
  by apply insert_by_sorted.
Qed.

(** [sorted] is stable: an element goes to the place of its stable rank. *)
Lemma filter_none {A : Type} (P : A → Prop) `{!∀ x, Decision (P x)} (l : list A) :
  Forall (fun x => ¬ P x) l → filter P l = [].
Proof.
  induction 1 as [|x l Hx Hl IH]; [done|]. by rewrite filter_cons_False.
Qed.

Lemma insert_by_lookup_new {A : Type} (key : A → Z) (a : A) (l : list A) :
  StronglySorted (fun u v => key u <= key v) l →
  Py.insert_by key a l !! length (filter (fun b => key b < key a) l) = Some a.
Proof.
  induction 1 as [|b l Hl IH Hb]; simpl; [done|].
  destruct (Z.leb_spec (key a) (key b)).
  - rewrite filter_cons_False by lia.
    assert (filter (fun b0 => key b0 < key a) l = []) as ->; [|done].
    apply filter_none. eapply list.Forall_impl; [exact Hb|].
    simpl. intros c. lia.
  - rewrite filter_cons_True by lia. simpl. exact IH.
Qed.

Lemma insert_by_lookup_old {A : Type} (key : A → Z) (a : A) (l : list A) :
  StronglySorted (fun u v => key u <= key v) l →
  ∀ (p : nat) (b : A), l !! p = Some b →
    Py.insert_by key a l !! (if key a <=? key b then S p else p) = Some b.
Proof.
  induction 1 as [|c l Hl IH Hc]; intros p b Hp; [done|]. simpl.
  destruct (Z.leb_spec (key a) (key c)) as [Hac|Hac].
  - assert (key a <= key b) as Hab.
    { destruct p as [|p]; simpl in Hp; [injection Hp as <-; lia|].
      pose proof (Forall_lookup_1 _ _ _ _ Hc Hp). simpl in *. lia. }
    destruct (Z.leb_spec (key a) (key b)); [done|lia].
  - destruct p as [|p]; simpl in Hp.
    + injection Hp as <-. by destruct (Z.leb_spec (key a) (key c)); [lia|].
    + specialize (IH p b Hp). by destruct (key a <=? key b).
Qed.

Lemma sorted_lookup_rank {A : Type} (key : A → Z) (l : list A) :
  ∀ (i : nat) (a : A), l !! i = Some a →
    Py.sorted key l !! stable_rank key l i a = Some a.
Proof.
  unfold stable_rank.
  induction l as [|a0 l IH]; intros i a Hi; [done|].
  change (Py.sorted key (a0 :: l)) with (Py.insert_by key a0 (Py.sorted key l)).
  destruct i as [|i]; simpl in Hi.
  - injection Hi as ->. rewrite filter_cons_False by lia. simpl.
    rewrite Nat.add_0_r.
    rewrite <- (sorted_Permutation key l) at 1.
    apply insert_by_lookup_new, sorted_sorted.
  - specialize (IH i a Hi).
    pose proof (insert_by_lookup_old key a0 (Py.sorted key l)
                  (sorted_sorted key l) _ a IH) as Hnew.
    rewrite firstn_cons.
    destruct (Z.leb_spec (key a0) (key a)) as [Hle|Hgt].
    + destruct (decide (key a0 < key a)).
      * rewrite filter_cons_True by done.
        rewrite (filter_cons_False (fun b => key b = key a)) by lia.
        simpl. exact Hnew.
      * rewrite filter_cons_False by done.
        rewrite (filter_cons_True (fun b => key b = key a)) by lia.
        simpl. by rewrite Nat.add_succ_r.
    + rewrite filter_cons_False by lia.
      rewrite (filter_cons_False (fun b => key b = key a)) by lia. exact Hnew.
Qed.

Lemma length_filter_fmap {A B : Type} (f : A → B) (P : B → Prop)
  `{!∀ b, Decision (P b)} (l : list A) :
  length (filter P (f <$> l)) = length (filter (fun a => P (f a)) l).
Proof.
  induction l as [|a l IH]; [done|]. rewrite fmap_cons.
  destruct (decide (P (f a))).
  - rewrite !filter_cons_True by done. simpl. by rewrite IH.
  - by rewrite !filter_cons_False by done.
Qed.

Lemma stable_rank_fmap {A B : Type} (f : A → B) (key : B → Z) (l : list A)
  (i : nat) (a : A) :
  stable_rank key (f <$> l) i (f a) = stable_rank (fun x => key (f x)) l i a.
Proof.
  unfold stable_rank. by rewrite <- fmap_take, !length_filter_fmap.
Qed.

(** [SingularSolver.probe] is a round over the unclaimed entries of
    [distance], in the order of [distance]. *)
Lemma singular_probe_round (reply : nat → Z) (S i_in : Z)
  (distance : list SingularTemperature.entry) :
  ∀ estimate visited_index asked vars' asked',
    SingularSolver.probe reply S i_in distance (estimate, visited_index) asked
    = Ok (vars', asked') →
    round reply (fun m => SingularSolver.threshold S <? m) i_in
      (unclaimed visited_index (candidate_B <$> distance))
      (estimate, visited_index) asked vars' asked'.
Proof.
  induction distance as [|[[i_out [dy dx]] d] rest IH];
    intros estimate visited_index asked vars' asked'.
  - simpl. unfold sret. intros [= <- <-]. constructor.
  - cbn [SingularSolver.probe]. unfold Py.memZ, unclaimed.
    rewrite fmap_cons. rewrite filter_cons. unfold candidate_B at 1. simpl.
    case_bool_decide as Hvis.
    + rewrite decide_False by tauto. apply IH.
    + rewrite decide_True by done. unfold sbind.
      destruct (Judge.measure reply i_in dy dx asked) as [[v asked1]|] eqn:Em;
        [|done].
      apply measure_ok in Em as [-> ->].
      assert (reading reply asked 1 = reply (length asked)) as Hread.
      { unfold reading. simpl. rewrite Nat.add_0_r. lia. }
      destruct (SingularSolver.threshold S <? reply (length asked)) eqn:Ethr.
      * unfold lift. destruct (Py.setitem estimate i_in i_out) as [est'|] eqn:Eset;
          [|done].
        unfold sret. intros [= <- <-].
        apply (round_claim reply _ i_in (i_out, [(dy, dx)])); [|done].
        simpl. by rewrite Hread.
      * intros Hrest.
        apply (round_next reply _ i_in (i_out, [(dy, dx)])).
        -- simpl. by rewrite Hread.
        -- by apply IH.
Qed.

Lemma enumerate_fmap {A B : Type} (f : A → B) (l : list A) :
  Py.enumerate (f <$> l) = (fun e => (fst e, f (snd e))) <$> Py.enumerate l.
Proof.
  unfold Py.enumerate. rewrite length_fmap. generalize 0.
  induction l as [|a l IH]; intros m; [done|].
  rewrite seqZ_cons by (simpl; lia).
  replace (Z.pred (Z.of_nat (length (a :: l)))) with (Z.of_nat (length l))
    by (simpl; lia).
  simpl. by rewrite IH.
Qed.


Lemma enumerate_length {A : Type} (l : list A) :
  length (Py.enumerate l) = length l.
Proof.
  unfold Py.enumerate. apply length_zip_with_r_eq. rewrite length_seqZ. lia.
Qed.

Lemma enumerate_lookup {A : Type} (l : list A) (i : nat) (a : A) :
  l !! i = Some a → Py.enumerate l !! i = Some (Z.of_nat i, a).
Proof.
  intros Hl. pose proof (lookup_lt_Some _ _ _ Hl) as Hlt.
  unfold Py.enumerate. apply lookup_zip_Some. split; [|done].
  by rewrite lookup_seqZ_lt by lia.
Qed.


(** [SingularSolver2.probe] is a round over the unclaimed sites, in the
    order of their indices. *)
Lemma singular2_probe_round (reply : nat → Z) (S i_in : Z)
  (entries : list (Z * SingularTemperature2.entry)) :
  ∀ estimate visited_index asked vars' asked',
    SingularSolver2.probe reply S i_in
      ((fun e => (fst e, Some (snd e))) <$> entries) (estimate, visited_index) asked
    = Ok (vars', asked') →
    round reply (fun m => 53 * S <? 10 * m) i_in
      (unclaimed visited_index (candidate_C <$> entries))
      (estimate, visited_index) asked vars' asked'.
Proof.
  induction entries as [|[i_out [[dy dx] [dy2 dx2]]] rest IH];
    intros estimate visited_index asked vars' asked'.
  - simpl. unfold sret. intros [= <- <-]. constructor.
  - rewrite fmap_cons. cbn [SingularSolver2.probe]. unfold Py.memZ, unclaimed.
    rewrite fmap_cons. rewrite filter_cons. unfold candidate_C at 1. simpl.
    unfold sbind at 1. unfold lift at 1.
    case_bool_decide as Hvis.
    + rewrite decide_False by tauto. apply IH.
    + rewrite decide_True by done. unfold sbind.
      destruct (Judge.measure reply i_in dy dx asked) as [[m asked1]|] eqn:Em;
        [|done].
      apply measure_ok in Em as [-> ->].
      destruct (Judge.measure reply i_in dy2 dx2 _) as [[m2 asked2]|] eqn:Em2;
        [|done].
      apply measure_ok in Em2 as [-> ->].
      rewrite length_app, <- app_assoc. simpl.
      assert (reading reply asked 2
              = reply (length asked) + reply (length asked + 1)%nat) as Hread.
      { unfold reading. simpl. rewrite Nat.add_0_r. lia. }
      destruct (53 * S <? _) eqn:Ethr.
      * unfold lift. destruct (Py.setitem estimate i_in i_out) as [est'|] eqn:Eset;
          [|done].
        unfold sret. intros [= <- <-].
        apply (round_claim reply _ i_in (i_out, [(dy, dx); (dy2, dx2)])); [|done].
        simpl. by rewrite Hread.
      * intros Hrest.
        apply (round_next reply _ i_in (i_out, [(dy, dx); (dy2, dx2)])).
        -- simpl. by rewrite Hread.
        -- by apply IH.
Qed.

(** C4 fails on this run of variant C, which [main] selects for [S = 169]
    and 72 sites: with the sites of [sites72] the hotspots are (7, 8) and
    (8, 8); site 0 lies at the offsets (7, 8) and (8, 8) from them, site 1 at
    (7, 6) and (8, 6), nearer to both; the round of hidden index 0 probes
    site 0 first, then site 1, which it claims.  [SingularTemperature2.run]
    computes no distance and does not sort its table, as
    [SingularTemperature.run] does. *)
Theorem singular2_probes_farther_site_first :
  ∃ t distance,
    SingularTemperature2.run 20 72 169 sites72 = Ok (t, distance)
    ∧ distance !! 0%nat = Some (Some ((7, 8), (8, 8)))
    ∧ distance !! 1%nat = Some (Some ((7, 6), (8, 6)))
    ∧ manhattan (7, 6) < manhattan (7, 8)
    ∧ manhattan (8, 6) < manhattan (8, 8)
    ∧ SingularSolver2.probe reply_late 169 0 (Py.enumerate distance)
        (replicate 72 0, []) []
      = Ok ((<[0%nat := 1]> (replicate 72 0), [1]),
            [(0, 7, 8); (0, 8, 8); (0, 7, 6); (0, 8, 6)]).
Proof.
  eexists _, _. split; [vm_compute; reflexivity|].
  split_and!; try done; vm_compute; reflexivity.
Qed.


(** ** When every round claims a site

    What the threshold decoders do achieve: if each of the [N - 1] rounds
    claims a site, the forced last entry completes a bijection. *)

Lemma round_result (reply : nat → Z) (exceeds : Z → bool) (i_in : Z)
  (cands : list candidate) (vars : list Z * list Z) (asked : list Judge.query)
  (vars' : list Z * list Z) (asked' : list Judge.query) :
  round reply exceeds i_in cands vars asked vars' asked' →
  vars' = vars
  ∨ ∃ c estimate', c ∈ cands
      ∧ Py.setitem (fst vars) i_in (fst c) = Ok estimate'
      ∧ vars' = (estimate', snd vars ++ [fst c]).
Proof.
  induction 1 as [vars asked | c rest est vis asked est' Hex Hset
                 | c rest vars asked vars' asked' Hex Hround IH].
  - by left.
  - right. exists c, est'. split; [left|]. done.
  - destruct IH as [-> | (c' & est' & Hin & Hset & ->)]; [by left|].
    right. exists c', est'. split; [by right|]. done.
Qed.

Lemma sfor_each_range_inv {St X : Type} (P : Z → X → Prop) (n : Z)
  (body : Z → X → state St X) :
  (∀ i x s x' s', 0 <= i < n → P i x → body i x s = Ok (x', s') → P (i + 1) x') →
  ∀ x s x' s', P 0 x → Py.sfor_each (Py.range n) body x s = Ok (x', s') →
    P (Z.max 0 n) x'.
Proof.
  intros Hbody x s x' s' HP. rewrite range_to_nat.
  assert (∀ (k : nat) m x s, 0 <= m → m + Z.of_nat k = Z.max 0 n → P m x →
            Py.sfor_each (seqZ m (Z.of_nat k)) body x s = Ok (x', s') →
            P (Z.max 0 n) x') as Hgen.
  { clear x s HP. induction k as [|k IH]; intros m x s Hm Hk HP.
    - simpl. unfold sret. intros [= <- <-]. by replace (Z.max 0 n) with m by lia.
    - rewrite seqZ_cons by lia.
      replace (Z.pred (Z.of_nat (S k))) with (Z.of_nat k) by lia.
      simpl. unfold sbind.
      destruct (body m x s) as [[x1 s1]|] eqn:Eb; [|done].
      apply IH; [lia|lia|].
      replace (Z.succ m) with (m + 1) by lia. eapply Hbody; [|done|done]. lia. }
  apply Hgen; [lia|lia|done].
Qed.

(** After the rounds of the hidden indices below [i]: the claimed sites are
    distinct sites, at most one a round, and when every round has claimed
    they are the first [i] entries of the estimate. *)
Lemma rounds_claimed (reply : nat → Z) (exceeds : Z → bool) (N : Z)
  (cands : list candidate)
  (probe : Z → list Z * list Z → state (list Judge.query) (list Z * list Z))
  (vars : list Z * list Z) (asked : list Judge.query) :
  (∀ c, c ∈ cands → 0 <= fst c < N) →
  (∀ i_in estimate visited_index s vars' s',
     probe i_in (estimate, visited_index) s = Ok (vars', s') →
     round reply exceeds i_in (unclaimed visited_index cands)
       (estimate, visited_index) s vars' s') →
  Py.sfor_each (Py.range (N - 1)) probe (replicate (Z.to_nat N) 0, []) []
  = Ok (vars, asked) →
  length (fst vars) = Z.to_nat N ∧ NoDup (snd vars)
  ∧ (∀ j, j ∈ snd vars → 0 <= j < N)
  ∧ (length (snd vars) ≤ Z.to_nat (Z.max 0 (N - 1)))%nat
  ∧ (length (snd vars) = Z.to_nat (Z.max 0 (N - 1)) →
     take (Z.to_nat (Z.max 0 (N - 1))) (fst vars) = snd vars).
Proof.
  intros Hsites Hprobe.
  apply (sfor_each_range_inv
           (fun i (v : list Z * list Z) =>
              length (fst v) = Z.to_nat N ∧ NoDup (snd v)
              ∧ (∀ j, j ∈ snd v → 0 <= j < N)
              ∧ (length (snd v) ≤ Z.to_nat i)%nat
              ∧ (length (snd v) = Z.to_nat i → take (Z.to_nat i) (fst v) = snd v))).
  - intros i [est vis] s v' s' Hi (Hlen & Hnd & Hin & Hle & Htake) Hp.
    simpl in *.
    apply Hprobe, round_result in Hp
      as [-> | (c & est' & Hc & Hset & ->)]; simpl.
    + split_and!; try done; lia.
    + apply list_elem_of_filter in Hc as [Hfresh Hc]. simpl in Hset.
      rewrite setitem_nonneg in Hset by lia. injection Hset as <-.
      split_and!.
      * by rewrite length_insert.
      * apply list.NoDup_app. split; [done|]. split; [|apply NoDup_singleton].
        intros j Hj Hj'%list_elem_of_singleton. by subst.
      * intros j [Hj | ->%list_elem_of_singleton]%elem_of_app; auto.
      * rewrite length_app. simpl. lia.
      * rewrite length_app. simpl. intros Hfull.
        replace (Z.to_nat (i + 1)) with (S (Z.to_nat i)) by lia.
        rewrite (take_S_r _ _ (fst c)) by (apply list_lookup_insert_eq; lia).
        rewrite take_insert_ge by done. rewrite Htake by lia. done.
  - simpl. split_and!; try done.
    + by rewrite length_replicate.
    + constructor.
    + intros j Hj. by apply elem_of_nil in Hj.
Qed.

Lemma force_last_bijection (N : Z) (estimate visited_index : list Z) :
  0 < N → length estimate = Z.to_nat N → NoDup visited_index →
  (∀ j, j ∈ visited_index → 0 <= j < N) →
  take (Z.to_nat (N - 1)) estimate = visited_index →
  length visited_index = Z.to_nat (N - 1) →
  ∃ estimate', force_last N estimate visited_index = Ok estimate'
               ∧ assignment N estimate'.
Proof.
  intros HN Hlen Hnd Hin Htake Hfull.
  pose proof (filter_app_complement (fun j => j ∈ visited_index) (Py.range N))
    as Hsplit. simpl in Hsplit.
  assert (filter (fun j => j ∈ visited_index) (Py.range N) ≡ₚ visited_index)
    as Hvis.
  { apply NoDup_Permutation; [apply list.NoDup_filter, NoDup_seqZ | done |].
    intros j. rewrite list_elem_of_filter, elem_of_range.
    split; [tauto|]. intros Hj. split; [done | by apply Hin]. }
  rewrite Hvis in Hsplit.
  assert (length (filter (fun j => j ∉ visited_index) (Py.range N)) = 1%nat)
    as Hone.
  { apply Permutation_length in Hsplit. rewrite length_app in Hsplit.
    unfold Py.range in Hsplit at 2. rewrite length_seqZ in Hsplit. lia. }
  destruct (filter (fun j => j ∉ visited_index) (Py.range N))
    as [|j [|? ?]] eqn:Erest; try done.
  unfold force_last. rewrite Erest. simpl.
  unfold Py.setitem, Py.norm_index.
  destruct (Z.leb_spec 0 (-1)); [lia|]. simpl.
  destruct (Z.leb_spec (- Z.of_nat (length estimate)) (-1)); [|lia]. simpl.
  eexists. split; [done|]. unfold assignment. rewrite <- Hsplit, <- Htake.
  replace (Z.to_nat (Z.of_nat (length estimate) + -1))
    with (Z.to_nat (N - 1)) by lia.
  assert (∃ v, estimate !! Z.to_nat (N - 1) = Some v) as [v Hv]
    by (apply lookup_lt_is_Some_2; lia).
  rewrite <- (take_drop_middle estimate _ v Hv) at 1.
  rewrite (drop_ge estimate) by lia.
  rewrite insert_app_r_alt by (rewrite length_take; lia).
  rewrite length_take.
  replace (Z.to_nat (N - 1) - Z.to_nat (N - 1) `min` length estimate)%nat
    with 0%nat by lia.
  done.
Qed.

(** X23: on variant B, when each round claims a site the estimate is a
    bijection. *)
Lemma singular_predict_bijection (reply : nat → Z) (L N S : Z)
  (landing_pos : list Pos.t) (t : field)
  (distance : list SingularTemperature.entry) (vars : list Z * list Z)
  (asked : list Judge.query) :
  episode L N landing_pos → 0 <= S →
  SingularTemperature.run L N S landing_pos = Ok (t, distance) →
  SingularSolver.rounds reply N S distance [] = Ok (vars, asked) →
  length (snd vars) = Z.to_nat (N - 1) →
  ∃ estimate,
    SingularSolver._predict reply N S t distance [] = Ok (estimate, asked)
    ∧ assignment N estimate.
Proof.
  intros Hep HS Hrun Hrounds Hfull. pose proof Hep as (_ & HN & Hlen & _).
  destruct (singular_run_total L N S landing_pos Hep HS)
    as (t' & y & x & _ & Hrun' & _).
  rewrite Hrun in Hrun'. injection Hrun' as _ Hdist.
  destruct (rounds_claimed reply (fun m => SingularSolver.threshold S <? m) N
              (candidate_B <$> distance)
              (fun i_in vars => SingularSolver.probe reply S i_in distance vars)
              vars asked) as (Hl & Hnd & Hin & _ & Htake).
  - intros c (e & -> & He)%list_elem_of_fmap. rewrite Hdist in He.
    rewrite sorted_Permutation in He.
    apply list_elem_of_fmap in He as ([i pos] & -> & [Hi _]%elem_of_enumerate).
    simpl. lia.
  - intros i_in estimate visited_index s vars' s'. apply singular_probe_round.
  - exact Hrounds.
  - replace (Z.max 0 (N - 1)) with (N - 1) in Htake by lia.
    destruct (force_last_bijection N (fst vars) (snd vars))
      as (estimate & Hforce & Hassign); try done; [by apply Htake|].
    exists estimate. split; [|done].
    unfold SingularSolver._predict, sbind. rewrite Hrounds.
    unfold lift. by rewrite Hforce.
Qed.

(** ** The theorems at concrete inputs *)

Lemma episode_sites3 : episode 10 3 sites3.
Proof.
  split; [lia|]. split; [lia|]. split; [reflexivity|].
  repeat constructor; simpl; lia.
Defined.

Lemma shape_field22 : shape 2 field22.
Proof. split; [reflexivity | repeat constructor]. Defined.

Lemma calc_placement_cost_spec_witness :
  shape 2 field22
  ∧ OptimizeTemperature._calc_placement_cost 2 field22 = Ok (smoothness 2 field22)
  ∧ 0 <= smoothness 2 field22
  ∧ (smoothness 2 field22 = 0 ↔ constant_field 2 field22).
Proof.
  split; [exact shape_field22|].
  apply (calc_placement_cost_spec 2 field22). exact shape_field22.
Defined.

Lemma designed_fields_in_range_witness :
  episode 10 3 sites3
  ∧ ∃ t vector k',
      AroundTemperature.run E_zero 10 3 4 sites3 1%nat 0%nat = Ok (t, vector, k')
      ∧ shape 10 t ∧ in_range t.
Proof.
  split; [exact episode_sites3|].
  exact (proj1 (proj2 (proj2 (proj2
           (designed_fields_in_range E_zero 10 3 4 sites3 1%nat 0%nat
              episode_sites3))))).
Defined.

Lemma optimize_keeps_prohibited_witness :
  shape 2 field22
  ∧ ∀ out k',
      OptimizeTemperature.optimize E_zero 2 field22 [(0, 0)] 3 1%nat 3%nat 0%nat
      = Ok (out, k') →
      ∀ i j, (i, j) ∈ [(0, 0)] → 0 <= i < 2 → 0 <= j < 2 →
        cell out i j = cell field22 i j.
Proof.
  split; [exact shape_field22|].
  exact (proj1 (optimize_keeps_prohibited E_zero 2 field22 [(0, 0)] 3 1%nat 3%nat
                  0%nat shape_field22)).
Defined.

Lemma cells22_all (i j : Z) : 0 <= i < 2 → 0 <= j < 2 → (i, j) ∈ cells22.
Proof.
  intros Hi Hj.
  assert (i = 0 ∨ i = 1) as [-> | ->] by lia;
    assert (j = 0 ∨ j = 1) as [-> | ->] by lia;
    unfold cells22; repeat (first [left | right]).
Defined.

Lemma optimize_nothing_permitted_witness :
  shape 2 field22
  ∧ (∀ i j, 0 <= i < 2 → 0 <= j < 2 → (i, j) ∈ cells22)
  ∧ OptimizeTemperature.permit_pos 2 cells22 = []
  ∧ OptimizeTemperature.optimize E_zero 2 field22 cells22 5 7%nat 3%nat 0%nat
    = Ok (field22, 0%nat).
Proof.
  split; [exact shape_field22|]. split; [exact cells22_all|].
  exact (optimize_nothing_permitted E_zero 2 field22 cells22 5 7%nat 3%nat 0%nat
           shape_field22 cells22_all).
Defined.

Lemma one_point_rand_sign_witness :
  episode 10 3 sites3
  ∧ OnePointTemperature.rand 3 < 0
  ∧ OnePointTemperature.run E_zero 10 3 sites3 1%nat 0%nat = Raise ValueError.
Proof.
  split; [exact episode_sites3|].
  destruct (one_point_rand_sign E_zero 10 3 sites3 1%nat 0%nat episode_sites3)
    as (_ & Hsmall & _).
  destruct Hsmall as (Hneg & Hraise & _); [lia|]. split; [exact Hneg|].
  destruct Hraise as [_ Hrun].
  - exists 0, 0. split; [lia|]. split; [lia|]. vm_compute.
    intros Hin. repeat (apply elem_of_cons in Hin as [Hin|Hin]; [discriminate|]).
    by apply elem_of_nil in Hin.
  - apply Hrun. lia.
Defined.


Lemma solver3_optimal : optimal false 3 scores3 (solver3 scores3 false).
Proof.
  split.
  - unfold assignment, solver3. apply Permutation_swap.
  - intros p Hp. unfold assignment in Hp. symmetry in Hp.
    apply (permutations_Permutation (Py.range 3) p) in Hp.
    vm_compute in Hp.
    repeat (apply elem_of_cons in Hp as [-> | Hp]; [by vm_compute|]).
    by apply elem_of_nil in Hp.
Qed.

Lemma last_hidden_index_unmeasured_witness :
  0 < 3
  ∧ ∃ cm asked,
      OnePointSolver.cost_matrix reply_zero 3 sites3 (zero_field 10) []
      = Ok (cm, asked)
      ∧ Forall (fun q => 0 <= hidden_index q <= 3 - 2) asked
      ∧ cm !! Z.to_nat (3 - 1) = Some (replicate (Z.to_nat 3) 0%Q).
Proof.
  split; [lia|].
  destruct (last_hidden_index_unmeasured solver3 reply_zero 10 3 4 sites3
              (zero_field 10) []) as (Hone & _ & Htotal & _); [lia|].
  destruct Htotal as (cm & asked & Hcm).
  - exact episode_sites3.
  - apply zero_field_shape. lia.
  - intros k. unfold reply_zero. lia.
  - exists cm, asked. destruct (Hone cm asked Hcm) as (_ & Hasked & Hrow & _).
    split; [exact Hcm|]. split; [exact Hasked | exact Hrow].
Defined.

(** * Further properties of the code *)

(** ** The optimizer *)

Lemma set2_get2_id {A : Type} (t : list (list A)) (i j : Z) (v : A) :
  get2 t i j = Ok v → set2 t i j v = Ok t.
Proof.
  unfold get2, set2, Py.getitem, Py.setitem.
  destruct (Py.norm_index (length t) i) as [ni|]; [simpl|done].
  destruct (t !! ni) as [row|] eqn:Hrow; [simpl|done].
  destruct (Py.norm_index (length row) j) as [nj|]; [simpl|done].
  destruct (row !! nj) as [a|] eqn:Ha; [|done].
  intros [= ->]. by rewrite (list_insert_id row), (list_insert_id t).
Qed.

Lemma repeatM_nothing {St X : Type} (body : X → state St X) (n : nat) (x : X) (s : St) :
  Py.repeatM n (Py.repeatM 0 body) x s = Ok (x, s).
Proof. induction n as [|n IH]; simpl; [done|]. unfold sbind, sret. simpl. apply IH. Qed.

(** X1: [optimize] returns a field of the dimensions of the field it was
    given. *)
Theorem optimize_keeps_shape (E : Random.entropy) (L : Z) (t : field)
  (prohibit_pos : list (Z * Z)) (rand : Z) (runs levels : nat) (k : nat)
  (out : field) (k' : nat) :
  shape L t →
  OptimizeTemperature.optimize E L t prohibit_pos rand runs levels k = Ok (out, k') →
  shape L out.
Proof.
  intros Hs. apply (optimize_stable E L (shape L)); [apply stable_shape | done].
Qed.

(** X2: when the clock has run out before the first test of the time limit,
    or when [T_start] is not above [T_end], [optimize] returns the field it
    was given and draws no random number. *)
Theorem optimize_without_rounds (E : Random.entropy) (L : Z) (t : field)
  (prohibit_pos : list (Z * Z)) (rand : Z) (runs levels : nat) (k : nat) :
  shape L t →
  OptimizeTemperature.optimize E L t prohibit_pos rand 0 levels k = Ok (t, k)
  ∧ OptimizeTemperature.optimize E L t prohibit_pos rand runs 0 k = Ok (t, k).
Proof.
  intros Hs. unfold OptimizeTemperature.optimize, sbind, lift.
  rewrite calc_placement_cost_eq by done.
  destruct (_ =? _)%nat; [done|]. split; [done|].
  by rewrite repeatM_nothing.
Qed.

(** What every perturbation of the run keeps, [optimize] keeps. *)
Lemma optimize_inv (E : Random.entropy) (L : Z) (P : field → Prop)
  (t : field) (prohibit_pos : list (Z * Z)) (rand : Z) (runs levels : nat)
  (k : nat) (out : field) (k' : nat) :
  (∀ x s x' s', P x →
     OptimizeTemperature.perturb E (OptimizeTemperature.permit_pos L prohibit_pos)
       rand x s = Ok (x', s') → P x') →
  P t →
  OptimizeTemperature.optimize E L t prohibit_pos rand runs levels k = Ok (out, k') →
  P out.
Proof.
  intros HP Ht. unfold OptimizeTemperature.optimize, sbind, lift.
  destruct (OptimizeTemperature._calc_placement_cost L t) as [c|]; [|done].
  destruct (_ =? _)%nat; [by intros [= <- <-]|].
  destruct (Py.repeatM runs _ _ k) as [[best k1]|] eqn:Eruns; [|done].
  intros [= <- <-]. revert Eruns.
  apply (repeatM_ok (fun best => P (fst best))); [|done].
  intros x s x' s' Hx. apply (repeatM_ok (fun best => P (fst best))); [|done].
  clear -HP. intros [bt bc] s [bt' bc'] s' Hbt. simpl in *.
  unfold OptimizeTemperature.anneal, sbind.
  destruct (Random.randint E 1 20 s) as [[n k1]|]; [|done].
  destruct (Py.repeatM _ _ bt k1) as [[new k2]|] eqn:Erep; [|done].
  assert (P new) as Hnew by (revert Erep; by apply (repeatM_ok P)).
  unfold lift.
  destruct (OptimizeTemperature._calc_placement_cost L new) as [c'|]; [|done].
  destruct (c' - bc <? 0); [by intros [= <- <-]|].
  unfold Random.metropolis.
  destruct (Random.coin E k2); by intros [= <- <-].
Qed.

(** With [rand = 0] a perturbation adds 0 to a cell and clamps it. *)
Lemma perturb_rand_zero (E : Random.entropy) (L : Z)
  (prohibit_pos : list (Z * Z)) (t : field) (k : nat) (t' : field) (k' : nat) :
  shape L t → in_range t →
  OptimizeTemperature.perturb E (OptimizeTemperature.permit_pos L prohibit_pos)
    0 t k = Ok (t', k') →
  t' = t.
Proof.
  intros Hs Hr. unfold OptimizeTemperature.perturb, sbind, Random.choice.
  destruct (_ !! _) as [[i j]|] eqn:Ep; [|done].
  apply list_elem_of_lookup_2, elem_of_permit_pos in Ep as (Hi & Hj & _).
  pose proof (cell_within L 1000 t i j Hs Hr Hi Hj) as Hc.
  pose proof (get2_cell L t i j Hs Hi Hj) as Hg.
  unfold lift at 1. rewrite Hg. unfold Random.randint. simpl.
  rewrite Z.mod_1_r, Z.add_0_r. unfold lift at 1.
  rewrite (set2_get2_id t i j) by done. unfold lift at 1. rewrite Hg.
  replace (Z.max 0 (Z.min 1000 (cell t i j))) with (cell t i j) by lia.
  unfold lift. rewrite (set2_get2_id t i j) by done. by intros [= <- _].
Qed.

Lemma optimize_rand_zero (E : Random.entropy) (L : Z) (t : field)
  (prohibit_pos : list (Z * Z)) (runs levels : nat) (k : nat) :
  shape L t → in_range t →
  ∃ k', OptimizeTemperature.optimize E L t prohibit_pos 0 runs levels k = Ok (t, k').
Proof.
  intros Hs Hr.
  destruct (optimize_total E L t prohibit_pos 0 runs levels k Hs)
    as (out & k' & Hopt & _); [done|].
  exists k'. rewrite Hopt. do 2 f_equal.
  revert Hopt.
  apply (optimize_inv E L (fun x => x = t)); [|done].
  intros x s x' s' ->. by apply perturb_rand_zero.
Qed.

(** X3: with [rand = 0] the annealing changes nothing: on a field of
    [L x L] cells of [0..1000], [optimize] returns the field it was given,
    whatever the random module and the clock do. *)
Theorem optimize_rand_zero_returns_input (E : Random.entropy) (L : Z) (t : field)
  (prohibit_pos : list (Z * Z)) (runs levels : nat) (k : nat) :
  shape L t → in_range t →
  ∃ k', OptimizeTemperature.optimize E L t prohibit_pos 0 runs levels k = Ok (t, k').
Proof. apply optimize_rand_zero. Qed.

(** X4: variant A sets [rand = N // 20 - 2], which is 0 for the episodes of
    40 to 59 sites: there [run] returns its designed field as it is. *)
Theorem one_point_run_unannealed (E : Random.entropy) (L N : Z)
  (landing_pos : list Pos.t) (runs : nat) (k : nat) :
  episode L N landing_pos → 40 <= N <= 59 →
  OnePointTemperature.rand N = 0
  ∧ ∃ t k', OnePointTemperature.design L N landing_pos = Ok t
            ∧ OnePointTemperature.run E L N landing_pos runs k = Ok (t, k').
Proof.
  intros Hep HN.
  assert (OnePointTemperature.rand N = 0) as Hrand.
  { unfold OnePointTemperature.rand.
    assert (N / 20 = 2); [|lia].
    symmetry. apply (Z.div_unique N 20 2 (N - 40)); lia. }
  split; [done|].
  destruct (one_point_design_total L N landing_pos Hep) as (t & Hd & Hs & Hw).
  destruct (optimize_rand_zero E L t (OnePointTemperature.prohibit_pos landing_pos)
              runs levels_100_01_01 k Hs) as [k' Hopt].
  { eapply cells_within_mono; [|done]. lia. }
  exists t, k'. split; [done|].
  unfold OnePointTemperature.run, sbind, lift. by rewrite Hd, Hrand.
Qed.

(** ** The fields of variants B and C *)

Lemma zero_field_cell (L i j : Z) :
  0 <= i < L → 0 <= j < L → cell (zero_field L) i j = 0.
Proof.
  intros Hi Hj.
  pose proof (cell_within L 0 (zero_field L) i j) as H.
  destruct H; [apply zero_field_shape|apply zero_field_within|..]; lia.
Qed.

Lemma singular_run_eq (L N S : Z) (landing_pos : list Pos.t) :
  episode L N landing_pos →
  ∃ t y x,
    centroid N landing_pos = Ok (y, x) ∧ 0 <= y < L ∧ 0 <= x < L
    ∧ set2 (zero_field L) y x (Z.min 1000 (10 * S)) = Ok t
    ∧ SingularTemperature.run L N S landing_pos
      = Ok (t, Py.sorted snd
                 ((fun e => (fst e, (y - Pos.y (snd e), x - Pos.x (snd e)),
                             Z.abs (y - Pos.y (snd e)) + Z.abs (x - Pos.x (snd e))))
                  <$> Py.enumerate landing_pos)).
Proof.
  intros Hep. pose proof Hep as (HL & HN & Hlen & _).
  destruct (centroid_total L N landing_pos Hep) as (y & x & Hc & Hy & Hx).
  destruct (set2_in_grid L (zero_field L) y x (Z.min 1000 (10 * S)))
    as (t & Hset & _); [apply zero_field_shape; lia|done..|].
  exists t, y, x. do 4 (split; [done|]).
  unfold SingularTemperature.run. rewrite Hc. simpl. rewrite Hset. simpl.
  rewrite fill_slots_total by done. simpl. by rewrite filled_Some.
Qed.

Lemma singular2_run_eq (L N S : Z) (landing_pos : list Pos.t) :
  episode L N landing_pos →
  ∃ t1 t y x,
    centroid N landing_pos = Ok (y, x) ∧ 0 <= y < L ∧ 0 <= x < L
    ∧ set2 (zero_field L) y x (Z.min 1000 (10 * S)) = Ok t1
    ∧ set2 t1 ((y + 1) mod L) x (Z.min 1000 (10 * S)) = Ok t
    ∧ SingularTemperature2.run L N S landing_pos
      = Ok (t, Some <$> ((fun e => ((y - Pos.y (snd e), x - Pos.x (snd e)),
                                    ((y + 1) mod L - Pos.y (snd e), x - Pos.x (snd e))))
                         <$> Py.enumerate landing_pos)).
Proof.
  intros Hep. pose proof Hep as (HL & HN & Hlen & _).
  destruct (centroid_total L N landing_pos Hep) as (y & x & Hc & Hy & Hx).
  destruct (set2_in_grid L (zero_field L) y x (Z.min 1000 (10 * S)))
    as (t1 & Hset1 & Hs1); [apply zero_field_shape; lia|done..|].
  assert (0 <= (y + 1) mod L < L) as Hy1 by (apply Z.mod_pos_bound; lia).
  destruct (set2_in_grid L t1 ((y + 1) mod L) x (Z.min 1000 (10 * S)))
    as (t & Hset & _); [done..|].
  exists t1, t, y, x. do 5 (split; [done|]).
  unfold SingularTemperature2.run. rewrite Hc. simpl. rewrite Hset1. simpl.
  rewrite modulo_pos by done. simpl. rewrite Hset. simpl.
  by rewrite fill_slots_total by done.
Qed.

(** X5: the field of variant B is 0 everywhere but on one cell, the floor of
    the mean of the sites, which holds [min(1000, 10 * S)]. *)
Theorem singular_field_one_hotspot (L N S : Z) (landing_pos : list Pos.t) :
  episode L N landing_pos →
  ∃ t distance y x,
    SingularTemperature.run L N S landing_pos = Ok (t, distance)
    ∧ y = foldr Z.add 0 (Pos.y <$> landing_pos) / N
    ∧ x = foldr Z.add 0 (Pos.x <$> landing_pos) / N
    ∧ 0 <= y < L ∧ 0 <= x < L
    ∧ shape L t
    ∧ ∀ i j, 0 <= i < L → 0 <= j < L →
        cell t i j = if decide ((i, j) = (y, x)) then Z.min 1000 (10 * S) else 0.
Proof.
  intros Hep. pose proof Hep as (HL & HN & _).
  destruct (singular_run_eq L N S landing_pos Hep)
    as (t & y & x & Hc & Hy & Hx & Hset & Hrun).
  eexists t, _, y, x. split; [exact Hrun|].
  unfold centroid, Py.floordiv in Hc.
  destruct (Z.eqb_spec N 0) as [|_]; [lia|]. simpl in Hc.
  injection Hc as <- <-. split_and!; try done; try lia.
  - eapply set2_shape; [|exact Hset]. apply zero_field_shape. lia.
  - intros i j Hi Hj. case_decide as Heq.
    + injection Heq as -> ->. eapply set2_cell_same; [exact Hset|lia..].
    + rewrite (set2_cell_other _ _ _ _ _ _ _ Hset) by (done || lia).
      by apply zero_field_cell.
Qed.

(** X6: the field of variant C is 0 everywhere but on two cells, the floor
    of the mean of the sites and its toroidal lower neighbour, which hold
    [min(1000, 10 * S)]. *)
Theorem singular2_field_two_hotspots (L N S : Z) (landing_pos : list Pos.t) :
  episode L N landing_pos →
  ∃ t distance y x,
    SingularTemperature2.run L N S landing_pos = Ok (t, distance)
    ∧ y = foldr Z.add 0 (Pos.y <$> landing_pos) / N
    ∧ x = foldr Z.add 0 (Pos.x <$> landing_pos) / N
    ∧ 0 <= y < L ∧ 0 <= x < L
    ∧ shape L t
    ∧ ∀ i j, 0 <= i < L → 0 <= j < L →
        cell t i j = if decide ((i, j) = (y, x) ∨ (i, j) = ((y + 1) mod L, x))
                     then Z.min 1000 (10 * S) else 0.
Proof.
  intros Hep. pose proof Hep as (HL & HN & _).
  destruct (singular2_run_eq L N S landing_pos Hep)
    as (t1 & t & y & x & Hc & Hy & Hx & Hset1 & Hset & Hrun).
  assert (0 <= (y + 1) mod L < L) as Hy1 by (apply Z.mod_pos_bound; lia).
  eexists t, _, y, x. split; [exact Hrun|].
  unfold centroid, Py.floordiv in Hc.
  destruct (Z.eqb_spec N 0) as [|_]; [lia|]. simpl in Hc.
  injection Hc as Hyeq Hxeq. split_and!; try done; try lia.
  - eapply set2_shape; [|exact Hset]. eapply set2_shape; [|exact Hset1].
    apply zero_field_shape. lia.
  - intros i j Hi Hj.
    destruct (decide ((i, j) = ((y + 1) mod L, x))) as [Heq|Hne].
    + rewrite decide_True by by right. injection Heq as -> ->.
      eapply set2_cell_same; [exact Hset|lia..].
    + rewrite (set2_cell_other _ _ _ _ _ _ _ Hset) by (done || lia).
      case_decide as Heq.
      * destruct Heq as [Heq|]; [|done]. injection Heq as -> ->.
        eapply set2_cell_same; [exact Hset1|lia..].
      * rewrite (set2_cell_other _ _ _ _ _ _ _ Hset1) by (lia || tauto).
        by apply zero_field_cell.
Qed.

(** X7: in the table of variant B every entry [[i_out, [dy, dx], [d]]]
    belongs to a site, and its offset leads from that site to the hotspot: a
    measurement of the site [i_out] at [(dy, dx)] reads the cell that holds
    [min(1000, 10 * S)]. *)
Theorem singular_offsets_reach_hotspot (L N S : Z) (landing_pos : list Pos.t) :
  episode L N landing_pos →
  ∃ t distance y x,
    SingularTemperature.run L N S landing_pos = Ok (t, distance)
    ∧ centroid N landing_pos = Ok (y, x)
    ∧ ∀ i_out dy dx d, (i_out, (dy, dx), d) ∈ distance →
        ∃ pos, 0 <= i_out < N ∧ landing_pos !! Z.to_nat i_out = Some pos
               ∧ target L pos (dy, dx) = (y, x)
               ∧ cell t ((Pos.y pos + dy) mod L) ((Pos.x pos + dx) mod L)
                 = Z.min 1000 (10 * S).
Proof.
  intros Hep. pose proof Hep as (HL & HN & Hlen & _).
  destruct (singular_run_eq L N S landing_pos Hep)
    as (t & y & x & Hc & Hy & Hx & Hset & Hrun).
  eexists t, _, y, x. split; [exact Hrun|]. split; [done|].
  intros i_out dy dx d. rewrite sorted_Permutation.
  intros ([i pos] & [= -> -> -> ->] & [Hi Hpos]%elem_of_enumerate)%list_elem_of_fmap.
  simpl. exists pos. split; [lia|]. split; [done|].
  replace (Pos.y pos + (y - Pos.y pos)) with y by lia.
  replace (Pos.x pos + (x - Pos.x pos)) with x by lia.
  unfold target. simpl.
  replace (Pos.y pos + (y - Pos.y pos)) with y by lia.
  replace (Pos.x pos + (x - Pos.x pos)) with x by lia.
  rewrite !Z.mod_small by done. split; [done|].
  eapply set2_cell_same; [exact Hset|lia..].
Qed.

(** X8: in the table of variant C the slot of every site is filled, and its
    two offsets lead from the site to the two hotspots: both measurements
    of a site at its own offsets read [min(1000, 10 * S)]. *)
Theorem singular2_offsets_reach_hotspots (L N S : Z) (landing_pos : list Pos.t) :
  episode L N landing_pos →
  ∃ t distance y x,
    SingularTemperature2.run L N S landing_pos = Ok (t, distance)
    ∧ centroid N landing_pos = Ok (y, x)
    ∧ length distance = length landing_pos
    ∧ ∀ i pos, landing_pos !! i = Some pos →
        ∃ d d2, distance !! i = Some (Some (d, d2))
                ∧ target L pos d = (y, x)
                ∧ target L pos d2 = ((y + 1) mod L, x)
                ∧ cell t (fst (target L pos d)) (snd (target L pos d))
                  = Z.min 1000 (10 * S)
                ∧ cell t (fst (target L pos d2)) (snd (target L pos d2))
                  = Z.min 1000 (10 * S).
Proof.
  intros Hep. pose proof Hep as (HL & HN & Hlen & _).
  destruct (singular2_run_eq L N S landing_pos Hep)
    as (t1 & t & y & x & Hc & Hy & Hx & Hset1 & Hset & Hrun).
  assert (0 <= (y + 1) mod L < L) as Hy1 by (apply Z.mod_pos_bound; lia).
  eexists t, _, y, x. split; [exact Hrun|]. split; [done|].
  split; [by rewrite !length_fmap, enumerate_length|].
  intros i pos Hpos. eexists _, _.
  split.
  { rewrite !list_lookup_fmap, (enumerate_lookup _ _ _ Hpos). simpl. reflexivity. }
  unfold target. simpl.
  replace (Pos.y pos + (y - Pos.y pos)) with y by lia.
  replace (Pos.x pos + (x - Pos.x pos)) with x by lia.
  replace (Pos.y pos + ((y + 1) mod L - Pos.y pos)) with ((y + 1) mod L) by lia.
  rewrite Z.mod_mod by lia. rewrite !Z.mod_small by done.
  split; [done|]. split; [done|]. split.
  - destruct (decide ((y, x) = ((y + 1) mod L, x))) as [Heq|Hne].
    + injection Heq as Heq. rewrite Heq.
      eapply set2_cell_same; [exact Hset|lia..].
    + rewrite (set2_cell_other _ _ _ _ _ _ _ Hset) by (done || lia).
      eapply set2_cell_same; [exact Hset1|lia..].
  - eapply set2_cell_same; [exact Hset|lia..].
Qed.

(** ** The queries of the decoders *)

Lemma told_nil (reply : nat → Z) (s : list Judge.query) : told reply s [] s.
Proof. split; [by rewrite app_nil_r|]. lia. Qed.

Lemma told_app (reply : nat → Z) (s qs s1 qs1 s2 : list Judge.query) :
  told reply s qs s1 → told reply s1 qs1 s2 → told reply s (qs ++ qs1) s2.
Proof.
  intros [-> H1] [-> H2]. split; [by rewrite app_assoc|].
  intros k Hk. destruct (decide (k < length (s ++ qs))%nat).
  - apply H1. lia.
  - apply H2. lia.
Qed.

Lemma measure_told (reply : nat → Z) (i y x : Z) (s : list Judge.query)
  (v : Z) (s' : list Judge.query) :
  Judge.measure reply i y x s = Ok (v, s') → told reply s [(i, y, x)] s'.
Proof.
  unfold Judge.measure. destruct (Z.eqb_spec (reply (length s)) (-1)); [done|].
  intros [= _ <-]. split; [done|]. intros k. rewrite length_app. simpl.
  intros Hk. by replace k with (length s) by lia.
Qed.

Lemma lift_state {St A : Type} (r : result A) (s : St) (a : A) (s' : St) :
  lift r s = Ok (a, s') → r = Ok a ∧ s' = s.
Proof. unfold lift. destruct r; [|done]. by intros [= -> ->]. Qed.

(** A loop whose round for [a] prints the queries [f a]. *)
Lemma sfor_each_told {A X : Type} (reply : nat → Z) (l : list A)
  (f : A → list Judge.query) (body : A → X → state (list Judge.query) X) :
  (∀ a x s x' s', a ∈ l → body a x s = Ok (x', s') → told reply s (f a) s') →
  ∀ x s x' s', Py.sfor_each l body x s = Ok (x', s') →
    told reply s (a ← l; f a) s'.
Proof.
  induction l as [|a l IH]; intros Hbody x s x' s'; cbn [Py.sfor_each].
  - intros [= _ <-]. apply told_nil.
  - unfold sbind. destruct (body a x s) as [[x1 s1]|] eqn:E1; [|done].
    intros Hrest. rewrite bind_cons. eapply told_app; [eapply Hbody; [left|exact E1]|].
    eapply IH; [|exact Hrest]. intros a' y t y' t' Ha'. apply Hbody. by right.
Qed.

Lemma bind_replicate {A : Type} (l : list Z) (q : A) :
  (_ ← l; [q]) = replicate (length l) q.
Proof. induction l as [|a l IH]; [done|]. rewrite bind_cons, IH. done. Qed.

Lemma length_bind_const {A B : Type} (l : list A) (f : A → list B) (c : nat) :
  (∀ a, a ∈ l → length (f a) = c) → length (a ← l; f a) = (c * length l)%nat.
Proof.
  induction l as [|a l IH]; intros Hf; [simpl; lia|].
  rewrite bind_cons, length_app, IH, Hf; [simpl; lia|left|]. intros a' Ha'. apply Hf. by right.
Qed.

Lemma length_range (n : Z) : length (Py.range n) = Z.to_nat n.
Proof. unfold Py.range. apply length_seqZ. Qed.

Lemma average_told (reply : nat → Z) (i y x n : Z) (s : list Judge.query)
  (a : Q) (s' : list Judge.query) :
  Judge.average reply i y x n s = Ok (a, s') →
  told reply s (replicate (Z.to_nat n) (i, y, x)) s' ∧ n ≠ 0.
Proof.
  unfold Judge.average, sbind.
  destruct (Py.sfor_each _ _ _ s) as [[total s1]|] eqn:Eloop; [|done].
  destruct (Z.eqb_spec n 0); [done|]. intros [= _ <-]. split; [|done].
  rewrite <- length_range, <- bind_replicate.
  revert Eloop. apply sfor_each_told.
  intros _ tot u tot' u' _. unfold sbind.
  destruct (Judge.measure reply i y x u) as [[v u1]|] eqn:Em; [|done].
  intros [= _ <-]. by eapply measure_told.
Qed.

Lemma one_point_cost_matrix_told (reply : nat → Z) (N : Z)
  (landing_pos : list Pos.t) (temperature : field) (s : list Judge.query)
  (cm : matrix) (s' : list Judge.query) :
  OnePointSolver.cost_matrix reply N landing_pos temperature s = Ok (cm, s') →
  told reply s (i ← Py.range (N - 1); replicate 5 (i, 0, 0)) s'.
Proof.
  unfold OnePointSolver.cost_matrix. apply sfor_each_told.
  intros i_in cm0 u cm1 u1 _. unfold sbind.
  destruct (Judge.average reply i_in 0 0 5 u) as [[a u2]|] eqn:Ea; [|done].
  intros [_ ->]%lift_state. by apply average_told in Ea as [Ea _].
Qed.

(** X9: the decoder of variant A prints 5 queries for each of the hidden
    indices [0..N-2], in this order and all at the offset [(0, 0)]; none for
    the last hidden index; and it returns only if no reply was [-1]. *)
Theorem one_point_predict_queries
  (linear_sum_assignment : matrix → bool → list Z) (reply : nat → Z) (N : Z)
  (landing_pos : list Pos.t) (temperature : field) (estimate : list Z)
  (asked : list Judge.query) :
  OnePointSolver._predict linear_sum_assignment reply N landing_pos temperature []
  = Ok (estimate, asked) →
  asked = (i ← Py.range (N - 1); replicate 5 (i, 0, 0))
  ∧ length asked = (5 * Z.to_nat (N - 1))%nat
  ∧ ∀ k, (k < length asked)%nat → reply k ≠ -1.
Proof.
  unfold OnePointSolver._predict, sbind.
  destruct (OnePointSolver.cost_matrix _ _ _ _ _) as [[cm s]|] eqn:Ecm; [|done].
  intros [= _ <-]. apply one_point_cost_matrix_told in Ecm as [-> Hr].
  simpl. split; [done|]. split.
  - rewrite (length_bind_const _ _ 5), length_range; [done|].
    by intros a _.
  - intros k Hk. apply Hr. simpl in *. lia.
Qed.

Lemma bind_zip_snd {A B C : Type} (f : B → list C) (l : list B) :
  ∀ xs : list A, (length l ≤ length xs)%nat →
    (e ← zip xs l; f (snd e)) = (a ← l; f a).
Proof.
  induction l as [|a l IH]; intros [|x xs] Hlen; simpl in Hlen; try done; try lia.
  cbn [zip_with]. rewrite !bind_cons. cbn [snd]. by rewrite IH by lia.
Qed.

(** The two queries of an entry of the table of variant C. *)
Lemma singular2_cost_matrix_told (reply : nat → Z) (N : Z)
  (entries : list SingularTemperature2.entry) (s : list Judge.query)
  (cm : matrix) (s' : list Judge.query) :
  SingularSolver2.cost_matrix reply N (Some <$> entries) s = Ok (cm, s') →
  told reply s (i ← Py.range (N - 1); e ← entries;
                [(i, fst (fst e), snd (fst e)); (i, fst (snd e), snd (snd e))]) s'.
Proof.
  unfold SingularSolver2.cost_matrix. apply sfor_each_told.
  intros i_in cm0 u cm1 u1 _ Hin.
  rewrite <- (bind_zip_snd (A := Z) (fun e =>
     [(i_in, fst (fst e), snd (fst e)); (i_in, fst (snd e), snd (snd e))])
     entries (seqZ 0 (Z.of_nat (length (Some <$> entries)))));
    [|unfold SingularTemperature2.entry; rewrite length_seqZ, length_fmap; lia].
  revert Hin. unfold Py.enumerate.
  generalize (seqZ 0 (Z.of_nat (length (Some <$> entries)))) as xs.
  revert cm0 u. induction entries as [|e entries IH]; intros cm0 u xs.
  { rewrite fmap_nil, !zip_with_nil_r. simpl. intros [= _ <-]. apply told_nil. }
  destruct xs as [|i_out xs]; [simpl; intros [= _ <-]; apply told_nil|].
  rewrite fmap_cons. cbn [zip_with Py.sfor_each]. rewrite bind_cons.
  unfold sbind at 1. unfold sbind at 1. unfold lift at 1. simpl.
  destruct e as [[dy dx] [dy2 dx2]]. simpl.
  unfold sbind at 1. unfold lift at 1.
  destruct (get2 cm0 i_in i_out) as [old|]; [|done].
  unfold sbind at 1.
  destruct (Judge.measure reply i_in dy dx u) as [[m u2]|] eqn:Em; [|done].
  unfold sbind at 1.
  destruct (Judge.measure reply i_in dy2 dx2 u2) as [[m2 u3]|] eqn:Em2; [|done].
  unfold lift at 1. destruct (set2 cm0 i_in i_out _) as [cm2|]; [|done].
  intros Hrest. apply IH in Hrest.
  apply measure_told in Em. apply measure_told in Em2.
  apply (told_app reply u [(i_in, dy, dx); (i_in, dy2, dx2)] u3 _ u1);
    [|exact Hrest].
  by apply (told_app reply u [(i_in, dy, dx)] u2 [(i_in, dy2, dx2)] u3).
Qed.

(** X10: up to 71 sites the decoder of variant C prints, for each of the
    hidden indices [0..N-2] and each site in the order of the input, the two
    queries of the site: [2 * N * (N - 1)] queries, at most 9940. *)
Theorem singular2_assignment_queries
  (linear_sum_assignment : matrix → bool → list Z) (reply : nat → Z) (N S : Z)
  (temperature : field) (entries : list SingularTemperature2.entry)
  (estimate : list Z) (asked : list Judge.query) :
  N <= 71 → Z.of_nat (length entries) = N →
  SingularSolver2._predict linear_sum_assignment reply N S temperature
    (Some <$> entries) [] = Ok (estimate, asked) →
  asked = (i ← Py.range (N - 1); e ← entries;
           [(i, fst (fst e), snd (fst e)); (i, fst (snd e), snd (snd e))])
  ∧ Z.of_nat (length asked) = 2 * N * Z.max 0 (N - 1)
  ∧ Z.of_nat (length asked) <= 9940
  ∧ ∀ k, (k < length asked)%nat → reply k ≠ -1.
Proof.
  intros HN Hlen. unfold SingularSolver2._predict.
  destruct (Z.leb_spec N 71); [|lia]. unfold sbind.
  destruct (SingularSolver2.cost_matrix _ _ _ _) as [[cm s]|] eqn:Ecm; [|done].
  intros [= _ <-]. apply singular2_cost_matrix_told in Ecm as [-> Hr].
  cbn [app length] in *.
  split; [done|]. unfold Judge.query in *.
  match goal with
  | |- Z.of_nat (length ?qs) = _ ∧ _ =>
      assert (length qs = (2 * length entries * Z.to_nat (N - 1))%nat) as Hcount
  end.
  { rewrite <- length_range. apply length_bind_const.
    intros i _. by apply length_bind_const. }
  rewrite Hcount. split; [nia|]. split; [nia|].
  intros k Hk. apply Hr. lia.
Qed.

(** *** Variant D *)

Lemma around_direction_cases (N S : Z) :
  (AroundSolver.Around N S = 3 ∧ AroundSolver.direction N S = square_offsets 1)
  ∨ (AroundSolver.Around N S = 5 ∧ AroundSolver.direction N S = square_offsets 2).
Proof.
  unfold AroundSolver.Around, AroundSolver.direction, around_init.
  destruct (S <? 625); [destruct (_ && _)|]; simpl; auto.
Qed.

Lemma around_direction_length (N S : Z) :
  Z.of_nat (length (AroundSolver.direction N S)) = AroundSolver.Around N S ^ 2.
Proof. by destruct (around_direction_cases N S) as [[-> ->]|[-> ->]]. Qed.

Lemma around_cost_matrix_told (reply : nat → Z) (N S : Z)
  (landing_pos : list Pos.t) (vector : list (list Z)) (s : list Judge.query)
  (cm : matrix) (s' : list Judge.query) :
  AroundSolver.cost_matrix reply N S landing_pos vector s = Ok (cm, s') →
  ∃ m, AroundSolver.measure_count N S = Ok m
       ∧ told reply s
           (i ← Py.range N; block (Z.to_nat m) (AroundSolver.direction N S) i) s'
       ∧ (0 < N → m ≠ 0).
Proof.
  unfold AroundSolver.cost_matrix. unfold sbind at 1. unfold lift at 1.
  destruct (AroundSolver.measure_count N S) as [m|]; [|done].
  intros Hloop. exists m. split; [done|]. split.
  - revert Hloop. apply sfor_each_told.
    intros i_in cm0 u cm1 u1 _. unfold sbind at 1.
    destruct (Py.sfor_each (AroundSolver.direction N S) _ _ u)
      as [[mv u2]|] eqn:Emv; [|done].
    intros [_ ->]%lift_state. revert Emv. unfold block. apply sfor_each_told.
    intros d mv0 v mv1 v1 _. unfold sbind.
    destruct (Judge.average reply i_in (fst d) (snd d) m v) as [[a v2]|] eqn:Ea;
      [|done].
    intros [= _ <-]. by apply average_told in Ea as [Ea _].
  - intros HN ->. revert Hloop.
    assert (Py.range N = 0 :: seqZ 1 (N - 1)) as ->.
    { unfold Py.range. rewrite (seqZ_cons 0 N) by lia. do 2 f_equal; lia. }
    assert (∃ d rest, AroundSolver.direction N S = d :: rest) as (d & rest & ->).
    { destruct (around_direction_cases N S) as [[_ ->]|[_ ->]]; by eexists _, _. }
    cbn [Py.sfor_each]. unfold sbind at 1. unfold sbind at 1.
    by unfold sbind at 1.
Qed.

Lemma around_budget (N A m : Z) :
  0 < N → 0 < A → m = 10000 / N / A → N * A * m <= 10000.
Proof.
  intros HN HA ->.
  pose proof (Z.mul_div_le (10000 / N) A HA).
  pose proof (Z.mul_div_le 10000 N HN).
  assert (0 <= 10000 / N) by (apply Z.div_pos; lia).
  assert (0 <= 10000 / N / A) by (apply Z.div_pos; lia).
  nia.
Qed.

(** X11: the decoder of variant D prints, for each hidden index [0..N-1] and
    each offset of its neighbourhood in turn, [measure_count] queries at
    that offset: [N * Around ** 2 * measure_count] queries, never more than
    10000. *)
Theorem around_predict_queries
  (linear_sum_assignment : matrix → bool → list Z) (reply : nat → Z) (N S : Z)
  (landing_pos : list Pos.t) (temperature : field) (vector : list (list Z))
  (estimate : list Z) (asked : list Judge.query) :
  0 < N →
  AroundSolver._predict linear_sum_assignment reply N S landing_pos temperature
    vector [] = Ok (estimate, asked) →
  ∃ m, AroundSolver.measure_count N S = Ok m ∧ 0 < m
       ∧ asked = (i ← Py.range N;
                  block (Z.to_nat m) (AroundSolver.direction N S) i)
       ∧ Z.of_nat (length asked) = N * AroundSolver.Around N S ^ 2 * m
       ∧ Z.of_nat (length asked) <= 10000
       ∧ ∀ k, (k < length asked)%nat → reply k ≠ -1.
Proof.
  intros HN. unfold AroundSolver._predict, sbind.
  destruct (AroundSolver.cost_matrix _ _ _ _ _ _) as [[cm s]|] eqn:Ecm; [|done].
  intros [= _ <-].
  apply around_cost_matrix_told in Ecm as (m & Hm & [-> Hr] & Hm0).
  specialize (Hm0 HN). exists m.
  assert (m = 10000 / N / AroundSolver.Around N S ^ 2) as Hmeq.
  { revert Hm. unfold AroundSolver.measure_count, Py.floordiv.
    destruct (Z.eqb_spec N 0); [lia|]. simpl.
    destruct (Z.eqb_spec (AroundSolver.Around N S ^ 2) 0); [done|].
    by intros [= <-]. }
  assert (0 < AroundSolver.Around N S ^ 2) as HA
    by (destruct (around_direction_cases N S) as [[-> _]|[-> _]]; lia).
  assert (0 <= m).
  { rewrite Hmeq. apply Z.div_pos; [|lia]. apply Z.div_pos; lia. }
  pose proof (around_budget N _ m HN HA Hmeq) as Hb.
  cbn [app length] in *. split; [done|]. split; [lia|]. split; [done|].
  unfold Judge.query in *.
  match goal with
  | |- Z.of_nat (length ?qs) = _ ∧ _ =>
      assert (length qs = (Z.to_nat m * length (AroundSolver.direction N S)
                           * length (Py.range N))%nat) as Hcount
  end.
  { apply length_bind_const.
    intros i _. unfold block. apply length_bind_const.
    intros d _. by rewrite length_replicate. }
  rewrite Hcount in Hr |- *. rewrite length_range in Hr |- *.
  pose proof (around_direction_length N S) as Hd.
  assert (Z.of_nat (Z.to_nat m * length (AroundSolver.direction N S) * Z.to_nat N)
          = N * AroundSolver.Around N S ^ 2 * m) as ->.
  { rewrite !Nat2Z.inj_mul, Hd, !Z2Nat.id by lia. lia. }
  split; [done|]. split; [done|]. intros k Hk. apply Hr. lia.
Qed.

(** X12: when [10000 // N // Around ** 2] is 0, which it is above 400 sites
    with the 5 x 5 neighbourhood and above 1111 sites with the 3 x 3 one,
    the decoder of variant D divides by zero in its first average. *)
Theorem around_predict_zero_count
  (linear_sum_assignment : matrix → bool → list Z) (reply : nat → Z) (N S : Z)
  (landing_pos : list Pos.t) (temperature : field) (vector : list (list Z))
  (asked : list Judge.query) :
  0 < N → 10000 / N < AroundSolver.Around N S ^ 2 →
  AroundSolver.measure_count N S = Ok 0
  ∧ AroundSolver._predict linear_sum_assignment reply N S landing_pos temperature
      vector asked = Raise ZeroDivisionError.
Proof.
  intros HN Hlt.
  assert (0 < AroundSolver.Around N S ^ 2) as HA
    by (destruct (around_direction_cases N S) as [[-> _]|[-> _]]; lia).
  assert (AroundSolver.measure_count N S = Ok 0) as Hm.
  { unfold AroundSolver.measure_count, Py.floordiv.
    destruct (Z.eqb_spec N 0); [lia|]. simpl.
    destruct (Z.eqb_spec (AroundSolver.Around N S ^ 2) 0); [lia|].
    f_equal. apply Z.div_small. split; [apply Z.div_pos; lia|done]. }
  split; [done|].
  unfold AroundSolver._predict, sbind.
  destruct (AroundSolver.cost_matrix _ _ _ _ _ _) as [[cm s]|e] eqn:Ecm.
  - apply around_cost_matrix_told in Ecm as (m & Hm' & _ & Hm0).
    rewrite Hm in Hm'. injection Hm' as <-. by destruct (Hm0 HN).
  - revert Ecm. unfold AroundSolver.cost_matrix. unfold sbind at 1.
    rewrite Hm. unfold lift at 1.
    assert (Py.range N = 0 :: seqZ 1 (N - 1)) as ->.
    { unfold Py.range. rewrite (seqZ_cons 0 N) by lia. do 2 f_equal; lia. }
    assert (∃ d rest, AroundSolver.direction N S = d :: rest) as (d & rest & ->).
    { destruct (around_direction_cases N S) as [[_ ->]|[_ ->]]; by eexists _, _. }
    cbn [Py.sfor_each]. unfold sbind at 1. unfold sbind at 1.
    unfold sbind at 1. simpl. by intros [= <-].
Qed.

(** ** The threshold decoders *)

(** A loop over [range(n)] whose invariant depends on the index and on the
    state. *)
Lemma sfor_each_range_state_total {St X : Type} (P : Z → X → St → Prop) (n : Z)
  (body : Z → X → state St X) :
  (∀ i x s, 0 <= i < n → P i x s →
     ∃ x' s', body i x s = Ok (x', s') ∧ P (i + 1) x' s') →
  ∀ x s, P 0 x s →
    ∃ x' s', Py.sfor_each (Py.range n) body x s = Ok (x', s')
             ∧ P (Z.max 0 n) x' s'.
Proof.
  intros Hbody x s HP. rewrite range_to_nat.
  assert (∀ (k : nat) m x s, 0 <= m → m + Z.of_nat k = Z.max 0 n → P m x s →
            ∃ x' s', Py.sfor_each (seqZ m (Z.of_nat k)) body x s = Ok (x', s')
                     ∧ P (Z.max 0 n) x' s') as Hgen.
  { clear x s HP. induction k as [|k IH]; intros m x s Hm Hk HP.
    - simpl. unfold sret. replace (Z.max 0 n) with m by lia. eauto.
    - rewrite seqZ_cons by lia.
      replace (Z.pred (Z.of_nat (S k))) with (Z.of_nat k) by lia.
      simpl. unfold sbind.
      destruct (Hbody m x s) as (x1 & s1 & -> & HP1); [lia|done|].
      apply IH; [lia|lia|]. by replace (Z.succ m) with (m + 1) by lia. }
  apply Hgen; [lia|lia|done].
Qed.

(** The queries of a round: they carry its hidden index, and there are at
    most [w] of them for each candidate. *)
Lemma round_asked (reply : nat → Z) (exceeds : Z → bool) (i_in : Z) (w : nat)
  (cands : list candidate) (vars : list Z * list Z) (asked : list Judge.query)
  (vars' : list Z * list Z) (asked' : list Judge.query) :
  round reply exceeds i_in cands vars asked vars' asked' →
  (∀ c, c ∈ cands → (length (snd c) ≤ w)%nat) →
  ∃ qs, asked' = asked ++ qs
        ∧ Forall (fun q => hidden_index q = i_in) qs
        ∧ (length qs ≤ w * length cands)%nat.
Proof.
  assert (∀ c : candidate, Forall (fun q => hidden_index q = i_in)
                             (queries_of i_in c)) as Hq.
  { intros c. unfold queries_of. apply Forall_fmap. by apply Forall_true. }
  assert (∀ c : candidate, length (queries_of i_in c) = length (snd c)) as Hl.
  { intros c. unfold queries_of. by rewrite length_fmap. }
  induction 1 as [vars asked | c rest est vis asked est' Hex Hset
                 | c rest vars asked vars' asked' Hex Hround IH]; intros Hw.
  - exists []. split; [by rewrite app_nil_r|]. split; [done|]. simpl. lia.
  - exists (queries_of i_in c). split; [done|]. split; [done|].
    rewrite Hl. specialize (Hw c). simpl. pose proof (Hw ltac:(left)). nia.
  - destruct IH as (qs & -> & Hqs & Hlen); [intros c' Hc'; apply Hw; by right|].
    exists (queries_of i_in c ++ qs). split; [by rewrite app_assoc|].
    split; [apply Forall_app; by split|].
    rewrite length_app, Hl. pose proof (Hw c ltac:(left)). simpl. nia.
Qed.

(** The rounds of a threshold decoder return, whatever the readings are, as
    long as no reply is [-1]. *)
Lemma rounds_total (reply : nat → Z) (exceeds : Z → bool) (N : Z) (w : nat)
  (cands : list candidate)
  (probe : Z → list Z * list Z → state (list Judge.query) (list Z * list Z)) :
  0 < N →
  (∀ c, c ∈ cands → 0 <= fst c < N ∧ (length (snd c) ≤ w)%nat) →
  (∀ i_in estimate visited_index s,
     0 <= i_in < Z.of_nat (length estimate) →
     ∃ vars' s', probe i_in (estimate, visited_index) s = Ok (vars', s')) →
  (∀ i_in estimate visited_index s vars' s',
     probe i_in (estimate, visited_index) s = Ok (vars', s') →
     round reply exceeds i_in (unclaimed visited_index cands)
       (estimate, visited_index) s vars' s') →
  ∃ vars asked,
    Py.sfor_each (Py.range (N - 1)) probe (replicate (Z.to_nat N) 0, []) []
    = Ok (vars, asked)
    ∧ length (fst vars) = Z.to_nat N ∧ valid_sites N (fst vars)
    ∧ NoDup (snd vars) ∧ valid_sites N (snd vars)
    ∧ (length (snd vars) ≤ Z.to_nat (N - 1))%nat
    ∧ (length asked ≤ Z.to_nat (N - 1) * (w * length cands))%nat
    ∧ Forall (fun q => 0 <= hidden_index q <= N - 2) asked.
Proof.
  intros HN Hcands Htotal Hround.
  destruct (sfor_each_range_state_total
              (fun i (v : list Z * list Z) (s : list Judge.query) =>
                 length (fst v) = Z.to_nat N ∧ valid_sites N (fst v)
                 ∧ NoDup (snd v) ∧ valid_sites N (snd v)
                 ∧ (length (snd v) ≤ Z.to_nat i)%nat
                 ∧ (length s ≤ Z.to_nat i * (w * length cands))%nat
                 ∧ Forall (fun q => 0 <= hidden_index q <= N - 2) s)
              (N - 1) probe) with (x := (replicate (Z.to_nat N) 0, @nil Z))
                                  (s := @nil Judge.query)
    as (vars & asked & Hloop & Hinv).
  - intros i [est vis] s Hi (Hlen & Hest & Hnd & Hvis & Hle & Hs & Hidx).
    simpl in *.
    destruct (Htotal i est vis s) as (vars' & s' & Hp); [lia|].
    exists vars', s'. split; [done|].
    pose proof (Hround _ _ _ _ _ _ Hp) as Hr.
    destruct (round_asked _ _ _ w _ _ _ _ _ Hr) as (qs & -> & Hqs & Hqlen).
    { intros c [_ Hc]%list_elem_of_filter. by destruct (Hcands c Hc). }
    assert (length (unclaimed vis cands) ≤ length cands)%nat
      by apply length_filter.
    assert (length (s ++ qs) ≤ Z.to_nat (i + 1) * (w * length cands))%nat.
    { rewrite length_app. replace (Z.to_nat (i + 1)) with (S (Z.to_nat i)) by lia.
      nia. }
    assert (Forall (fun q => 0 <= hidden_index q <= N - 2) (s ++ qs)).
    { apply Forall_app. split; [done|]. eapply list.Forall_impl; [exact Hqs|].
      simpl. intros q ->. lia. }
    apply round_result in Hr as [-> | (c & est' & Hc & Hset & ->)]; simpl.
    + split_and!; try done. lia.
    + apply list_elem_of_filter in Hc as [Hfresh Hc]. simpl in Hset.
      rewrite setitem_nonneg in Hset by lia. injection Hset as <-.
      destruct (Hcands c Hc) as [Hrange _].
      split_and!; try done.
      * by rewrite length_insert.
      * apply Forall_insert; done.
      * apply list.NoDup_app. split; [done|]. split; [|apply NoDup_singleton].
        intros j Hj Hj'%list_elem_of_singleton. by subst.
      * apply Forall_app. split; [done|]. by apply Forall_singleton.
      * rewrite length_app. simpl. lia.
  - simpl. split_and!;
      first [ done | by rewrite length_replicate | apply Forall_replicate; lia
            | constructor | lia ].
  - exists vars, asked. split; [done|].
    replace (Z.max 0 (N - 1)) with (N - 1) in Hinv by lia. done.
Qed.

(** The last statement of the threshold decoders finds a site to write. *)
Lemma force_last_total (N : Z) (estimate visited_index : list Z) :
  0 < N → length estimate = Z.to_nat N → valid_sites N estimate →
  NoDup visited_index → valid_sites N visited_index →
  (length visited_index ≤ Z.to_nat (N - 1))%nat →
  ∃ estimate', force_last N estimate visited_index = Ok estimate'
               ∧ length estimate' = Z.to_nat N ∧ valid_sites N estimate'.
Proof.
  intros HN Hlen Hest Hnd Hvis Hle. unfold force_last.
  destruct (filter (fun i => i ∉ visited_index) (Py.range N)) as [|rest l] eqn:Ef.
  { exfalso.
    assert (Py.range N ⊆+ visited_index) as Hsub.
    { apply NoDup_submseteq; [apply NoDup_seqZ|].
      intros i Hi. destruct (decide (i ∈ visited_index)) as [|Hni]; [done|].
      assert (i ∈ filter (fun i => i ∉ visited_index) (Py.range N)) as Hin
        by by apply list_elem_of_filter.
      rewrite Ef in Hin. by apply elem_of_nil in Hin. }
    apply submseteq_length in Hsub. rewrite length_range in Hsub. lia. }
  assert (0 <= rest < N) as Hrest.
  { apply elem_of_range.
    assert (rest ∈ filter (fun i => i ∉ visited_index) (Py.range N)) as Hin
      by (rewrite Ef; left).
    by apply list_elem_of_filter in Hin as [_ Hin]. }
  simpl. unfold Py.setitem, Py.norm_index.
  destruct (Z.leb_spec 0 (-1)); [lia|]. simpl.
  destruct (Z.leb_spec (- Z.of_nat (length estimate)) (-1)); [|lia].
  simpl. eexists. split; [done|]. split; [by rewrite length_insert|].
  by apply Forall_insert.
Qed.

Lemma singular_probe_total (reply : nat → Z) (S i_in : Z)
  (distance : list SingularTemperature.entry) :
  (∀ k, reply k ≠ -1) →
  ∀ estimate visited_index s, 0 <= i_in < Z.of_nat (length estimate) →
    ∃ vars' s', SingularSolver.probe reply S i_in distance
                  (estimate, visited_index) s = Ok (vars', s').
Proof.
  intros Hr. induction distance as [|[[i_out [dy dx]] d] rest IH];
    intros est vis s Hi; simpl.
  - unfold sret. eauto.
  - destruct (Py.memZ i_out vis); [by apply IH|].
    unfold sbind. rewrite measure_total by done.
    destruct (_ <? _); [|by apply IH].
    unfold lift. rewrite setitem_nonneg by done. unfold sret. eauto.
Qed.

Lemma singular2_probe_total (reply : nat → Z) (S i_in : Z)
  (entries : list (Z * SingularTemperature2.entry)) :
  (∀ k, reply k ≠ -1) →
  ∀ estimate visited_index s, 0 <= i_in < Z.of_nat (length estimate) →
    ∃ vars' s', SingularSolver2.probe reply S i_in
                  ((fun e => (fst e, Some (snd e))) <$> entries)
                  (estimate, visited_index) s = Ok (vars', s').
Proof.
  intros Hr. induction entries as [|[i_out [[dy dx] [dy2 dx2]]] rest IH];
    intros est vis s Hi.
  - simpl. unfold sret. eauto.
  - rewrite fmap_cons. cbn [SingularSolver2.probe fst snd].
    unfold sbind at 1. unfold lift at 1. simpl.
    destruct (Py.memZ i_out vis); [by apply IH|].
    unfold sbind. rewrite !measure_total by done.
    destruct (_ <? _); [|by apply IH].
    unfold lift. rewrite setitem_nonneg by done. unfold sret. eauto.
Qed.

(** What a threshold decoder returns once its rounds and its candidates are
    given. *)
Lemma threshold_decoder_total (reply : nat → Z) (exceeds : Z → bool) (N : Z)
  (w : nat) (cands : list candidate)
  (probe : Z → list Z * list Z → state (list Judge.query) (list Z * list Z)) :
  0 < N →
  (∀ c, c ∈ cands → 0 <= fst c < N ∧ (length (snd c) ≤ w)%nat) →
  (∀ i_in estimate visited_index s,
     0 <= i_in < Z.of_nat (length estimate) →
     ∃ vars' s', probe i_in (estimate, visited_index) s = Ok (vars', s')) →
  (∀ i_in estimate visited_index s vars' s',
     probe i_in (estimate, visited_index) s = Ok (vars', s') →
     round reply exceeds i_in (unclaimed visited_index cands)
       (estimate, visited_index) s vars' s') →
  ∃ estimate asked,
    (vars <~ Py.sfor_each (Py.range (N - 1)) probe (replicate (Z.to_nat N) 0, []) ;;
     lift (force_last N (fst vars) (snd vars))) [] = Ok (estimate, asked)
    ∧ length estimate = Z.to_nat N ∧ valid_sites N estimate
    ∧ (length asked ≤ Z.to_nat (N - 1) * (w * length cands))%nat
    ∧ Forall (fun q => 0 <= hidden_index q <= N - 2) asked.
Proof.
  intros HN Hcands Htotal Hround.
  destruct (rounds_total reply exceeds N w cands probe HN Hcands Htotal Hround)
    as ([est vis] & asked & Hloop & Hlen & Hest & Hnd & Hvis & Hle & Hasked & Hidx).
  simpl in *.
  destruct (force_last_total N est vis HN Hlen Hest Hnd Hvis Hle)
    as (est' & Hforce & Hlen' & Hest').
  exists est', asked. unfold sbind. rewrite Hloop. simpl.
  unfold lift. rewrite Hforce. done.
Qed.

(** X13: for noise levels [1 < S < 169] [main] runs variant B, and as long
    as the judge never replies [-1] it returns: it publishes an [L x L] field
    of cells of [0..1000] and answers with [N] indices of sites, after at
    most [N * (N - 1)] queries, none of them for the last hidden index. *)
Theorem main_singular_returns (E : Random.entropy)
  (linear_sum_assignment : matrix → bool → list Z) (reply : nat → Z)
  (runs : nat) (L N S : Z) (landing_pos : list Pos.t) :
  episode L N landing_pos → 1 < S < 169 → (∀ k, reply k ≠ -1) →
  ∃ o, main E linear_sum_assignment reply runs L N S landing_pos = Ok o
       ∧ shape L (published o) ∧ in_range (published o)
       ∧ length (answered o) = Z.to_nat N ∧ valid_sites N (answered o)
       ∧ Z.of_nat (length (asked o)) <= N * (N - 1)
       ∧ Forall (fun q => 0 <= hidden_index q <= N - 2) (asked o).
Proof.
  intros Hep HS Hr. pose proof Hep as (HL & HN & Hlen & _).
  assert (main_solver S N = Singular) as Hsel.
  { unfold main_solver. destruct (Z.eqb_spec S 1); [lia|].
    by destruct (Z.ltb_spec 1 S), (Z.ltb_spec S 169); try lia. }
  destruct (singular_run_total L N S landing_pos Hep) as
    (t & y & x & _ & Hrun & Hshape & Hrange); [lia|].
  set (distance := Py.sorted snd _) in Hrun.
  destruct (threshold_decoder_total reply
              (fun m => SingularSolver.threshold S <? m) N 1
              (candidate_B <$> distance)
              (fun i_in vars => SingularSolver.probe reply S i_in distance vars))
    as (estimate & asked & Hpredict & Hl & Hv & Hcount & Hidx); [done|..].
  - intros c (e & -> & He)%list_elem_of_fmap. unfold distance in He.
    rewrite sorted_Permutation in He.
    apply list_elem_of_fmap in He as ([i pos] & -> & [Hi _]%elem_of_enumerate).
    simpl. split; lia.
  - intros. by apply singular_probe_total.
  - intros. by apply singular_probe_round.
  - exists {| published := t; asked := asked; answered := estimate |}.
    unfold main. rewrite Hsel. unfold solve. rewrite Hrun. simpl.
    unfold SingularSolver._predict, SingularSolver.rounds. rewrite Hpredict.
    simpl. split; [done|]. split_and!; try done.
    assert (length (candidate_B <$> distance) = Z.to_nat N) as Hcands.
    { unfold distance.
      rewrite length_fmap, sorted_Permutation, length_fmap, enumerate_length. lia. }
    rewrite Hcands in Hcount. nia.
Qed.

(** X14: for [169 <= S < 289] and at least 72 sites [main] runs the
    threshold decoder of variant C, and as long as the judge never replies
    [-1] it returns: it publishes an [L x L] field of cells of [0..1000] and
    answers with [N] indices of sites, after at most [2 * N * (N - 1)]
    queries, none of them for the last hidden index. *)
Theorem main_singular2_threshold_returns (E : Random.entropy)
  (linear_sum_assignment : matrix → bool → list Z) (reply : nat → Z)
  (runs : nat) (L N S : Z) (landing_pos : list Pos.t) :
  episode L N landing_pos → 169 <= S < 289 → 72 <= N → (∀ k, reply k ≠ -1) →
  ∃ o, main E linear_sum_assignment reply runs L N S landing_pos = Ok o
       ∧ shape L (published o) ∧ in_range (published o)
       ∧ length (answered o) = Z.to_nat N ∧ valid_sites N (answered o)
       ∧ Z.of_nat (length (asked o)) <= 2 * N * (N - 1)
       ∧ Forall (fun q => 0 <= hidden_index q <= N - 2) (asked o).
Proof.
  intros Hep HS HN72 Hr. pose proof Hep as (HL & HN & Hlen & _).
  assert (main_solver S N = Singular2) as Hsel.
  { unfold main_solver. destruct (Z.eqb_spec S 1); [lia|].
    by destruct (Z.ltb_spec 1 S), (Z.ltb_spec S 169), (Z.leb_spec 169 S),
      (Z.ltb_spec S 289); try lia. }
  destruct (singular2_run_total L N S landing_pos Hep) as
    (t & y & x & _ & Hrun & Hshape & Hrange); [lia|].
  set (entries := _ <$> Py.enumerate landing_pos) in Hrun.
  assert (length entries = Z.to_nat N) as Hents
    by (unfold entries; rewrite length_fmap, enumerate_length; lia).
  clearbody entries.
  destruct (threshold_decoder_total reply (fun m => 53 * S <? 10 * m) N 2
              (candidate_C <$> Py.enumerate entries)
              (fun i_in vars =>
                 SingularSolver2.probe reply S i_in
                   (Py.enumerate (Some <$> entries)) vars))
    as (estimate & asked & Hpredict & Hl & Hv & Hcount & Hidx); [done|..].
  - intros c ([i e] & -> & [Hi _]%elem_of_enumerate)%list_elem_of_fmap.
    unfold SingularTemperature2.entry in *. simpl. split; lia.
  - intros. rewrite enumerate_fmap. by apply singular2_probe_total.
  - intros i_in est vis s vars' s'. rewrite enumerate_fmap.
    by apply singular2_probe_round.
  - exists {| published := t; asked := asked; answered := estimate |}.
    unfold main. rewrite Hsel. unfold solve. rewrite Hrun. simpl.
    unfold SingularSolver2._predict, SingularSolver2.rounds.
    destruct (Z.leb_spec N 71); [lia|].
    unfold SingularTemperature2.entry in *. rewrite Hpredict.
    simpl. split; [done|]. split_and!; try done.
    rewrite length_fmap, enumerate_length, Hents in Hcount. nia.
Qed.

(** ** Variant B on readings without noise *)

Lemma sfor_each_extends {St A X : Type} (R : St → St → Prop) `{!PreOrder R}
  (l : list A) (body : A → X → state St X) :
  (∀ a x s x' s', body a x s = Ok (x', s') → R s s') →
  ∀ x s x' s', Py.sfor_each l body x s = Ok (x', s') → R s s'.
Proof.
  intros Hbody. induction l as [|a l IH]; intros x s x' s'; simpl.
  - by intros [= _ <-].
  - unfold sbind. destruct (body a x s) as [[x1 s1]|] eqn:E1; [|done].
    intros Hrest. etrans; [by eapply Hbody|by eapply IH].
Qed.

(** A loop over [range(n)] whose rounds only extend the state: the
    invariant of a round may rely on the state in which the loop ends. *)
Lemma sfor_each_range_inv_final {St X : Type} (R : St → St → Prop)
  `{!PreOrder R} (P : Z → X → Prop) (n : Z) (body : Z → X → state St X)
  (fin : St) :
  (∀ i x s x' s', body i x s = Ok (x', s') → R s s') →
  (∀ i x s x' s', 0 <= i < n → P i x → body i x s = Ok (x', s') → R s' fin →
     P (i + 1) x') →
  ∀ x s x', P 0 x → Py.sfor_each (Py.range n) body x s = Ok (x', fin) →
    P (Z.max 0 n) x'.
Proof.
  intros Hext Hbody x s x' HP. rewrite range_to_nat.
  assert (∀ (k : nat) m x s, 0 <= m → m + Z.of_nat k = Z.max 0 n → P m x →
            Py.sfor_each (seqZ m (Z.of_nat k)) body x s = Ok (x', fin) →
            P (Z.max 0 n) x') as Hgen.
  { clear x s HP. induction k as [|k IH]; intros m x s Hm Hk HP.
    - simpl. unfold sret. intros [= <- _]. by replace (Z.max 0 n) with m by lia.
    - rewrite seqZ_cons by lia.
      replace (Z.pred (Z.of_nat (S k))) with (Z.of_nat k) by lia.
      simpl. unfold sbind.
      destruct (body m x s) as [[x1 s1]|] eqn:Eb; [|done].
      intros Hrest. eapply IH; [| |
        |exact Hrest]; [lia|lia|].
      replace (Z.succ m) with (m + 1) by lia.
      eapply Hbody; [|done|done|]; [lia|].
      eapply (sfor_each_extends R); [|exact Hrest]. intros. by eapply Hext. }
  apply Hgen; [lia|lia|done].
Qed.

(** A round on exact readings: when the candidates have one offset each,
    the reading of the site [a] is [H] and the reading of every other site
    is 0, the round claims [a]. *)
Lemma round_exact (reply : nat → Z) (exceeds : Z → bool) (i_in : Z)
  (v : Judge.query → Z) (a H : Z) (cands : list candidate)
  (vars : list Z * list Z) (asked : list Judge.query)
  (vars' : list Z * list Z) (asked' : list Judge.query) :
  round reply exceeds i_in cands vars asked vars' asked' →
  (∀ k q, asked' !! k = Some q → (length asked ≤ k)%nat → reply k = v q) →
  (∀ c, c ∈ cands →
     ∃ off, snd c = [off]
            ∧ v (i_in, fst off, snd off) = if decide (fst c = a) then H else 0) →
  exceeds H = true → exceeds 0 = false → a ∈ fst <$> cands →
  ∃ estimate', Py.setitem (fst vars) i_in a = Ok estimate'
               ∧ vars' = (estimate', snd vars ++ [a]).
Proof.
  intros Hround Hreply Hcands HH H0.
  induction Hround as [vars asked | c rest est vis asked est' Hex Hset
                      | c rest vars asked vars' asked' Hex Hround IH]; intros Ha.
  - by apply elem_of_nil in Ha.
  - destruct (Hcands c) as (off & Hoff & Hv); [left|].
    assert (reply (length asked) = v (i_in, fst off, snd off)) as Hr.
    { apply Hreply; [|done]. unfold queries_of. rewrite Hoff. simpl.
      by rewrite lookup_app_r, Nat.sub_diag by done. }
    revert Hex. rewrite Hoff. unfold reading. simpl.
    rewrite Nat.add_0_r, Z.add_0_r, Hr, Hv.
    case_decide as Heq; [|by rewrite H0]. intros _. simpl.
    exists est'. by rewrite <- Heq.
  - destruct (Hcands c) as (off & Hoff & Hv); [left|].
    destruct (round_asked _ _ _ 1 _ _ _ _ _ Hround) as (qs & Hasked' & _).
    { intros c' Hc'. destruct (Hcands c') as (off' & -> & _); [by right|done]. }
    assert (reply (length asked) = v (i_in, fst off, snd off)) as Hr.
    { apply Hreply; [|done]. rewrite Hasked'. unfold queries_of. rewrite Hoff.
      simpl. rewrite <- app_assoc.
      by rewrite lookup_app_r, Nat.sub_diag by done. }
    revert Hex. rewrite Hoff. unfold reading. simpl.
    rewrite Nat.add_0_r, Z.add_0_r, Hr, Hv.
    case_decide as Heq; [by rewrite HH|]. intros _.
    apply IH.
    + intros k q Hk Hlen. apply Hreply; [done|]. rewrite length_app in Hlen. lia.
    + intros c' Hc'. apply Hcands. by right.
    + rewrite fmap_cons in Ha. apply elem_of_cons in Ha as [Ha|Ha]; [|done].
      by destruct Heq.
Qed.

Lemma mod_offset_zero (L y d : Z) :
  0 <= y < L → - L < d < L → (y + d) mod L = y → d = 0.
Proof.
  intros Hy Hd Hm. pose proof (Z.div_mod (y + d) L ltac:(lia)) as Hdm.
  rewrite Hm in Hdm. generalize dependent ((y + d) / L). intros q Hdm.
  assert (d = L * q) as Hq by lia.
  assert (-1 < q < 1) by nia. nia.
Qed.

(** The cells of a field with one hotspot. *)
Lemma hotspot_cells (L y x H : Z) (t : field) :
  0 < L → 0 <= y < L → 0 <= x < L →
  set2 (zero_field L) y x H = Ok t →
  ∀ i j, 0 <= i < L → 0 <= j < L →
    cell t i j = if decide ((i, j) = (y, x)) then H else 0.
Proof.
  intros HL Hy Hx Hset i j Hi Hj. case_decide as Heq.
  - injection Heq as -> ->. eapply set2_cell_same; [exact Hset|lia..].
  - rewrite (set2_cell_other _ _ _ _ _ _ _ Hset) by (done || lia).
    by apply zero_field_cell.
Qed.

Lemma assignment_facts (N : Z) (hidden : list Z) :
  assignment N hidden →
  length hidden = Z.to_nat N ∧ NoDup hidden ∧ ∀ a, a ∈ hidden ↔ 0 <= a < N.
Proof.
  intros Hp. unfold assignment in Hp. split_and!.
  - by rewrite Hp, length_range.
  - rewrite Hp. apply NoDup_seqZ.
  - intros a. by rewrite Hp, elem_of_range.
Qed.

(** The exact reading of the hidden index [i] at the offset of the site
    [i_out] in the table of variant B. *)
Lemma singular_exact_reading (L N H : Z) (landing_pos : list Pos.t)
  (hidden : list Z) (t : field) (y x : Z) (i a i_out : Z) (pos_out : Pos.t) :
  episode L N landing_pos → NoDup landing_pos → assignment N hidden →
  0 <= y < L → 0 <= x < L → set2 (zero_field L) y x H = Ok t →
  hidden !! Z.to_nat i = Some a →
  0 <= i_out → landing_pos !! Z.to_nat i_out = Some pos_out →
  exact_reply L t landing_pos hidden
    (i, y - Pos.y pos_out, x - Pos.x pos_out)
  = if decide (i_out = a) then H else 0.
Proof.
  intros Hep Hnd Hhid Hy Hx Hset Ha Hi_out Hout.
  pose proof Hep as (HL & HN & Hlen & Hgrid).
  destruct (assignment_facts N hidden Hhid) as (_ & _ & Hin).
  assert (0 <= a < N) as Harange by (apply Hin; by eapply list_elem_of_lookup_2).
  destruct (lookup_lt_is_Some_2 landing_pos (Z.to_nat a)) as [pos_a Hpa]; [lia|].
  pose proof (Forall_lookup_1 _ _ _ _ Hgrid Hpa) as [Hay Hax].
  pose proof (Forall_lookup_1 _ _ _ _ Hgrid Hout) as [Hoy Hox].
  simpl in *. unfold exact_reply. rewrite Ha, Hpa.
  rewrite (hotspot_cells L y x H t) by (done || by apply Z.mod_pos_bound).
  replace (Pos.y pos_a + (y - Pos.y pos_out))
    with (y + (Pos.y pos_a - Pos.y pos_out)) by lia.
  replace (Pos.x pos_a + (x - Pos.x pos_out))
    with (x + (Pos.x pos_a - Pos.x pos_out)) by lia.
  destruct (decide (i_out = a)) as [->|Hne].
  - rewrite Hpa in Hout. injection Hout as ->.
    rewrite !Z.sub_diag, !Z.add_0_r, !Z.mod_small by done.
    by rewrite decide_True.
  - rewrite decide_False; [done|]. intros [= Hmy Hmx].
    apply mod_offset_zero in Hmy; [|done|lia].
    apply mod_offset_zero in Hmx; [|done|lia].
    assert (pos_a = pos_out) as Heq
      by (destruct pos_a, pos_out; simpl in *; f_equal; lia).
    subst pos_out.
    pose proof (NoDup_lookup _ _ _ _ Hnd Hpa Hout). lia.
Qed.

(** X15: variant B decodes readings without noise exactly.  When the sites
    are distinct, [S >= 1], and every reply read was the temperature of the
    cell that the query reaches from the site hidden behind its index, the
    estimate of [_predict] on the field and the table of [run] is the hidden
    assignment. *)
Theorem singular_decodes_exact_readings (reply : nat → Z) (L N S : Z)
  (landing_pos : list Pos.t) (hidden : list Z) (t : field)
  (distance : list SingularTemperature.entry) (estimate : list Z)
  (asked : list Judge.query) :
  episode L N landing_pos → NoDup landing_pos → 1 <= S →
  assignment N hidden →
  SingularTemperature.run L N S landing_pos = Ok (t, distance) →
  SingularSolver._predict reply N S t distance [] = Ok (estimate, asked) →
  exact reply L t landing_pos hidden asked →
  estimate = hidden.
Proof.
  intros Hep Hnd HS Hhid Hrun Hpred Hexact.
  pose proof Hep as (HL & HN & Hlen & Hgrid).
  destruct (assignment_facts N hidden Hhid) as (Hhlen & Hhnd & Hhin).
  destruct (singular_run_eq L N S landing_pos Hep)
    as (t' & y & x & Hc & Hy & Hx & Hset & Hrun').
  rewrite Hrun in Hrun'. injection Hrun' as <- Hdist.
  set (H := Z.min 1000 (10 * S)) in *.
  revert Hpred. unfold SingularSolver._predict, sbind.
  destruct (SingularSolver.rounds reply N S distance [])
    as [[[est vis] s]|] eqn:Hrounds; [|done].
  intros [Hforce ->]%lift_state. simpl in Hforce.
  (* the entries of the table *)
  assert (∀ e, e ∈ distance →
            ∃ i_out pos, 0 <= i_out ∧ landing_pos !! Z.to_nat i_out = Some pos
              ∧ e = (i_out, (y - Pos.y pos, x - Pos.x pos),
                     Z.abs (y - Pos.y pos) + Z.abs (x - Pos.x pos))) as Hentries.
  { intros e. rewrite Hdist, sorted_Permutation.
    intros ([i pos] & -> & [Hi Hpos]%elem_of_enumerate)%list_elem_of_fmap.
    exists i, pos. simpl. split; [lia|]. done. }
  assert (∀ a pos, 0 <= a → landing_pos !! Z.to_nat a = Some pos →
            (a, (y - Pos.y pos, x - Pos.x pos),
             Z.abs (y - Pos.y pos) + Z.abs (x - Pos.x pos)) ∈ distance)
    as Hentry.
  { intros a pos Ha Hpos. rewrite Hdist, sorted_Permutation.
    apply list_elem_of_fmap. exists (a, pos). split; [done|].
    apply enumerate_lookup in Hpos. rewrite Z2Nat.id in Hpos by done.
    by eapply list_elem_of_lookup_2. }
  (* the rounds *)
  assert (length est = Z.to_nat N
          ∧ vis = take (Z.to_nat (N - 1)) hidden
          ∧ take (Z.to_nat (N - 1)) est = take (Z.to_nat (N - 1)) hidden)
    as (Hel & Hvis & Htake).
  { revert Hrounds. unfold SingularSolver.rounds. intros Hrounds.
    pose proof (sfor_each_range_inv_final prefix
                  (fun i (v : list Z * list Z) =>
                     length (fst v) = Z.to_nat N
                     ∧ snd v = take (Z.to_nat i) hidden
                     ∧ take (Z.to_nat i) (fst v) = take (Z.to_nat i) hidden)
                  (N - 1)
                  (fun i_in vars => SingularSolver.probe reply S i_in distance vars)
                  s) as Hloop.
    replace (Z.max 0 (N - 1)) with (N - 1) in Hloop by lia.
    eapply (Hloop _ _ (replicate (Z.to_nat N) 0, []) [] (est, vis));
      [|exact Hrounds]; [by simpl; rewrite length_replicate|..].
    Unshelve.
    - intros i [e0 v0] s0 vars' s1 Hp.
      apply singular_probe_round in Hp.
      destruct (round_asked _ _ _ 1 _ _ _ _ _ Hp) as (qs & -> & _);
        [|by apply prefix_app_r].
      intros c [_ (e & -> & _)%list_elem_of_fmap]%list_elem_of_filter. done.
    - intros i [e0 v0] s0 vars' s1 Hi (Hl0 & Hv0 & Ht0) Hp Hpre. simpl in *.
      destruct (lookup_lt_is_Some_2 hidden (Z.to_nat i)) as [a Ha]; [lia|].
      assert (0 <= a < N) as Harange
        by (apply Hhin; by eapply list_elem_of_lookup_2).
      destruct (lookup_lt_is_Some_2 landing_pos (Z.to_nat a))
        as [pos_a Hpa]; [lia|].
      apply singular_probe_round in Hp.
      destruct (round_exact reply _ i (exact_reply L t landing_pos hidden) a H
                  _ _ _ _ _ Hp) as (est' & Hset' & ->).
      + intros k q Hk _. apply Hexact.
        by eapply prefix_lookup_Some.
      + intros c [_ (e & -> & He)%list_elem_of_fmap]%list_elem_of_filter.
        destruct (Hentries e He) as (i_out & pos & Hio & Hpos & ->).
        exists (y - Pos.y pos, x - Pos.x pos). split; [done|]. simpl.
        by eapply (singular_exact_reading L N H).
      + unfold SingularSolver.threshold, H. apply Z.ltb_lt. lia.
      + unfold SingularSolver.threshold. apply Z.ltb_ge. lia.
      + apply list_elem_of_fmap.
        exists (candidate_B (a, (y - Pos.y pos_a, x - Pos.x pos_a),
                             Z.abs (y - Pos.y pos_a) + Z.abs (x - Pos.x pos_a))).
        split; [done|]. apply list_elem_of_filter. split.
        * simpl. rewrite Hv0. intros (j & Hj)%list_elem_of_lookup_1.
          pose proof (lookup_lt_Some _ _ _ Hj) as Hjlt.
          rewrite length_take in Hjlt.
          rewrite lookup_take_lt in Hj by lia.
          pose proof (NoDup_lookup _ _ _ _ Hhnd Hj Ha). lia.
        * apply list_elem_of_fmap. eexists. split; [done|].
          apply Hentry; [lia|done].
      + simpl in Hset'. rewrite setitem_nonneg in Hset' by lia.
        injection Hset' as <-. simpl.
        replace (Z.to_nat (i + 1)) with (Datatypes.S (Z.to_nat i)) by lia.
        rewrite (take_S_r hidden _ a) by done.
        split; [by rewrite length_insert|]. split; [by rewrite Hv0|].
        rewrite (take_S_r _ _ a) by (apply list_lookup_insert_eq; lia).
        rewrite take_insert_ge by done. by rewrite Ht0. }
  (* the last entry *)
  destruct (lookup_lt_is_Some_2 hidden (Z.to_nat (N - 1))) as [z Hz]; [lia|].
  assert (hidden = take (Z.to_nat (N - 1)) hidden ++ [z]) as Hsplit.
  { rewrite <- (take_drop_middle hidden _ z Hz) at 1.
    by rewrite (drop_ge hidden) by lia. }
  revert Hforce. unfold force_last.
  destruct (filter (fun i => i ∉ vis) (Py.range N)) as [|rest l] eqn:Ef;
    [done|]. simpl.
  assert (rest = z) as ->.
  { assert (rest ∈ filter (fun i => i ∉ vis) (Py.range N)) as Hin
      by (rewrite Ef; left).
    apply list_elem_of_filter in Hin as [Hfresh Hrange%elem_of_range].
    apply Hhin in Hrange. rewrite Hsplit in Hrange.
    apply elem_of_app in Hrange as [Hrange|Hrange%list_elem_of_singleton];
      [|done].
    by rewrite Hvis in Hfresh. }
  unfold Py.setitem, Py.norm_index.
  destruct (Z.leb_spec 0 (-1)); [lia|]. simpl.
  destruct (Z.leb_spec (- Z.of_nat (length est)) (-1)); [|lia].
  simpl. intros [= <-]. rewrite Hsplit at 1. rewrite <- Htake.
  replace (Z.to_nat (Z.of_nat (length est) + -1))
    with (Z.to_nat (N - 1)) by lia.
  assert (∃ v, est !! Z.to_nat (N - 1) = Some v) as [v Hv]
    by (apply lookup_lt_is_Some_2; lia).
  rewrite <- (take_drop_middle est _ v Hv) at 1.
  rewrite (drop_ge est) by lia.
  rewrite insert_app_r_alt by (rewrite length_take; lia).
  rewrite length_take.
  replace (Z.to_nat (N - 1) - Z.to_nat (N - 1) `min` length est)%nat
    with 0%nat by lia.
  done.
Qed.


(** ** Variant D: the templates and the decoder *)

Lemma template_eq (L N S : Z) (t : field) (i : Z) (pos : Pos.t) :
  shape L t → 0 < L → 0 <= i →
  ∀ (vector : list (list Z)) (row : list Z),
    vector !! Z.to_nat i = Some row →
    AroundTemperature.template L N S t i pos vector
    = Ok (<[Z.to_nat i := row ++ readings L t (AroundTemperature.direction N S) pos]>
            vector).
Proof.
  intros Hs HL Hi. unfold AroundTemperature.template, readings.
  generalize (AroundTemperature.direction N S) as ds.
  induction ds as [|[dy dx] ds IH]; intros vector row Hrow.
  - simpl. by rewrite app_nil_r, list_insert_id.
  - cbn [Py.for_each]. rewrite (getitem_nonneg vector i row) by done. simpl.
    rewrite !modulo_pos by done. simpl.
    rewrite (get2_cell L); [|done|by apply Z.mod_pos_bound..]. simpl.
    pose proof (lookup_lt_Some _ _ _ Hrow) as Hlt.
    rewrite setitem_nonneg by lia. simpl.
    rewrite (IH _ (row ++ [cell t ((Pos.y pos + dy) mod L) ((Pos.x pos + dx) mod L)]))
      by (by apply list_lookup_insert_eq).
    rewrite list_insert_insert_eq, <- app_assoc. done.
Qed.

Lemma templates_eq (L N S : Z) (t : field) (l : list Pos.t) :
  shape L t → 0 < L →
  ∀ (m : Z) (pre : list (list Z)),
    Z.of_nat (length pre) = m →
    Py.for_each (zip (seqZ m (Z.of_nat (length l))) l)
      (fun e vector => AroundTemperature.template L N S t (fst e) (snd e) vector)
      (pre ++ replicate (length l) [])
    = Ok (pre ++ (readings L t (AroundTemperature.direction N S) <$> l)).
Proof.
  intros Hs HL. induction l as [|pos l IH]; intros m pre Hm.
  - done.
  - rewrite seqZ_cons by (simpl; lia).
    replace (Z.pred (Z.of_nat (length (pos :: l)))) with (Z.of_nat (length l))
      by (simpl; lia).
    cbn [zip_with Py.for_each length replicate fst snd].
    rewrite (template_eq L N S t m pos Hs HL) with (row := []); [|lia|].
    2:{ replace (Z.to_nat m) with (length pre + 0)%nat by lia.
        by rewrite lookup_app_r, Nat.add_0_r, Nat.sub_diag by lia. }
    simpl. replace (Z.to_nat m) with (length pre + 0)%nat by lia.
    rewrite insert_app_r. simpl.
    rewrite (cons_middle _ pre), app_assoc.
    rewrite (IH (Z.succ m)) by (rewrite length_app; simpl; lia).
    by rewrite <- app_assoc.
Qed.

Lemma around_run_vector (E : Random.entropy) (L N S : Z)
  (landing_pos : list Pos.t) (runs : nat) (k : nat) :
  episode L N landing_pos →
  ∃ t k',
    AroundTemperature.run E L N S landing_pos runs k
    = Ok (t, readings L t (AroundTemperature.direction N S) <$> landing_pos, k')
    ∧ grid L 1000 t.
Proof.
  intros Hep. pose proof Hep as (HL & HN & Hlen & Hall).
  unfold AroundTemperature.run, sbind.
  destruct (around_design_total E L N S landing_pos k Hep)
    as (t & prohibit_pos & k1 & -> & Hs & Hw).
  destruct (optimize_total E L t prohibit_pos 3 runs levels_100_01_01 k1 Hs)
    as (out & k2 & Hopt & Hs'); [lia|].
  rewrite Hopt.
  assert (in_range out) as Hout.
  { revert Hopt. apply optimize_stable; [apply stable_in_range | done]. }
  exists out, k2. split; [|done].
  unfold Py.enumerate.
  replace (Z.to_nat N) with (length landing_pos) by lia.
  change (replicate (length landing_pos) []) with
    ([] ++ replicate (length landing_pos) (@nil Z)).
  by rewrite (templates_eq L N S out landing_pos Hs' HL 0 []).
Qed.

(** X16: [AroundTemperature.run] returns, with the field, the template of
    every site: the temperatures that the returned field holds on the
    neighbourhood of the site, in the order of the offsets of
    [self.direction], on the torus. *)
Theorem around_run_templates (E : Random.entropy) (L N S : Z)
  (landing_pos : list Pos.t) (runs : nat) (k : nat) :
  episode L N landing_pos →
  ∃ t vector k',
    AroundTemperature.run E L N S landing_pos runs k = Ok (t, vector, k')
    ∧ shape L t ∧ in_range t
    ∧ length vector = length landing_pos
    ∧ ∀ i pos j d,
        landing_pos !! i = Some pos →
        AroundTemperature.direction N S !! j = Some d →
        ∃ row, vector !! i = Some row
               ∧ Z.of_nat (length row) = AroundTemperature.Around N S ^ 2
               ∧ row !! j = Some (cell t ((Pos.y pos + fst d) mod L)
                                         ((Pos.x pos + snd d) mod L)).
Proof.
  intros Hep.
  destruct (around_run_vector E L N S landing_pos runs k Hep)
    as (t & k' & Hrun & Hs & Hr).
  eexists t, _, k'. split; [exact Hrun|]. split; [done|]. split; [done|].
  split; [by rewrite length_fmap|].
  intros i pos j d Hpos Hd. eexists. split.
  { by rewrite list_lookup_fmap, Hpos. }
  unfold readings. split.
  - rewrite length_fmap. apply (around_direction_length N S).
  - by rewrite list_lookup_fmap, Hd.
Qed.

Lemma averages_total (reply : nat → Z) (i_in m : Z) (ds : list (Z * Z)) :
  (∀ k, reply k ≠ -1) → m ≠ 0 →
  ∀ (mv : list Q) (s : list Judge.query),
    ∃ mv' s',
      Py.sfor_each ds (fun d measure_vector =>
          a <~ Judge.average reply i_in (fst d) (snd d) m ;;
          sret (measure_vector ++ [a])) mv s = Ok (mv', s')
      ∧ length mv' = (length mv + length ds)%nat.
Proof.
  intros Hr Hm. induction ds as [|d ds IH]; intros mv s.
  - simpl. unfold sret. eexists _, _. split; [done|]. lia.
  - cbn [Py.sfor_each]. unfold sbind at 1. unfold sbind at 1.
    destruct (average_total reply i_in (fst d) (snd d) m s Hr Hm)
      as (a & s1 & ->).
    unfold sret at 1.
    destruct (IH (mv ++ [a]) s1) as (mv' & s' & -> & Hlen).
    eexists _, _. split; [done|]. rewrite length_app in Hlen. simpl in *. lia.
Qed.

Lemma around_cost_matrix_total (reply : nat → Z) (N S m : Z)
  (landing_pos : list Pos.t) (vector : list (list Z)) (s : list Judge.query) :
  0 < N → Z.of_nat (length landing_pos) = N → length vector = length landing_pos →
  Forall (fun row => length row = length (AroundSolver.direction N S)) vector →
  (∀ k, reply k ≠ -1) →
  AroundSolver.measure_count N S = Ok m → m ≠ 0 →
  ∃ cm s', AroundSolver.cost_matrix reply N S landing_pos vector s = Ok (cm, s')
           ∧ shape N cm.
Proof.
  intros HN Hlen Hvlen Hrows Hr Hm Hm0.
  unfold AroundSolver.cost_matrix. unfold sbind at 1. rewrite Hm.
  unfold lift at 1.
  apply (sfor_each_total (shape N)); [|apply square_matrix_shape; lia].
  intros i_in cm u Hi%elem_of_range Hcm. unfold sbind at 1.
  destruct (averages_total reply i_in m (AroundSolver.direction N S) Hr Hm0 [] u)
    as (mv & u' & -> & Hmv).
  simpl in Hmv.
  destruct (for_each_total (shape N) (Py.enumerate landing_pos)
              (fun e cost_matrix =>
                 cost <- Py.for_each (Py.range (Z.of_nat (length mv)))
                           (fun i cost =>
                              v <- get2 vector (fst e) i ;;
                              a <- Py.getitem mv i ;;
                              Ok (cost + (inject_Z v - a) ^ 2)%Q) 0%Q ;;
                 set2 cost_matrix i_in (fst e) cost)) with (x := cm)
    as (cm' & Hfor & Hcm'); [|done|].
  - intros [i_out pos] cm0 [Hio Hpos]%elem_of_enumerate Hcm0. cbn [fst snd].
    destruct (lookup_lt_is_Some_2 vector (Z.to_nat i_out)) as [row Hrow]; [lia|].
    pose proof (Forall_lookup_1 _ _ _ _ Hrows Hrow) as Hrl. simpl in Hrl.
    destruct (for_each_total (fun _ : Q => True)
                (Py.range (Z.of_nat (length mv)))
                (fun i cost =>
                   v <- get2 vector i_out i ;;
                   a <- Py.getitem mv i ;;
                   Ok (cost + (inject_Z v - a) ^ 2)%Q)) with (x := 0%Q)
      as (cost & -> & _); [|done|].
    + intros i c Hii%elem_of_range _. unfold get2.
      rewrite (getitem_nonneg vector i_out row) by (done || lia). simpl.
      destruct (lookup_lt_is_Some_2 row (Z.to_nat i)) as [v Hv]; [lia|].
      rewrite (getitem_nonneg row i v) by (done || lia). simpl.
      destruct (lookup_lt_is_Some_2 mv (Z.to_nat i)) as [a Ha]; [lia|].
      rewrite (getitem_nonneg mv i a) by (done || lia). simpl. eauto.
    + simpl. apply set2_in_grid; [done|lia|lia].
  - unfold lift. rewrite Hfor. eauto.
Qed.

(** ** main *)

Lemma one_point_run_total (E : Random.entropy) (L N : Z)
  (landing_pos : list Pos.t) (runs : nat) (k : nat) :
  episode L N landing_pos → 40 <= N <= 500 →
  ∃ t k', OnePointTemperature.run E L N landing_pos runs k = Ok (t, k')
          ∧ shape L t ∧ in_range t.
Proof.
  intros Hep HN.
  destruct (one_point_design_total L N landing_pos Hep) as (t & Hd & Hs & Hw).
  assert (0 <= OnePointTemperature.rand N) as Hrand.
  { unfold OnePointTemperature.rand.
    assert (2 <= N / 20) by (apply Z.div_le_lower_bound; lia). lia. }
  destruct (optimize_total E L t (OnePointTemperature.prohibit_pos landing_pos)
              (OnePointTemperature.rand N) runs levels_100_01_01 k Hs Hrand)
    as (out & k' & Hopt & Hs').
  exists out, k'. unfold OnePointTemperature.run, sbind, lift. rewrite Hd.
  split; [done|]. split; [done|].
  revert Hopt. apply optimize_stable; [apply stable_in_range|].
  eapply cells_within_mono; [|done]. lia.
Qed.

(** X17: for [S = 1] and 40 to 500 sites [main] runs variant A, and as long
    as the judge never replies [-1] it returns: it publishes an [L x L] field
    of cells of [0..1000], prints 5 queries at the offset [(0, 0)] for each
    hidden index but the last, and answers with what
    [linear_sum_assignment] returns for an [N x N] matrix, asked for a
    minimum. *)
Theorem main_one_point_returns (E : Random.entropy)
  (linear_sum_assignment : matrix → bool → list Z) (reply : nat → Z)
  (runs : nat) (L N S : Z) (landing_pos : list Pos.t) :
  episode L N landing_pos → S = 1 → 40 <= N <= 500 → (∀ k, reply k ≠ -1) →
  ∃ o cm, main E linear_sum_assignment reply runs L N S landing_pos = Ok o
          ∧ shape L (published o) ∧ in_range (published o)
          ∧ asked o = (i ← Py.range (N - 1); replicate 5 (i, 0, 0))
          ∧ shape N cm ∧ answered o = linear_sum_assignment cm false.
Proof.
  intros Hep -> HN Hr.
  destruct (one_point_run_total E L N landing_pos runs 0 Hep HN)
    as (t & k' & Hrun & Hs & Hrange).
  destruct (one_point_cost_matrix_total reply L N landing_pos t [] Hep Hs Hr)
    as (cm & asked & Hcm & Hshape).
  exists {| published := t; asked := asked;
            answered := linear_sum_assignment cm false |}, cm.
  unfold main, main_solver. simpl. rewrite Hrun. simpl.
  unfold OnePointSolver._predict, sbind. rewrite Hcm. simpl.
  split; [done|]. split; [done|]. split; [done|]. split; [|done].
  by apply one_point_cost_matrix_told in Hcm as [-> _].
Qed.

(** X18: when [main] selects variant C for at most 71 sites, and the judge
    never replies [-1], it returns: it publishes an [L x L] field of cells
    of [0..1000], prints [2 * N * (N - 1)] queries, at most 9940, and
    answers with what [linear_sum_assignment] returns for an [N x N]
    matrix, asked for a maximum. *)
Theorem main_singular2_assignment_returns (E : Random.entropy)
  (linear_sum_assignment : matrix → bool → list Z) (reply : nat → Z)
  (runs : nat) (L N S : Z) (landing_pos : list Pos.t) :
  episode L N landing_pos → main_solver S N = Singular2 → N <= 71 →
  (∀ k, reply k ≠ -1) →
  ∃ o cm, main E linear_sum_assignment reply runs L N S landing_pos = Ok o
          ∧ shape L (published o) ∧ in_range (published o)
          ∧ Z.of_nat (length (asked o)) = 2 * N * (N - 1)
          ∧ Z.of_nat (length (asked o)) <= 9940
          ∧ shape N cm ∧ answered o = linear_sum_assignment cm true.
Proof.
  intros Hep Hsel HN Hr. pose proof Hep as (HL & HN0 & Hlen & _).
  assert (0 <= S) as HS0.
  { revert Hsel. unfold main_solver.
    destruct (Z.eqb_spec S 1); [done|].
    destruct (Z.ltb_spec 1 S); [lia|]. simpl.
    destruct (Z.leb_spec 169 S); [lia|]. simpl.
    destruct (Z.leb_spec 289 S); [lia|done]. }
  destruct (singular2_run_total L N S landing_pos Hep HS0) as
    (t & y & x & _ & Hrun & Hshape & Hrange).
  set (entries := _ <$> Py.enumerate landing_pos) in Hrun.
  assert (Z.of_nat (length entries) = N) as Hents
    by (unfold entries; rewrite length_fmap, enumerate_length; lia).
  clearbody entries.
  destruct (singular2_cost_matrix_total reply N (Some <$> entries) [])
    as (cm & asked & Hcm & Hcms); [by rewrite length_fmap| |done|].
  { apply Forall_fmap, Forall_true. intros e. by eexists. }
  exists {| published := t; asked := asked;
            answered := linear_sum_assignment cm true |}, cm.
  unfold main. rewrite Hsel. unfold solve. rewrite Hrun. cbn [rbind].
  assert (SingularSolver2._predict linear_sum_assignment reply N S t
            (Some <$> entries) []
          = Ok (linear_sum_assignment cm true, asked)) as Hpred.
  { unfold SingularSolver2._predict. destruct (Z.leb_spec N 71); [|lia].
    unfold sbind. by rewrite Hcm. }
  unfold SingularTemperature2.entry in *.
  rewrite Hpred. simpl. split; [done|]. split; [done|]. split; [done|].
  apply singular2_cost_matrix_told in Hcm as [-> _].
  unfold Judge.query in *. cbn [app].
  match goal with
  | |- Z.of_nat (length ?qs) = _ ∧ _ =>
      assert (length qs = (2 * length entries * Z.to_nat (N - 1))%nat) as Hcount
  end.
  { rewrite <- length_range. apply length_bind_const.
    intros i _. by apply length_bind_const. }
  rewrite Hcount. split; [nia|]. split; [nia|]. done.
Qed.

(** X19: when [main] selects variant D for at most 400 sites, and the judge
    never replies [-1], it returns: it publishes an [L x L] field of cells
    of [0..1000], measures every offset of the neighbourhood
    [measure_count >= 1] times for every hidden index, with at most 10000
    queries in all, and answers with what [linear_sum_assignment] returns
    for an [N x N] matrix, asked for a minimum. *)
Theorem main_around_returns (E : Random.entropy)
  (linear_sum_assignment : matrix → bool → list Z) (reply : nat → Z)
  (runs : nat) (L N S : Z) (landing_pos : list Pos.t) :
  episode L N landing_pos → main_solver S N = Around → N <= 400 →
  (∀ k, reply k ≠ -1) →
  ∃ o cm m, main E linear_sum_assignment reply runs L N S landing_pos = Ok o
            ∧ shape L (published o) ∧ in_range (published o)
            ∧ AroundSolver.measure_count N S = Ok m ∧ 0 < m
            ∧ asked o = (i ← Py.range N;
                         block (Z.to_nat m) (AroundSolver.direction N S) i)
            ∧ Z.of_nat (length (asked o)) <= 10000
            ∧ shape N cm ∧ answered o = linear_sum_assignment cm false.
Proof.
  intros Hep Hsel HN Hr. pose proof Hep as (HL & HN0 & Hlen & _).
  destruct (around_run_vector E L N S landing_pos runs 0 Hep)
    as (t & k' & Hrun & Hs & Hrange).
  set (m := 10000 / N / AroundSolver.Around N S ^ 2).
  assert (1 <= AroundSolver.Around N S ^ 2 <= 25) as HA
    by (destruct (around_direction_cases N S) as [[-> _]|[-> _]]; lia).
  assert (AroundSolver.measure_count N S = Ok m) as Hm.
  { unfold AroundSolver.measure_count, Py.floordiv.
    destruct (Z.eqb_spec N 0); [lia|]. simpl.
    destruct (Z.eqb_spec (AroundSolver.Around N S ^ 2) 0); [lia|done]. }
  assert (0 < m) as Hm0.
  { unfold m. apply Z.div_str_pos. split; [lia|].
    etrans; [apply HA|]. apply Z.div_le_lower_bound; lia. }
  destruct (around_cost_matrix_total reply N S m landing_pos
              (readings L t (AroundTemperature.direction N S) <$> landing_pos) [])
    as (cm & asked & Hcm & Hcms); try done; try lia.
  { by rewrite length_fmap. }
  { apply Forall_fmap, Forall_true. intros pos. unfold readings. simpl.
    by rewrite length_fmap. }
  assert (AroundSolver._predict linear_sum_assignment reply N S landing_pos t
            (readings L t (AroundTemperature.direction N S) <$> landing_pos) []
          = Ok (linear_sum_assignment cm false, asked)) as Hpred.
  { unfold AroundSolver._predict, sbind. by rewrite Hcm. }
  exists {| published := t; asked := asked;
            answered := linear_sum_assignment cm false |}, cm, m.
  unfold main. rewrite Hsel. unfold solve. rewrite Hrun. cbn [rbind fst snd].
  rewrite Hpred. simpl. split; [done|]. split; [done|]. split; [done|].
  split; [done|]. split; [done|].
  apply around_cost_matrix_told in Hcm as (m' & Hm' & [-> _] & _).
  rewrite Hm in Hm'. injection Hm' as <-. cbn [app]. split; [done|].
  split; [|done]. unfold Judge.query in *.
  match goal with
  | |- Z.of_nat (length ?qs) <= _ =>
      assert (length qs = (Z.to_nat m * length (AroundSolver.direction N S)
                           * length (Py.range N))%nat) as Hcount
  end.
  { apply length_bind_const.
    intros i _. unfold block. apply length_bind_const.
    intros d _. by rewrite length_replicate. }
  rewrite Hcount, length_range.
  pose proof (around_direction_length N S) as Hd.
  pose proof (around_budget N (AroundSolver.Around N S ^ 2) m) as Hb.
  rewrite !Nat2Z.inj_mul, Hd, !Z2Nat.id by lia.
  specialize (Hb ltac:(lia) ltac:(lia) eq_refl). lia.
Qed.

(** X20: without sites, [N = 0], [run] raises [ZeroDivisionError] in every
    designer, variants A and D in their average and variants B and C in the
    mean of the sites: whatever class is constructed, [solve] has no field
    to hand to [Judge.set_temperature], and [solve] and [main] raise
    [ZeroDivisionError]. *)
Theorem main_without_sites (E : Random.entropy)
  (linear_sum_assignment : matrix → bool → list Z) (reply : nat → Z)
  (runs : nat) (L S : Z) (k : nat) :
  OnePointTemperature.run E L 0 [] runs k = Raise ZeroDivisionError
  ∧ SingularTemperature.run L 0 S [] = Raise ZeroDivisionError
  ∧ SingularTemperature2.run L 0 S [] = Raise ZeroDivisionError
  ∧ AroundTemperature.run E L 0 S [] runs k = Raise ZeroDivisionError
  ∧ (∀ solver,
       set_temperature_argument E runs L 0 S [] solver = None
       ∧ solve E linear_sum_assignment reply runs L 0 S [] solver
         = Raise ZeroDivisionError)
  ∧ main E linear_sum_assignment reply runs L 0 S [] = Raise ZeroDivisionError.
Proof.
  split_and!; try done.
  - by intros [].
  - unfold main. by destruct (main_solver S 0).
Qed.

(** ** Variant A: the levels of the sites *)

Lemma for_each_range_inv {X : Type} (P : Z → X → Prop) (n : Z)
  (body : Z → X → result X) :
  (∀ i x x', 0 <= i < n → P i x → body i x = Ok x' → P (i + 1) x') →
  ∀ x x', P 0 x → Py.for_each (Py.range n) body x = Ok x' → P (Z.max 0 n) x'.
Proof.
  intros Hbody x x' HP. rewrite range_to_nat.
  assert (∀ (k : nat) m x, 0 <= m → m + Z.of_nat k = Z.max 0 n → P m x →
            Py.for_each (seqZ m (Z.of_nat k)) body x = Ok x' →
            P (Z.max 0 n) x') as Hgen.
  { clear x HP. induction k as [|k IH]; intros m x Hm Hk HP.
    - simpl. intros [= <-]. by replace (Z.max 0 n) with m by lia.
    - rewrite seqZ_cons by lia.
      replace (Z.pred (Z.of_nat (S k))) with (Z.of_nat k) by lia.
      simpl. destruct (body m x) as [x1|] eqn:Eb; [|done]. simpl.
      apply IH; [lia|lia|].
      replace (Z.succ m) with (m + 1) by lia. eapply Hbody; [|done|done]. lia. }
  apply Hgen; [lia|lia|done].
Qed.

Lemma keeps_refl (L : Z) (cells : list (Z * Z)) (t : field) : keeps L cells t t.
Proof. by intros a b _ _ _ _. Qed.

Lemma keeps_trans (L : Z) (cells : list (Z * Z)) (t1 t2 t3 : field) :
  keeps L cells t1 t2 → keeps L cells t2 t3 → keeps L cells t1 t3.
Proof.
  intros H12 H23 a b Hin Ha Hb Hne.
  rewrite H23, H12; try done. by rewrite H12.
Qed.

(** A ring leaves the prohibited cells that are not 0 as they are. *)
Lemma ring_keeps (L : Z) (prohibit_pos : list (Z * Z)) (pos : Pos.t)
  (offsets : list (Z * Z)) (level : Z) (t t' : field) :
  0 < L → shape L t →
  OnePointTemperature.ring L prohibit_pos pos offsets level t = Ok t' →
  shape L t' ∧ keeps L prohibit_pos t t'.
Proof.
  intros HL Hs. unfold OnePointTemperature.ring.
  apply (for_each_ok (fun t' => shape L t' ∧ keeps L prohibit_pos t t'));
    [|split; [done|apply keeps_refl]].
  intros [dy dx] t1 t2 _ [Hs1 Hk1]. rewrite !modulo_pos by done. simpl.
  assert (0 <= (Pos.y pos + dy) mod L < L) as Hy by (by apply Z.mod_pos_bound).
  assert (0 <= (Pos.x pos + dx) mod L < L) as Hx by (by apply Z.mod_pos_bound).
  rewrite (get2_cell L) by done. simpl.
  destruct (Z.eqb_spec (cell t1 ((Pos.y pos + dy) mod L) ((Pos.x pos + dx) mod L)) 0)
    as [Hz|Hnz]; simpl.
  - intros Hset. split; [by eapply set2_shape|].
    intros a b Hin Ha Hb Hne.
    rewrite (set2_cell_other _ _ _ _ _ _ _ Hset); [by apply Hk1|lia..|].
    intros [= -> ->]. rewrite Hk1 in Hz; done.
  - unfold Py.mem. case_bool_decide as Hmem; simpl.
    + by intros [= <-].
    + intros Hset. split; [by eapply set2_shape|].
      intros a b Hin Ha Hb Hne.
      rewrite (set2_cell_other _ _ _ _ _ _ _ Hset); [by apply Hk1|lia..|].
      by intros [= -> ->].
Qed.

(** Filling the cells at 0 leaves the others as they are. *)
Lemma fill_zero_keeps (L avg : Z) (cells : list (Z * Z)) (t t' : field) :
  shape L t → fill_zero L avg t = Ok t' → shape L t' ∧ keeps L cells t t'.
Proof.
  intros Hs. unfold fill_zero.
  apply (for_each_ok (fun t' => shape L t' ∧ keeps L cells t t'));
    [|split; [done|apply keeps_refl]].
  intros i t1 t2 Hi%elem_of_range Ht1.
  apply (for_each_ok (fun t' => shape L t' ∧ keeps L cells t t')); [|done].
  intros j t3 t4 Hj%elem_of_range [Hs3 Hk3].
  rewrite (get2_cell L) by done. simpl.
  destruct (Z.eqb_spec (cell t3 i j) 0) as [Hz|Hnz]; [|by intros [= <-]].
  intros Hset. split; [by eapply set2_shape|].
  intros a b Hin Ha Hb Hne.
  rewrite (set2_cell_other _ _ _ _ _ _ _ Hset); [by apply Hk3|lia..|].
  intros [= -> ->]. rewrite Hk3 in Hz; done.
Qed.

Lemma center_distance_facts (L N : Z) (landing_pos : list Pos.t) :
  episode L N landing_pos → NoDup landing_pos →
  length (OnePointTemperature.center_distance L landing_pos) = Z.to_nat N
  ∧ NoDup (fst <$> OnePointTemperature.center_distance L landing_pos)
  ∧ ∀ r pos d,
      OnePointTemperature.center_distance L landing_pos !! r = Some (pos, d) →
      pos ∈ landing_pos ∧ 0 <= Pos.y pos < L ∧ 0 <= Pos.x pos < L
      ∧ (Pos.y pos, Pos.x pos) ∈ OnePointTemperature.prohibit_pos landing_pos.
Proof.
  intros Hep Hnd. pose proof Hep as (HL & HN & Hlen & _).
  unfold OnePointTemperature.center_distance. split_and!.
  - rewrite sorted_Permutation, length_fmap. lia.
  - rewrite sorted_Permutation, <- list_fmap_compose.
    rewrite (list_fmap_ext _ id landing_pos) by done. by rewrite list_fmap_id.
  - intros r pos d Hr. apply list_elem_of_lookup_2 in Hr.
    rewrite sorted_Permutation in Hr.
    apply list_elem_of_fmap in Hr as (p & [= -> _] & Hp).
    split; [done|]. destruct (landing_in_grid L N landing_pos p Hep Hp).
    split; [done|]. split; [done|].
    unfold OnePointTemperature.prohibit_pos. apply list_elem_of_fmap. eauto.
Qed.

Lemma one_point_place_levels (L N : Z) (landing_pos : list Pos.t) (avg i : Z)
  (t t' : field) :
  episode L N landing_pos → NoDup landing_pos → 0 <= i < N →
  shape L t → ranked_levels L landing_pos i t →
  OnePointTemperature.place L (OnePointTemperature.prohibit_pos landing_pos)
    avg (OnePointTemperature.center_distance L landing_pos) i t = Ok t' →
  shape L t' ∧ ranked_levels L landing_pos (i + 1) t'.
Proof.
  intros Hep Hnd Hi Hs Hlev. pose proof Hep as (HL & HN & Hlen & _).
  destruct (center_distance_facts L N landing_pos Hep Hnd) as (Hcd & Hcnd & Hcin).
  unfold OnePointTemperature.place.
  destruct (lookup_lt_is_Some_2
              (OnePointTemperature.center_distance L landing_pos) (Z.to_nat i))
    as [[pos d] Hentry]; [lia|].
  rewrite (getitem_nonneg _ i (pos, d)) by (done || lia). simpl.
  destruct (Hcin _ _ _ Hentry) as (Hpos & Hy & Hx & Hpro).
  unfold OnePointTemperature.interval.
  destruct (set2 t (Pos.y pos) (Pos.x pos) (2 * (i + 1))) as [t1|] eqn:Hset;
    [simpl|done].
  destruct (OnePointTemperature.ring L _ pos OnePointTemperature.around _ t1)
    as [t2|] eqn:Hr1; [simpl|done].
  destruct (OnePointTemperature.ring L _ pos OnePointTemperature.around2 _ t2)
    as [t3|] eqn:Hr2; [simpl|done].
  intros Hr3.
  assert (shape L t1) as Hs1 by by eapply set2_shape.
  apply ring_keeps in Hr1 as [Hs2 Hk1]; [|done..].
  apply ring_keeps in Hr2 as [Hs3 Hk2]; [|done..].
  apply ring_keeps in Hr3 as [Hs4 Hk3]; [|done..].
  split; [done|].
  pose proof (keeps_trans _ _ _ _ _ (keeps_trans _ _ _ _ _ Hk1 Hk2) Hk3) as Hk.
  intros r p d' Hr Hlt.
  destruct (Hcin _ _ _ Hr) as (Hp & Hpy & Hpx & Hppro).
  assert (cell t1 (Pos.y p) (Pos.x p) = 2 * (Z.of_nat r + 1)) as Hc1.
  { destruct (decide (r = Z.to_nat i)) as [->|Hne].
    - rewrite Hentry in Hr. injection Hr as <- <-.
      rewrite (set2_cell_same _ _ _ _ _ Hset) by lia. lia.
    - rewrite (set2_cell_other _ _ _ _ _ _ _ Hset); [apply (Hlev r p d'); [done|lia]
                                                    |lia..|].
      intros [= Hey Hex].
      assert (p = pos) as -> by (destruct p, pos; simpl in *; by subst).
      apply Hne. eapply (NoDup_lookup _ _ _ pos Hcnd).
      + by rewrite list_lookup_fmap, Hr.
      + by rewrite list_lookup_fmap, Hentry. }
  rewrite Hk; [done..|]. rewrite Hc1. lia.
Qed.

Lemma one_point_design_levels (L N : Z) (landing_pos : list Pos.t) (t : field) :
  episode L N landing_pos → NoDup landing_pos →
  OnePointTemperature.design L N landing_pos = Ok t →
  shape L t ∧ ranked_levels L landing_pos N t.
Proof.
  intros Hep Hnd. pose proof Hep as (HL & HN & Hlen & _).
  destruct (center_distance_facts L N landing_pos Hep Hnd) as (Hcd & Hcnd & Hcin).
  unfold OnePointTemperature.design.
  destruct (Py.floordiv _ 2) as [a|]; [simpl|done].
  destruct (Py.floordiv a N) as [avg|]; [simpl|done].
  destruct (Py.for_each (Py.range N) _ (zero_field L)) as [t1|] eqn:Hloop;
    [simpl|done].
  intros Hfill.
  assert (shape L t1 ∧ ranked_levels L landing_pos N t1) as [Hs1 Hl1].
  { pose proof (for_each_range_inv
                  (fun i t => shape L t ∧ ranked_levels L landing_pos i t) N
                  (OnePointTemperature.place L
                     (OnePointTemperature.prohibit_pos landing_pos) avg
                     (OnePointTemperature.center_distance L landing_pos)))
      as Hinv.
    replace (Z.max 0 N) with N in Hinv by lia.
    eapply Hinv; [| |exact Hloop].
    - intros i x x' Hi [Hsx Hlx]. by apply (one_point_place_levels L N).
    - split; [apply zero_field_shape; lia|]. intros r pos d _ Hr. lia. }
  apply (fill_zero_keeps L avg (OnePointTemperature.prohibit_pos landing_pos))
    in Hfill as [Hs Hk]; [|done].
  split; [done|]. intros r pos d Hr Hlt.
  destruct (Hcin _ _ _ Hr) as (Hp & Hpy & Hpx & Hppro).
  pose proof (Hl1 r pos d Hr Hlt) as Hc.
  rewrite Hk; [done..|]. rewrite Hc. lia.
Qed.

Lemma center_distance_rank (L : Z) (landing_pos : list Pos.t) (i : nat)
  (pos : Pos.t) :
  landing_pos !! i = Some pos →
  OnePointTemperature.center_distance L landing_pos
    !! stable_rank (centre_distance L) landing_pos i pos
  = Some (pos, centre_distance L pos).
Proof.
  intros Hpos. unfold OnePointTemperature.center_distance.
  set (g := fun p : Pos.t =>
              (p, Z.abs (Pos.y p - Pos.y (Pos.mk (L / 2) (L / 2)))
                  + Z.abs (Pos.x p - Pos.x (Pos.mk (L / 2) (L / 2))))).
  change (pos, centre_distance L pos) with (g pos).
  change (stable_rank (centre_distance L) landing_pos i pos)
    with (stable_rank (fun p => snd (g p)) landing_pos i pos).
  rewrite <- (stable_rank_fmap g snd).
  apply sorted_lookup_rank. by rewrite list_lookup_fmap, Hpos.
Qed.

(** X21: variant A on distinct sites.  The levels 2, 4, ..., [2 * N] go to
    the sites in the stable ascending order of their Manhattan distance from
    the cell [(L // 2, L // 2)]: the site [i] of the input holds
    [2 * (r + 1)], where [r] counts the sites nearer to that cell and the
    sites before [i] at the same distance, and stands at the place [r] of
    [center_distance].  This holds in the designed field and in the field
    that [run] returns after the annealing. *)
Theorem one_point_site_levels (E : Random.entropy) (L N : Z)
  (landing_pos : list Pos.t) (runs : nat) (k : nat) :
  episode L N landing_pos → NoDup landing_pos →
  ∃ t, OnePointTemperature.design L N landing_pos = Ok t
       ∧ (∀ (i : nat) pos, landing_pos !! i = Some pos →
            OnePointTemperature.center_distance L landing_pos
              !! stable_rank (centre_distance L) landing_pos i pos
            = Some (pos, centre_distance L pos)
            ∧ cell t (Pos.y pos) (Pos.x pos)
              = 2 * (Z.of_nat (stable_rank (centre_distance L) landing_pos i pos)
                     + 1))
       ∧ ∀ out k',
           OnePointTemperature.run E L N landing_pos runs k = Ok (out, k') →
           ∀ (i : nat) pos, landing_pos !! i = Some pos →
             cell out (Pos.y pos) (Pos.x pos)
             = 2 * (Z.of_nat (stable_rank (centre_distance L) landing_pos i pos)
                    + 1).
Proof.
  intros Hep Hnd. pose proof Hep as (HL & HN & Hlen & _).
  destruct (one_point_design_total L N landing_pos Hep) as (t & Hd & Hs & _).
  destruct (one_point_design_levels L N landing_pos t Hep Hnd Hd) as [_ Hlev].
  destruct (center_distance_facts L N landing_pos Hep Hnd) as (Hcd & _ & Hcin).
  assert (∀ (i : nat) pos, landing_pos !! i = Some pos →
            cell t (Pos.y pos) (Pos.x pos)
            = 2 * (Z.of_nat (stable_rank (centre_distance L) landing_pos i pos)
                   + 1)) as Hcells.
  { intros i pos Hpos.
    pose proof (center_distance_rank L landing_pos i pos Hpos) as Hr.
    apply (Hlev _ pos _ Hr). apply lookup_lt_Some in Hr. lia. }
  exists t. split; [done|]. split.
  { intros i pos Hpos. split; [by apply center_distance_rank|by apply Hcells]. }
  intros out k'. unfold OnePointTemperature.run, sbind, lift. rewrite Hd.
  intros Hopt i pos Hpos.
  rewrite <- (Hcells i pos Hpos).
  pose proof (center_distance_rank L landing_pos i pos Hpos) as Hr.
  destruct (Hcin _ _ _ Hr) as (Hp & Hpy & Hpx & Hppro).
  pose proof (optimize_stable E L _ t _ _ _ _ _ _ _
                (stable_frame L (OnePointTemperature.prohibit_pos landing_pos) t)
                ltac:(done) Hopt) as Hframe.
  simpl in Hframe. by apply Hframe.
Qed.

(** ** The threshold decoder of variant C when every round claims *)

(** X24: above 71 sites, when each of the [N - 1] rounds of the decoder of
    variant C has claimed a site, the forced last entry completes a
    bijection between the hidden indices and the sites. *)
Theorem singular2_predict_bijection
  (linear_sum_assignment : matrix → bool → list Z) (reply : nat → Z)
  (L N S : Z) (landing_pos : list Pos.t) (t : field)
  (distance : list (option SingularTemperature2.entry))
  (vars : list Z * list Z) (asked : list Judge.query) :
  episode L N landing_pos → 71 < N →
  SingularTemperature2.run L N S landing_pos = Ok (t, distance) →
  SingularSolver2.rounds reply N S distance [] = Ok (vars, asked) →
  length (snd vars) = Z.to_nat (N - 1) →
  ∃ estimate,
    SingularSolver2._predict linear_sum_assignment reply N S t distance []
    = Ok (estimate, asked)
    ∧ assignment N estimate.
Proof.
  intros Hep HN71 Hrun Hrounds Hfull. pose proof Hep as (_ & HN & Hlen & _).
  destruct (singular2_run_eq L N S landing_pos Hep)
    as (t1 & t' & y & x & _ & _ & _ & _ & _ & Hrun').
  rewrite Hrun in Hrun'. injection Hrun' as _ Hdist.
  set (entries := _ <$> Py.enumerate landing_pos) in Hdist.
  assert (Z.of_nat (length entries) = N) as Hents
    by (unfold entries; rewrite length_fmap, enumerate_length; lia).
  clearbody entries. subst distance.
  destruct (rounds_claimed reply (fun m => 53 * S <? 10 * m) N
              (candidate_C <$> Py.enumerate entries)
              (fun i_in vars =>
                 SingularSolver2.probe reply S i_in
                   (Py.enumerate (Some <$> entries)) vars)
              vars asked) as (Hl & Hnd & Hin & _ & Htake).
  - intros c ([i e] & -> & [Hi _]%elem_of_enumerate)%list_elem_of_fmap.
    unfold SingularTemperature2.entry in *. simpl. lia.
  - intros i_in estimate visited_index s vars' s'. rewrite enumerate_fmap.
    apply singular2_probe_round.
  - exact Hrounds.
  - replace (Z.max 0 (N - 1)) with (N - 1) in Htake by lia.
    destruct (force_last_bijection N (fst vars) (snd vars))
      as (estimate & Hforce & Hassign); try done; [by apply Htake|].
    exists estimate. split; [|done].
    unfold SingularSolver2._predict. destruct (Z.leb_spec N 71); [lia|].
    unfold sbind. rewrite Hrounds. unfold lift. by rewrite Hforce.
Qed.

(** ** The further properties at concrete inputs *)

Lemma episode_sites40 : episode 16 40 sites40.
Proof.
  split; [lia|]. split; [lia|]. split; [reflexivity|].
  refine (bool_decide_unpack _ _). vm_compute. exact I.
Defined.

Lemma episode_sites72 : episode 20 72 sites72.
Proof.
  split; [lia|]. split; [lia|]. split; [reflexivity|].
  refine (bool_decide_unpack _ _). vm_compute. exact I.
Defined.

Lemma in_range_field22 : in_range field22.
Proof. repeat constructor; lia. Defined.

Lemma NoDup_sites3 : NoDup sites3.
Proof.
  unfold sites3.
  apply NoDup_cons_2;
    [|apply NoDup_cons_2; [|apply NoDup_cons_2; [|apply NoDup_nil_2]]];
    intros Hin;
    repeat (apply elem_of_cons in Hin as [Hin|Hin]; [discriminate|]);
    by apply elem_of_nil in Hin.
Defined.

Lemma assignment_hidden3 : assignment 3 hidden3.
Proof.
  unfold assignment, hidden3. change (Py.range 3) with [0; 1; 2].
  etrans; [apply perm_skip, Permutation_swap|]. apply Permutation_swap.
Defined.

Lemma reply_zero_answers (k : nat) : reply_zero k ≠ -1.
Proof. unfold reply_zero. lia. Defined.

Lemma reply_hot_answers (k : nat) : reply_hot k ≠ -1.
Proof. unfold reply_hot. lia. Defined.

Lemma optimize_keeps_shape_witness :
  shape 2 field22 ∧ shape 2 [[2; 2]; [3; 4]].
Proof.
  split; [exact shape_field22|].
  apply (optimize_keeps_shape E_cold 2 field22 [] 5 1%nat levels_100_01_01 0%nat
           [[2; 2]; [3; 4]] 11%nat shape_field22).
  vm_compute. reflexivity.
Defined.

Lemma optimize_without_rounds_witness :
  shape 2 field22
  ∧ OptimizeTemperature.optimize E_zero 2 field22 [] 5 0 3%nat 0%nat
    = Ok (field22, 0%nat)
  ∧ OptimizeTemperature.optimize E_zero 2 field22 [] 5 7%nat 0 0%nat
    = Ok (field22, 0%nat).
Proof.
  split; [exact shape_field22|].
  exact (optimize_without_rounds E_zero 2 field22 [] 5 7%nat 3%nat 0%nat
           shape_field22).
Defined.

Lemma optimize_rand_zero_returns_input_witness :
  shape 2 field22 ∧ in_range field22
  ∧ ∃ k', OptimizeTemperature.optimize E_uphill 2 field22 [(0, 0)] 0 2%nat
            levels_100_01_01 0%nat = Ok (field22, k').
Proof.
  split; [exact shape_field22|]. split; [exact in_range_field22|].
  exact (optimize_rand_zero_returns_input E_uphill 2 field22 [(0, 0)] 2%nat
           levels_100_01_01 0%nat shape_field22 in_range_field22).
Defined.

Lemma one_point_run_unannealed_witness :
  episode 16 40 sites40
  ∧ OnePointTemperature.rand 40 = 0
  ∧ ∃ t k', OnePointTemperature.design 16 40 sites40 = Ok t
            ∧ OnePointTemperature.run E_uphill 16 40 sites40 2%nat 0%nat
              = Ok (t, k').
Proof.
  split; [exact episode_sites40|].
  apply (one_point_run_unannealed E_uphill 16 40 sites40 2%nat 0%nat
           episode_sites40).
  lia.
Defined.

Lemma singular_field_one_hotspot_witness :
  episode 10 3 sites3
  ∧ ∃ t distance,
      SingularTemperature.run 10 3 144 sites3 = Ok (t, distance)
      ∧ cell t 4 3 = 1000 ∧ cell t 2 2 = 0.
Proof.
  split; [exact episode_sites3|].
  destruct (singular_field_one_hotspot 10 3 144 sites3 episode_sites3)
    as (t & distance & y & x & Hrun & -> & -> & _ & _ & _ & Hcells).
  exists t, distance. split; [exact Hrun|]. split.
  - apply (Hcells 4 3); lia.
  - apply (Hcells 2 2); lia.
Defined.

Lemma singular2_field_two_hotspots_witness :
  episode 10 3 sites3
  ∧ ∃ t distance,
      SingularTemperature2.run 10 3 200 sites3 = Ok (t, distance)
      ∧ cell t 4 3 = 1000 ∧ cell t 5 3 = 1000 ∧ cell t 6 3 = 0.
Proof.
  split; [exact episode_sites3|].
  destruct (singular2_field_two_hotspots 10 3 200 sites3 episode_sites3)
    as (t & distance & y & x & Hrun & -> & -> & _ & _ & _ & Hcells).
  exists t, distance. split; [exact Hrun|]. split; [|split].
  - apply (Hcells 4 3); lia.
  - apply (Hcells 5 3); lia.
  - apply (Hcells 6 3); lia.
Defined.

Lemma singular_offsets_reach_hotspot_witness :
  episode 10 3 sites3
  ∧ ∃ t distance y x,
      SingularTemperature.run 10 3 144 sites3 = Ok (t, distance)
      ∧ centroid 3 sites3 = Ok (y, x)
      ∧ ∀ i_out dy dx d, (i_out, (dy, dx), d) ∈ distance →
          ∃ pos, 0 <= i_out < 3 ∧ sites3 !! Z.to_nat i_out = Some pos
                 ∧ target 10 pos (dy, dx) = (y, x)
                 ∧ cell t ((Pos.y pos + dy) mod 10) ((Pos.x pos + dx) mod 10)
                   = Z.min 1000 (10 * 144).
Proof.
  split; [exact episode_sites3|].
  exact (singular_offsets_reach_hotspot 10 3 144 sites3 episode_sites3).
Defined.

Lemma singular2_offsets_reach_hotspots_witness :
  episode 10 3 sites3
  ∧ ∃ t distance y x,
      SingularTemperature2.run 10 3 200 sites3 = Ok (t, distance)
      ∧ centroid 3 sites3 = Ok (y, x)
      ∧ length distance = length sites3.
Proof.
  split; [exact episode_sites3|].
  destruct (singular2_offsets_reach_hotspots 10 3 200 sites3 episode_sites3)
    as (t & distance & y & x & Hrun & Hc & Hlen & _).
  exists t, distance, y, x. split; [exact Hrun|]. split; [exact Hc|exact Hlen].
Defined.

Lemma one_point_predict_queries_witness :
  OnePointSolver._predict solver3 reply_zero 3 sites3 (zero_field 10) []
  = Ok ([1; 0; 2], i ← Py.range (3 - 1); replicate 5 (i, 0, 0))
  ∧ length (i ← Py.range (3 - 1); replicate 5 (i, 0, 0)) = (5 * Z.to_nat (3 - 1))%nat.
Proof.
  assert (OnePointSolver._predict solver3 reply_zero 3 sites3 (zero_field 10) []
          = Ok ([1; 0; 2], i ← Py.range (3 - 1); replicate 5 (i, 0, 0))) as Hrun
    by (vm_compute; reflexivity).
  split; [exact Hrun|].
  exact (proj1 (proj2 (one_point_predict_queries solver3 reply_zero 3 sites3
                         (zero_field 10) [1; 0; 2] _ Hrun))).
Defined.

Lemma singular2_assignment_queries_witness :
  SingularSolver2._predict solver3 reply_zero 3 200 (zero_field 10)
    (Some <$> entries3) []
  = Ok ([1; 0; 2],
        i ← Py.range (3 - 1); e ← entries3;
        [(i, fst (fst e), snd (fst e)); (i, fst (snd e), snd (snd e))])
  ∧ Z.of_nat (length (i ← Py.range (3 - 1); e ← entries3;
                      [(i, fst (fst e), snd (fst e));
                       (i, fst (snd e), snd (snd e))]))
    = 2 * 3 * Z.max 0 (3 - 1).
Proof.
  assert (SingularSolver2._predict solver3 reply_zero 3 200 (zero_field 10)
            (Some <$> entries3) []
          = Ok ([1; 0; 2],
                i ← Py.range (3 - 1); e ← entries3;
                [(i, fst (fst e), snd (fst e)); (i, fst (snd e), snd (snd e))]))
    as Hrun by (vm_compute; reflexivity).
  split; [exact Hrun|].
  refine (proj1 (proj2 (singular2_assignment_queries solver3 reply_zero 3 200
                          (zero_field 10) entries3 [1; 0; 2] _ _ _ Hrun))).
  - lia.
  - reflexivity.
Defined.

Lemma around_predict_queries_witness :
  0 < 3
  ∧ ∃ estimate asked m,
      AroundSolver._predict solver3 reply_zero 3 400 sites3 (zero_field 10)
        (replicate 3 (replicate 9 0)) [] = Ok (estimate, asked)
      ∧ AroundSolver.measure_count 3 400 = Ok m ∧ 0 < m
      ∧ Z.of_nat (length asked) = 3 * AroundSolver.Around 3 400 ^ 2 * m
      ∧ Z.of_nat (length asked) <= 10000.
Proof.
  split; [lia|].
  destruct (around_cost_matrix_total reply_zero 3 400 370 sites3
              (replicate 3 (replicate 9 0)) [])
    as (cm & asked & Hcm & _).
  - lia.
  - reflexivity.
  - reflexivity.
  - repeat constructor.
  - exact reply_zero_answers.
  - vm_compute. reflexivity.
  - lia.
  - assert (AroundSolver._predict solver3 reply_zero 3 400 sites3 (zero_field 10)
              (replicate 3 (replicate 9 0)) []
            = Ok (solver3 cm false, asked)) as Hrun
      by (unfold AroundSolver._predict, sbind; rewrite Hcm; reflexivity).
    destruct (around_predict_queries solver3 reply_zero 3 400 sites3
                (zero_field 10) (replicate 3 (replicate 9 0)) _ _
                ltac:(lia) Hrun) as (m & Hm & Hpos & _ & Hcount & Hle & _).
    exists (solver3 cm false), asked, m. split; [exact Hrun|].
    split; [exact Hm|]. split; [exact Hpos|]. split; [exact Hcount|exact Hle].
Defined.

Lemma around_predict_zero_count_witness :
  0 < 401 ∧ 10000 / 401 < AroundSolver.Around 401 700 ^ 2
  ∧ AroundSolver.measure_count 401 700 = Ok 0
  ∧ AroundSolver._predict solver3 reply_zero 401 700 [] (zero_field 1) [] []
    = Raise ZeroDivisionError.
Proof.
  assert (10000 / 401 < AroundSolver.Around 401 700 ^ 2) as Hlt
    by (vm_compute; reflexivity).
  split; [lia|]. split; [exact Hlt|].
  apply (around_predict_zero_count solver3 reply_zero 401 700 [] (zero_field 1)
           [] []); [lia|exact Hlt].
Defined.

Lemma main_singular_returns_witness :
  episode 10 3 sites3
  ∧ ∃ o, main E_zero solver3 reply_zero 1%nat 10 3 144 sites3 = Ok o
         ∧ length (answered o) = Z.to_nat 3 ∧ valid_sites 3 (answered o)
         ∧ Z.of_nat (length (asked o)) <= 3 * (3 - 1).
Proof.
  split; [exact episode_sites3|].
  destruct (main_singular_returns E_zero solver3 reply_zero 1%nat 10 3 144 sites3
              episode_sites3 ltac:(lia) reply_zero_answers)
    as (o & Hmain & _ & _ & Hlen & Hvalid & Hcount & _).
  exists o. split; [exact Hmain|]. split; [exact Hlen|].
  split; [exact Hvalid|exact Hcount].
Defined.

Lemma main_singular2_threshold_returns_witness :
  episode 20 72 sites72
  ∧ ∃ o, main E_zero solver3 reply_hot 1%nat 20 72 200 sites72 = Ok o
         ∧ length (answered o) = Z.to_nat 72 ∧ valid_sites 72 (answered o)
         ∧ Z.of_nat (length (asked o)) <= 2 * 72 * (72 - 1).
Proof.
  split; [exact episode_sites72|].
  destruct (main_singular2_threshold_returns E_zero solver3 reply_hot 1%nat
              20 72 200 sites72 episode_sites72 ltac:(lia) ltac:(lia)
              reply_hot_answers)
    as (o & Hmain & _ & _ & Hlen & Hvalid & Hcount & _).
  exists o. split; [exact Hmain|]. split; [exact Hlen|].
  split; [exact Hvalid|exact Hcount].
Defined.

Lemma singular_decodes_exact_readings_witness :
  episode 10 3 sites3 ∧ NoDup sites3 ∧ assignment 3 hidden3
  ∧ SingularTemperature.run 10 3 144 sites3 = Ok (hot_field3, table3)
  ∧ SingularSolver._predict reply_exact3 3 144 hot_field3 table3 []
    = Ok ([1; 2; 0], asked3)
  ∧ exact reply_exact3 10 hot_field3 sites3 hidden3 asked3
  ∧ [1; 2; 0] = hidden3.
Proof.
  assert (SingularTemperature.run 10 3 144 sites3 = Ok (hot_field3, table3))
    as Hrun by (vm_compute; reflexivity).
  assert (SingularSolver._predict reply_exact3 3 144 hot_field3 table3 []
          = Ok ([1; 2; 0], asked3)) as Hpred by (vm_compute; reflexivity).
  assert (exact reply_exact3 10 hot_field3 sites3 hidden3 asked3) as Hexact.
  { intros k q.
    do 5 (destruct k as [|k]; [intros [= <-]; vm_compute; reflexivity|]).
    discriminate. }
  split; [exact episode_sites3|]. split; [exact NoDup_sites3|].
  split; [exact assignment_hidden3|]. split; [exact Hrun|].
  split; [exact Hpred|]. split; [exact Hexact|].
  apply (singular_decodes_exact_readings reply_exact3 10 3 144 sites3 hidden3
           hot_field3 table3 [1; 2; 0] asked3 episode_sites3 NoDup_sites3
           ltac:(lia) assignment_hidden3 Hrun Hpred Hexact).
Defined.

Lemma around_run_templates_witness :
  episode 10 3 sites3
  ∧ ∃ t vector k',
      AroundTemperature.run E_zero 10 3 400 sites3 1%nat 0%nat
      = Ok (t, vector, k')
      ∧ shape 10 t ∧ in_range t ∧ length vector = length sites3.
Proof.
  split; [exact episode_sites3|].
  destruct (around_run_templates E_zero 10 3 400 sites3 1%nat 0%nat
              episode_sites3) as (t & vector & k' & Hrun & Hs & Hr & Hlen & _).
  exists t, vector, k'. split; [exact Hrun|]. split; [exact Hs|].
  split; [exact Hr|exact Hlen].
Defined.

Lemma main_one_point_returns_witness :
  episode 16 40 sites40
  ∧ ∃ o, main E_zero solver3 reply_zero 1%nat 16 40 1 sites40 = Ok o
         ∧ shape 16 (published o) ∧ in_range (published o)
         ∧ asked o = (i ← Py.range (40 - 1); replicate 5 (i, 0, 0)).
Proof.
  split; [exact episode_sites40|].
  destruct (main_one_point_returns E_zero solver3 reply_zero 1%nat 16 40 1
              sites40 episode_sites40 eq_refl ltac:(lia) reply_zero_answers)
    as (o & cm & Hmain & Hs & Hr & Hasked & _).
  exists o. split; [exact Hmain|]. split; [exact Hs|].
  split; [exact Hr|exact Hasked].
Defined.

Lemma main_singular2_assignment_returns_witness :
  episode 10 3 sites3 ∧ main_solver 200 3 = Singular2
  ∧ ∃ o, main E_zero solver3 reply_zero 1%nat 10 3 200 sites3 = Ok o
         ∧ Z.of_nat (length (asked o)) = 2 * 3 * (3 - 1).
Proof.
  split; [exact episode_sites3|]. split; [reflexivity|].
  destruct (main_singular2_assignment_returns E_zero solver3 reply_zero 1%nat
              10 3 200 sites3 episode_sites3 eq_refl ltac:(lia)
              reply_zero_answers)
    as (o & cm & Hmain & _ & _ & Hcount & _).
  exists o. split; [exact Hmain|exact Hcount].
Defined.

Lemma main_around_returns_witness :
  episode 10 3 sites3 ∧ main_solver 400 3 = Around
  ∧ ∃ o, main E_zero solver3 reply_zero 1%nat 10 3 400 sites3 = Ok o
         ∧ shape 10 (published o) ∧ in_range (published o)
         ∧ Z.of_nat (length (asked o)) <= 10000.
Proof.
  split; [exact episode_sites3|]. split; [reflexivity|].
  destruct (main_around_returns E_zero solver3 reply_zero 1%nat 10 3 400 sites3
              episode_sites3 eq_refl ltac:(lia) reply_zero_answers)
    as (o & cm & m & Hmain & Hs & Hr & _ & _ & _ & Hcount & _).
  exists o. split; [exact Hmain|]. split; [exact Hs|].
  split; [exact Hr|exact Hcount].
Defined.

Lemma one_point_site_levels_witness :
  episode 10 3 sites3 ∧ NoDup sites3
  ∧ ∃ t, OnePointTemperature.design 10 3 sites3 = Ok t
         ∧ cell t 7 7 = 2 ∧ cell t 5 1 = 4 ∧ cell t 2 2 = 6.
Proof.
  split; [exact episode_sites3|]. split; [exact NoDup_sites3|].
  destruct (one_point_site_levels E_zero 10 3 sites3 1%nat 0%nat episode_sites3
              NoDup_sites3) as (t & Hd & Hlev & _).
  exists t. split; [exact Hd|]. split; [|split].
  - exact (proj2 (Hlev 1%nat (Pos.mk 7 7) eq_refl)).
  - exact (proj2 (Hlev 2%nat (Pos.mk 5 1) eq_refl)).
  - exact (proj2 (Hlev 0%nat (Pos.mk 2 2) eq_refl)).
Defined.

Lemma optimize_cost_without_uphill_witness :
  (∀ n, Random.coin E_cold n = false)
  ∧ OptimizeTemperature._calc_placement_cost 2 field22 = Ok 20
  ∧ OptimizeTemperature.optimize E_cold 2 field22 [] 5 1%nat levels_100_01_01 0%nat
    = Ok ([[2; 2]; [3; 4]], 11%nat)
  ∧ ∃ c, OptimizeTemperature._calc_placement_cost 2 [[2; 2]; [3; 4]] = Ok c
         ∧ c <= 20.
Proof.
  assert (∀ n, Random.coin E_cold n = false) as Hcoin by (intros n; reflexivity).
  assert (OptimizeTemperature._calc_placement_cost 2 field22 = Ok 20) as Hc0
    by (vm_compute; reflexivity).
  assert (OptimizeTemperature.optimize E_cold 2 field22 [] 5 1%nat
            levels_100_01_01 0%nat = Ok ([[2; 2]; [3; 4]], 11%nat)) as Hopt
    by (vm_compute; reflexivity).
  split; [exact Hcoin|]. split; [exact Hc0|]. split; [exact Hopt|].
  exact (optimize_cost_without_uphill E_cold 2 field22 [] 5 1%nat
           levels_100_01_01 0%nat [[2; 2]; [3; 4]] 11%nat 20 Hcoin Hc0 Hopt).
Defined.

Lemma singular_predict_bijection_witness :
  episode 10 3 sites3
  ∧ SingularTemperature.run 10 3 144 sites3 = Ok (hot_field3, table3)
  ∧ SingularSolver.rounds reply_exact3 3 144 table3 []
    = Ok (([1; 2; 0], [1; 2]), asked3)
  ∧ ∃ estimate,
      SingularSolver._predict reply_exact3 3 144 hot_field3 table3 []
      = Ok (estimate, asked3)
      ∧ assignment 3 estimate.
Proof.
  assert (SingularTemperature.run 10 3 144 sites3 = Ok (hot_field3, table3))
    as Hrun by (vm_compute; reflexivity).
  assert (SingularSolver.rounds reply_exact3 3 144 table3 []
          = Ok (([1; 2; 0], [1; 2]), asked3)) as Hrounds
    by (vm_compute; reflexivity).
  split; [exact episode_sites3|]. split; [exact Hrun|]. split; [exact Hrounds|].
  exact (singular_predict_bijection reply_exact3 10 3 144 sites3 hot_field3
           table3 ([1; 2; 0], [1; 2]) asked3 episode_sites3 ltac:(lia) Hrun
           Hrounds eq_refl).
Defined.

Lemma singular2_predict_bijection_witness :
  episode 20 72 sites72
  ∧ ∃ t distance vars asked estimate,
      SingularTemperature2.run 20 72 200 sites72 = Ok (t, distance)
      ∧ SingularSolver2.rounds reply_hot 72 200 distance [] = Ok (vars, asked)
      ∧ length (snd vars) = Z.to_nat (72 - 1)
      ∧ SingularSolver2._predict solver3 reply_hot 72 200 t distance []
        = Ok (estimate, asked)
      ∧ assignment 72 estimate.
Proof.
  split; [exact episode_sites72|].
  set (r := returned ([], []) (SingularTemperature2.run 20 72 200 sites72)).
  set (v := returned ([], [], [])
              (SingularSolver2.rounds reply_hot 72 200 (snd r) [])).
  assert (SingularTemperature2.run 20 72 200 sites72 = Ok (fst r, snd r))
    as Hrun by (vm_compute; reflexivity).
  assert (SingularSolver2.rounds reply_hot 72 200 (snd r) []
          = Ok (fst v, snd v)) as Hrounds by (vm_compute; reflexivity).
  assert (length (snd (fst v)) = Z.to_nat (72 - 1)) as Hfull
    by (vm_compute; reflexivity).
  destruct (singular2_predict_bijection solver3 reply_hot 20 72 200 sites72
              (fst r) (snd r) (fst v) (snd v) episode_sites72 ltac:(lia)
              Hrun Hrounds Hfull) as (estimate & Hpred & Hassign).
  exists (fst r), (snd r), (fst v), (snd v), estimate.
  split; [exact Hrun|]. split; [exact Hrounds|]. split; [exact Hfull|].
  split; [exact Hpred|exact Hassign].
Defined.
